(** * ioBroker.clickhouse: the history pipeline of [main.js]

    A shallow embedding of the adapter's history pipeline: the value
    normalizer ([prepareValue], [encodeValue], [decodeValue]), the skip
    policy engine ([valuesEqual], [shouldSkipValue], [pushHistory]), the
    table-name generator ([sanitizeDatapointIdentifier],
    [generateTableName]), the on-change reduction ([makeComparableKey],
    [reduceOnChange]) and the write buffer with its flush coordinator
    ([queueRow], [flushBuffer]); and, around the pipeline, the settings
    ([parseAdapterConfig], [normalizeStateConfig]), the quoted
    identifiers and the delete statements ([quoteIdent],
    [executeDelete]), the read path ([handleGetHistory]) and the tracked
    points with their subscriptions ([addTrackedDatapoint],
    [removeTrackedDatapoint], [onObjectChange]).

    JavaScript numbers are IEEE 754 binary64 values: they are modelled by
    Rocq's primitive floats, whose operations are the same ones.  Strings
    are [string]; a value of unknown shape is a [jsval].  The built-in
    functions the source calls but does not define ([JSON.parse],
    [JSON.stringify], [Number], [String], [Math.round], [Math.pow],
    [Date.prototype.toISOString]) are the fields of the class [Builtins];
    every definition and theorem is stated for an arbitrary instance of
    it, and the worked examples are evaluated with the instance of the
    module [Reference].  [parseInt], [String.prototype.trim],
    [Math.trunc] and [Date.prototype.getTime] are parameters of the
    sections that call them. *)

From Stdlib Require Import Floats ZArith Ascii Bool Lia.
From Stdlib Require String.
From stdpp Require Import base option list strings gmap.

Set Warnings "-inexact-float,-register-all".

(** ** JavaScript values *)

Module JS.

Inductive jsval : Type :=
| JUndefined
| JNull
| JBool (b : bool)
| JNum (x : float)
| JStr (s : string)
| JArr (items : list jsval)
| JObj (fields : list (string * jsval)).

(** [x === null || x === undefined] *)
Definition is_nullish (v : jsval) : bool :=
  match v with
  | JUndefined | JNull => true
  | _ => false
  end.

Definition typeof (v : jsval) : string :=
  match v with
  | JUndefined => "undefined"
  | JNull => "object"
  | JBool _ => "boolean"
  | JNum _ => "number"
  | JStr _ => "string"
  | JArr _ | JObj _ => "object"
  end.

(** Comparison of numbers: [a < b], [a <= b], [a > b], [a >= b] and
    [a === b] are the IEEE comparisons (false on NaN; [0 === -0]). *)
Definition num_lt (a b : float) : bool := PrimFloat.ltb a b.
Definition num_le (a b : float) : bool := PrimFloat.leb a b.
Definition num_gt (a b : float) : bool := PrimFloat.ltb b a.
Definition num_ge (a b : float) : bool := PrimFloat.leb b a.
Definition num_eq (a b : float) : bool := PrimFloat.eqb a b.

Definition isNaN (x : float) : bool := PrimFloat.is_nan x.
Definition isFinite (x : float) : bool := PrimFloat.is_finite x.

(** A time value that [new Date(t)] keeps: finite and within 8.64e15
    milliseconds of the epoch.  [toISOString] throws a [RangeError] on
    any other. *)
Definition Date_valid (t : float) : bool :=
  isFinite t && num_le (PrimFloat.abs t) 8.64e15%float.

(** [a === b].  The source applies it to comparable keys only, which
    are primitives; two arrays or objects are equal when they are the
    same reference, which a decoded or freshly built value never is. *)
Definition strict_eq (a b : jsval) : bool :=
  match a, b with
  | JUndefined, JUndefined => true
  | JNull, JNull => true
  | JBool x, JBool y => Bool.eqb x y
  | JNum x, JNum y => num_eq x y
  | JStr x, JStr y => String.eqb x y
  | _, _ => false
  end.

(** Truthiness: [Boolean(v)], [v ? _ : _], [!v]. *)
Definition truthy (v : jsval) : bool :=
  match v with
  | JUndefined | JNull => false
  | JBool b => b
  | JNum x => negb (PrimFloat.is_zero x || PrimFloat.is_nan x)
  | JStr s => negb (String.eqb s "")
  | JArr _ | JObj _ => true
  end.

(** The built-in functions of the host language that the source calls.
    [JSON_stringify] is [None] where the built-in returns [undefined];
    [JSON_parse] is [None] where it throws; [Date_toISOString] prints a
    valid time value. *)
Class Builtins : Type := {
  Number_toString : float -> string;
  String_toNumber : string -> float;
  Object_toString : jsval -> string;
  Object_toNumber : jsval -> float;
  JSON_stringify : jsval -> option string;
  JSON_parse : string -> option jsval;
  Math_round : float -> float;
  Math_pow : float -> float -> float;
  Date_toISOString : float -> string
}.

Section Conversions.
Context `{Builtins}.

(** [String(v)] *)
Definition toString (v : jsval) : string :=
  match v with
  | JUndefined => "undefined"
  | JNull => "null"
  | JBool true => "true"
  | JBool false => "false"
  | JNum x => Number_toString x
  | JStr s => s
  | JArr _ | JObj _ => Object_toString v
  end.

(** [Number(v)] *)
Definition toNumber (v : jsval) : float :=
  match v with
  | JUndefined => PrimFloat.nan
  | JNull => PrimFloat.zero
  | JBool true => PrimFloat.one
  | JBool false => PrimFloat.zero
  | JNum x => x
  | JStr s => String_toNumber s
  | JArr _ | JObj _ => Object_toNumber v
  end.

(** [a - b] *)
Definition js_sub (a b : jsval) : float :=
  PrimFloat.sub (toNumber a) (toNumber b).

(** [JSON.stringify(v)] as a value: a string or [undefined]. *)
Definition stringify (v : jsval) : jsval :=
  match JSON_stringify v with
  | Some s => JStr s
  | None => JUndefined
  end.
End Conversions.

(** [s.toLowerCase()], on the ASCII letters. *)
Definition lower_ascii (c : ascii) : ascii :=
  let n := nat_of_ascii c in
  if (65 <=? n)%nat && (n <=? 90)%nat then ascii_of_nat (n + 32) else c.

Fixpoint toLowerCase (s : string) : string :=
  match s with
  | EmptyString => EmptyString
  | String c r => String (lower_ascii c) (toLowerCase r)
  end.

End JS.
Import JS.

(** ** Value Normalizer

    [VALUE_TYPES], [VALUE_COLUMN_CONFIG], [encodeValue], [decodeValue] and
    [prepareValue]. *)

Module Normalizer.

(** [VALUE_TYPES]: the five type tags.  The registry holds the tag that
    [ensureTableFor] wrote, so the type of a table is one of them, and
    the fallback of [getColumnConfig] to the string column is not
    needed. *)
Inductive vtype : Type := TNumber | TString | TBoolean | TJson | TNull.

Definition type_name (t : vtype) : string :=
  match t with
  | TNumber => "number"
  | TString => "string"
  | TBoolean => "boolean"
  | TJson => "json"
  | TNull => "null"
  end.

Definition vtype_eqb (a b : vtype) : bool :=
  match a, b with
  | TNumber, TNumber | TString, TString | TBoolean, TBoolean
  | TJson, TJson | TNull, TNull => true
  | _, _ => false
  end.

(** [NUMERIC_EPSILON] *)
Definition NUMERIC_EPSILON : float := 1e-12%float.

(** The converted value [{ type, value, comparable }]. *)
Record converted : Type := Converted {
  cv_type : vtype;
  cv_value : jsval;
  cv_comparable : jsval
}.

(** The outcome of a call that may throw. *)
Inductive result (A : Type) : Type :=
| Ok (a : A)
| Throw (message : string).
Arguments Ok {A} a.
Arguments Throw {A} message.

(** The two fields of the settings that [prepareValue] reads. *)
Record settings : Type := Settings {
  storageType : string;
  round : option float
}.

Section WithBuiltins.
Context `{Builtins}.

(** [VALUE_COLUMN_CONFIG[type].encode] *)
Definition encodeValue (type : vtype) (value : jsval) : jsval :=
  match type with
  | TNumber => if is_nullish value then JNull else value
  | TString => if is_nullish value then JNull else JStr (toString value)
  | TBoolean =>
      if is_nullish value then JNull
      else if truthy value then JNum 1%float else JNum 0%float
  | TJson => if is_nullish value then JNull else JStr (toString value)
  | TNull => JNull
  end.

(** [VALUE_COLUMN_CONFIG[type].decode] *)
Definition decodeValue (type : vtype) (value : jsval) : jsval :=
  match type with
  | TNumber => if is_nullish value then JNull else JNum (toNumber value)
  | TString => if is_nullish value then JNull else JStr (toString value)
  | TBoolean =>
      if is_nullish value then JNull
      else JBool (strict_eq value (JNum 1%float) || strict_eq value (JBool true))
  | TJson =>
      if is_nullish value then JNull
      else match JSON_parse (toString value) with
           | Some parsed => parsed
           | None => value
           end
  | TNull => JNull
  end.

(** [toRoundedNumber] of [prepareValue] *)
Definition toRoundedNumber (roundDigits : option float) (number : float)
  : result float :=
  if negb (isFinite number) then Throw "Non finite number value"
  else match roundDigits with
       | Some digits =>
           let factor := Math_pow 10%float digits in
           Ok (PrimFloat.div (Math_round (PrimFloat.mul number factor)) factor)
       | None => Ok number
       end.

(** [autoDetect] of [prepareValue] *)
Definition autoDetect (roundDigits : option float) (val : jsval)
  : result converted :=
  match val with
  | JNum x =>
      match toRoundedNumber roundDigits x with
      | Ok r => Ok (Converted TNumber (JNum r) (JNum r))
      | Throw m => Throw m
      end
  | JBool _ => Ok (Converted TBoolean val val)
  | JStr _ => Ok (Converted TString val val)
  | JNull | JArr _ | JObj _ =>
      Ok (Converted TJson (stringify val) (stringify val))
  | JUndefined => Ok (Converted TString (JStr (toString val)) (JStr (toString val)))
  end.

Definition prepareValue (value : jsval) (s : settings) : result converted :=
  if is_nullish value then Ok (Converted TNull JNull JNull)
  else
    let storage := if String.eqb (storageType s) "" then "auto" else storageType s in
    let lower := toLowerCase storage in
    let roundDigits := round s in
    if String.eqb lower "number" then
      let numeric := toNumber value in
      if negb (isFinite numeric) then Throw "Cannot convert value to number"
      else match toRoundedNumber roundDigits numeric with
           | Ok rounded => Ok (Converted TNumber (JNum rounded) (JNum rounded))
           | Throw m => Throw m
           end
    else if String.eqb lower "string" then
      let asString := if is_nullish value then JStr "" else JStr (toString value) in
      Ok (Converted TString asString asString)
    else if String.eqb lower "boolean" then
      Ok (Converted TBoolean (JBool (truthy value)) (JBool (truthy value)))
    else if String.eqb lower "json" then
      let serialized := match value with JStr _ => value | _ => stringify value end in
      Ok (Converted TJson serialized serialized)
    else autoDetect roundDigits value.

(** The comparison of two comparable keys of one type: the [switch] of
    [valuesEqual], with the stored key first. *)
Definition comparableEqual (type : vtype) (stored incoming : jsval) : bool :=
  match type with
  | TNumber =>
      match stored with
      | JNum _ => num_lt (PrimFloat.abs (js_sub stored incoming)) NUMERIC_EPSILON
      | _ => false
      end
  | TBoolean => strict_eq stored incoming
  | TString | TJson => strict_eq stored incoming
  | TNull => strict_eq stored JNull && strict_eq incoming JNull
  end.

(** What the History Reconstructor reads back for a converted value:
    the decoding of its encoding, under the type of the value. *)
Definition storedRoundTrip (c : converted) : jsval :=
  decodeValue (cv_type c) (encodeValue (cv_type c) (cv_value c)).

End WithBuiltins.
End Normalizer.
Import Normalizer.

(** ** Table/Schema Resolver: table names

    [sanitizeTablePrefix], [sanitizeDatapointIdentifier],
    [isTableNameInUse] and [generateTableName].  The regular expressions
    of the source work on the characters of a string, so the functions
    below work on [list ascii]; a non-ASCII character is a run of bytes
    outside [[a-zA-Z0-9_]] and is replaced with its neighbours, as the
    source replaces it. *)

Module TableNames.

(** [{ table, type }] *)
Record tableInfo : Type := TableInfo {
  ti_table : string;
  ti_type : vtype
}.

Definition chars_of (s : string) : list ascii := String.list_ascii_of_string s.
Definition string_of (l : list ascii) : string := String.string_of_list_ascii l.

Definition is_digit (c : ascii) : bool :=
  let n := nat_of_ascii c in (48 <=? n)%nat && (n <=? 57)%nat.

Definition is_underscore (c : ascii) : bool := Ascii.eqb c "_"%char.

(** The character class [[a-zA-Z0-9_]]. *)
Definition is_word (c : ascii) : bool :=
  let n := nat_of_ascii c in
  ((97 <=? n)%nat && (n <=? 122)%nat)
  || ((65 <=? n)%nat && (n <=? 90)%nat)
  || is_digit c
  || is_underscore c.

(** The characters of a name are all of the class [[a-zA-Z0-9_]]. *)
Definition word_chars (l : list ascii) : Prop :=
  Forall (fun c => is_word c = true) l.

(** [s.replace(/[P]+/g, "_")]: every maximal run of characters of the
    class [P] becomes one underscore; [in_run] tells that the previous
    character belonged to the run being replaced. *)
Fixpoint replace_runs (P : ascii -> bool) (in_run : bool) (l : list ascii)
  : list ascii :=
  match l with
  | [] => []
  | c :: r =>
      if P c then
        if in_run then replace_runs P true r
        else "_"%char :: replace_runs P true r
      else c :: replace_runs P false r
  end.

Fixpoint drop_while (P : ascii -> bool) (l : list ascii) : list ascii :=
  match l with
  | [] => []
  | c :: r => if P c then drop_while P r else l
  end.

(** The list without its longest suffix of characters of the class [P]. *)
Fixpoint drop_while_end (P : ascii -> bool) (l : list ascii) : list ascii :=
  match l with
  | [] => []
  | c :: r =>
      match drop_while_end P r with
      | [] => if P c then [] else [c]
      | r' => c :: r'
      end
  end.

(** [s.replace(/^_+/, "")] and [s.replace(/_+$/, "")] *)
Definition strip_leading (l : list ascii) : list ascii :=
  drop_while is_underscore l.
Definition strip_trailing (l : list ascii) : list ascii :=
  drop_while_end is_underscore l.

(** [s.trim()] *)
Definition trim (l : list ascii) : list ascii :=
  drop_while_end Ascii.is_space (drop_while Ascii.is_space l).

(** [s.slice(0, n)] *)
Definition slice0 (n : nat) (l : list ascii) : list ascii := take n l.

Definition sanitizeTablePrefix (name : string) : string :=
  if String.eqb name "" then "history"
  else
    let sanitized :=
      strip_trailing (strip_leading
        (replace_runs (fun c => negb (is_word c)) false (trim (chars_of name)))) in
    if (length sanitized =? 0)%nat then "history" else string_of sanitized.

Definition sanitizeDatapointIdentifier (id : string) : list ascii :=
  let sanitized :=
    strip_trailing (strip_leading
      (replace_runs is_underscore false
        (replace_runs (fun c => negb (is_word c)) false (trim (chars_of id))))) in
  let sanitized := if (length sanitized =? 0)%nat then chars_of "state" else sanitized in
  let sanitized :=
    match sanitized with
    | c :: _ => if is_digit c then chars_of "s_" ++ sanitized else sanitized
    | [] => sanitized
    end in
  let maxIdentifierLength := 48 in
  if (maxIdentifierLength <? length sanitized)%nat
  then slice0 maxIdentifierLength sanitized
  else sanitized.

(** [isTableNameInUse]: some other identifier of the cache has the name. *)
Definition isTableNameInUse (tableCache : gmap string tableInfo)
    (name : string) (id : string) : bool :=
  existsb (fun entry : string * tableInfo =>
             String.eqb (ti_table entry.2) name && negb (String.eqb entry.1 id))
          (map_to_list tableCache).

(** The decimal digits of a counter, as template strings print it. *)
Fixpoint decimal_fuel (fuel n : nat) : list ascii :=
  match fuel with
  | 0 => []
  | S f =>
      if (n <? 10)%nat then [ascii_of_nat (48 + n)]
      else decimal_fuel f (n / 10) ++ [ascii_of_nat (48 + n mod 10)]
  end.
Definition decimal (n : nat) : list ascii := decimal_fuel (S n) n.

Section Generate.
Variable tablePrefix : string.
Variable tableCache : gmap string tableInfo.
Variable id : string.

Definition maxIdentifierLength : nat := 62.

Definition baseName : list ascii :=
  chars_of tablePrefix ++ "_"%char :: sanitizeDatapointIdentifier id.

Definition normalizeLength (value : list ascii) : list ascii :=
  if (length value <=? maxIdentifierLength)%nat then value
  else slice0 maxIdentifierLength value.

(** The body of the [while] loop: the candidate built from a counter. *)
Definition suffixed (counter : nat) : list ascii :=
  let suffix := "_"%char :: decimal counter in
  let maxBaseLength := Nat.max 1 (maxIdentifierLength - length suffix) in
  let truncated :=
    if (maxBaseLength <? length baseName)%nat
    then strip_trailing (slice0 maxBaseLength baseName)
    else baseName in
  let truncated :=
    if (length truncated =? 0)%nat
    then slice0 (Nat.max 1 maxBaseLength) (chars_of tablePrefix)
    else truncated in
  truncated ++ suffix.

(** The [while] loop, with the number of iterations it may still make. *)
Fixpoint generate_loop (fuel : nat) (candidate : list ascii) (counter : nat)
  : option string :=
  if isTableNameInUse tableCache (string_of candidate) id then
    match fuel with
    | 0 => None
    | S f => generate_loop f (suffixed counter) (S counter)
    end
  else Some (string_of candidate).

(** [generateTableName]: the loop runs at most once per cached table and
    once more (see [generateTableName_returns]). *)
Definition generateTableName : option string :=
  generate_loop (S (size tableCache)) (normalizeLength baseName) 1.

End Generate.
End TableNames.
Import TableNames.

(** ** Skip Policy Engine

    The tracked point ([addTrackedDatapoint], [createEphemeralEntry]),
    [valuesEqual] and [shouldSkipValue]. *)

Module Policy.

(** The normalized per-point settings ([normalizeStateConfig],
    [this._defaults]). *)
Record config : Type := Config {
  cfg_storageType : string;
  blockTime : float;
  changesOnly : bool;
  ignoreZero : bool;
  ignoreBelowNumber : option float;
  ignoreAboveNumber : option float;
  cfg_round : option float;
  changesRelogInterval : float;
  changesMinDelta : float;
  enableDebugLogs : bool;
  disableSkippedValueLogging : bool
}.

(** [this._defaults] *)
Definition defaults : config := {|
  cfg_storageType := "auto";
  blockTime := 0%float;
  changesOnly := true;
  ignoreZero := false;
  ignoreBelowNumber := None;
  ignoreAboveNumber := None;
  cfg_round := None;
  changesRelogInterval := 0%float;
  changesMinDelta := 0%float;
  enableDebugLogs := false;
  disableSkippedValueLogging := false
|}.

Definition settings_of (c : config) : settings :=
  Settings (cfg_storageType c) (cfg_round c).

(** [{ ...settings, storageType: type }] *)
Definition with_storageType (c : config) (type : string) : settings :=
  Settings type (cfg_round c).

(** The normalized sample, [clonedState] of [pushHistory]. *)
Record sample : Type := Sample {
  s_val : jsval;
  s_ts : float;
  s_lc : float;
  s_ack : jsval;
  s_q : jsval;
  s_from : jsval
}.

(** [entry.lastStoredState] *)
Record storedState : Type := StoredState {
  ls_val : jsval;
  ls_ts : float;
  ls_lc : float;
  ls_type : vtype;
  ls_ack : jsval;
  ls_q : jsval;
  ls_source : jsval
}.

(** The tracked point.  [relogTimeout] holds the delay, in milliseconds,
    of the armed one-shot timer. *)
Record entry : Type := Entry {
  e_id : string;
  e_config : config;
  configHash : option string;
  relogTimeout : option float;
  lastState : option sample;
  lastStoredState : option storedState;
  lastStoredComparable : jsval;
  lastLogTime : float;
  lastSkippedState : option sample;
  ephemeral : bool
}.

Definition set_lastSkippedState (e : entry) (s : option sample) : entry :=
  {| e_id := e_id e; e_config := e_config e; configHash := configHash e;
     relogTimeout := relogTimeout e; lastState := lastState e;
     lastStoredState := lastStoredState e;
     lastStoredComparable := lastStoredComparable e;
     lastLogTime := lastLogTime e; lastSkippedState := s;
     ephemeral := ephemeral e |}.

Definition set_lastState (e : entry) (s : option sample) : entry :=
  {| e_id := e_id e; e_config := e_config e; configHash := configHash e;
     relogTimeout := relogTimeout e; lastState := s;
     lastStoredState := lastStoredState e;
     lastStoredComparable := lastStoredComparable e;
     lastLogTime := lastLogTime e; lastSkippedState := lastSkippedState e;
     ephemeral := ephemeral e |}.

(** The entry of [addTrackedDatapoint], before the initial state is read. *)
Definition trackedEntry (id : string) (normalized : config) (hash : string)
  : entry :=
  {| e_id := id; e_config := normalized; configHash := Some hash;
     relogTimeout := None; lastState := None; lastStoredState := None;
     lastStoredComparable := JUndefined; lastLogTime := 0%float;
     lastSkippedState := None; ephemeral := false |}.

(** The entry of [createEphemeralEntry]. *)
Definition ephemeralEntry (id : string) : entry :=
  {| e_id := id; e_config := defaults; configHash := None;
     relogTimeout := None; lastState := None; lastStoredState := None;
     lastStoredComparable := JUndefined; lastLogTime := 0%float;
     lastSkippedState := None; ephemeral := true |}.

Section WithBuiltins.
Context `{Builtins}.

Definition valuesEqual (c : converted) (e : entry) : bool :=
  match lastStoredState e with
  | None => false
  | Some stored =>
      if negb (vtype_eqb (cv_type c) (ls_type stored)) then false
      else comparableEqual (cv_type c) (lastStoredComparable e) (cv_comparable c)
  end.

(** The filters of [shouldSkipValue], in the order of the source. *)

(** [!timerRelog && settings.blockTime > 0 && lastStored] and
    [state.ts <= lastStored.ts + settings.blockTime] *)
Definition blockTimeActive (e : entry) (state : sample) (timerRelog : bool) : bool :=
  match lastStoredState e with
  | Some lastStored =>
      negb timerRelog
      && num_gt (blockTime (e_config e)) 0%float
      && num_le (s_ts state) (PrimFloat.add (ls_ts lastStored) (blockTime (e_config e)))
  | None => false
  end.

(** [!timerRelog && settings.ignoreZero] and a numeric zero or a null *)
Definition ignoreZeroHit (e : entry) (c : converted) (timerRelog : bool) : bool :=
  negb timerRelog
  && ignoreZero (e_config e)
  && ((vtype_eqb (cv_type c) TNumber && strict_eq (cv_comparable c) (JNum 0%float))
      || vtype_eqb (cv_type c) TNull).

(** [settings.ignoreBelowNumber !== null && converted.type === NUMBER &&
    converted.comparable < settings.ignoreBelowNumber] *)
Definition belowThreshold (e : entry) (c : converted) : bool :=
  match ignoreBelowNumber (e_config e) with
  | Some bound =>
      vtype_eqb (cv_type c) TNumber && num_lt (toNumber (cv_comparable c)) bound
  | None => false
  end.

Definition aboveThreshold (e : entry) (c : converted) : bool :=
  match ignoreAboveNumber (e_config e) with
  | Some bound =>
      vtype_eqb (cv_type c) TNumber && num_gt (toNumber (cv_comparable c)) bound
  | None => false
  end.

(** The final value of the local [valueChanged]. *)
Definition valueChanged (e : entry) (c : converted) : bool :=
  let changed := negb (valuesEqual c e) in
  if changed && vtype_eqb (cv_type c) TNumber
     && negb (strict_eq (lastStoredComparable e) JUndefined)
  then
    if num_gt (changesMinDelta (e_config e)) 0%float
       && num_lt (PrimFloat.abs (js_sub (cv_comparable c) (lastStoredComparable e)))
                 (changesMinDelta (e_config e))
    then false
    else changed
  else changed.

(** [relogMs > 0 && (!entry.lastLogTime || state.ts - entry.lastLogTime >= relogMs)] *)
Definition relogDue (e : entry) (state : sample) : bool :=
  let relogMs :=
    if num_gt (changesRelogInterval (e_config e)) 0%float
    then PrimFloat.mul (changesRelogInterval (e_config e)) 1000%float
    else 0%float in
  num_gt relogMs 0%float
  && (negb (truthy (JNum (lastLogTime e)))
      || num_ge (PrimFloat.sub (s_ts state) (lastLogTime e)) relogMs).

(** [shouldSkipValue]: the decision and the entry, whose
    [lastSkippedState] the change-only filter may set. *)
Definition shouldSkipValue (e : entry) (c : converted) (state : sample)
    (timerRelog : bool) : bool * entry :=
  if blockTimeActive e state timerRelog then (true, e)
  else if ignoreZeroHit e c timerRelog then (true, e)
  else if belowThreshold e c then (true, e)
  else if aboveThreshold e c then (true, e)
  else
    let changed := valueChanged e c in
    if negb timerRelog && changesOnly (e_config e) && bool_decide (is_Some (lastStoredState e))
    then
      if negb changed then
        if relogDue e state then (false, e)
        else if negb (disableSkippedValueLogging (e_config e))
             then (true, set_lastSkippedState e (Some state))
             else (true, e)
      else (false, e)
    else (false, e).

End WithBuiltins.
End Policy.
Import Policy.

(** ** Write Buffer & Flush Coordinator

    [buildRow], [queueRow], [flushBuffer] and [setConnected]. *)

Module Buffer.

(** [row.values], the object written to the store. *)
Record rowValues : Type := RowValues {
  rv_ts : string;
  rv_value : jsval
}.

(** The row of [buildRow]. *)
Record row : Type := Row {
  r_id : string;
  r_table : string;
  r_type : vtype;
  r_values : rowValues
}.

(** The adapter's fields that the pipeline reads and writes.  [client]
    tells whether [this._client] is set; [flushPromise] names the flush
    operation that [this._flushPromise] holds. *)
Record adapter : Type := Adapter {
  client : bool;
  buffer : list row;
  flushPromise : option nat;
  connected : bool;
  tracked : gmap string entry;
  tablePrefix : string;
  tableCache : gmap string tableInfo;
  batchSize : nat
}.

Definition set_buffer (a : adapter) (b : list row) : adapter :=
  {| client := client a; buffer := b; flushPromise := flushPromise a;
     connected := connected a; tracked := tracked a;
     tablePrefix := tablePrefix a; tableCache := tableCache a;
     batchSize := batchSize a |}.

Definition set_flushPromise (a : adapter) (p : option nat) : adapter :=
  {| client := client a; buffer := buffer a; flushPromise := p;
     connected := connected a; tracked := tracked a;
     tablePrefix := tablePrefix a; tableCache := tableCache a;
     batchSize := batchSize a |}.

(** [setConnected]; the state [info.connection] it mirrors belongs to the
    host. *)
Definition setConnected (a : adapter) (isConnected : bool) : adapter :=
  {| client := client a; buffer := buffer a; flushPromise := flushPromise a;
     connected := isConnected; tracked := tracked a;
     tablePrefix := tablePrefix a; tableCache := tableCache a;
     batchSize := batchSize a |}.

Definition set_tracked (a : adapter) (t : gmap string entry) : adapter :=
  {| client := client a; buffer := buffer a; flushPromise := flushPromise a;
     connected := connected a; tracked := t;
     tablePrefix := tablePrefix a; tableCache := tableCache a;
     batchSize := batchSize a |}.

Definition set_tableCache (a : adapter) (t : gmap string tableInfo) : adapter :=
  {| client := client a; buffer := buffer a; flushPromise := flushPromise a;
     connected := connected a; tracked := tracked a;
     tablePrefix := tablePrefix a; tableCache := t;
     batchSize := batchSize a |}.

(** [s.replace(c, by)]: the first occurrence only. *)
Fixpoint replace_first (c : ascii) (by_ : list ascii) (l : list ascii)
  : list ascii :=
  match l with
  | [] => []
  | x :: r => if Ascii.eqb x c then by_ ++ r else x :: replace_first c by_ r
  end.

Section WithBuiltins.
Context `{Builtins}.

(** [formatDateTime]; it throws where [toISOString] does. *)
Definition formatDateTime (ts : float) : result string :=
  if Date_valid ts then
    let iso := chars_of (Date_toISOString ts) in
    Ok (string_of (replace_first "Z"%char [] (replace_first "T"%char [" "%char] iso)))
  else Throw "Invalid time value".

Definition buildRow (id : string) (info : tableInfo) (c : converted)
    (state : sample) : result row :=
  match formatDateTime (s_ts state) with
  | Ok ts =>
      Ok (Row id (ti_table info) (ti_type info)
              (RowValues ts (encodeValue (ti_type info) (cv_value c))))
  | Throw m => Throw m
  end.

End WithBuiltins.

(** [queueRow], up to its call of [flushBuffer]: the row is pushed, and
    the flag tells whether the batch size is reached. *)
Definition queueRow (a : adapter) (r : row) : adapter * bool :=
  let a' := set_buffer a (buffer a ++ [r]) in
  (a', (batchSize a <=? length (buffer a'))%nat).

(** *** The flush operation

    The operation that [flushBuffer] starts: the rows it removed from the
    queue, the tables still to be written with their values (the head is
    the one whose [insert] is awaited), and the count written so far. *)
Record flight : Type := Flight {
  fl_rows : list row;
  fl_pending : list (string * list rowValues);
  fl_written : nat
}.

(** The [grouped] map: the values of the rows by table, tables in the
    order of their first row. *)
Fixpoint group_add (table : string) (v : rowValues)
    (g : list (string * list rowValues)) : list (string * list rowValues) :=
  match g with
  | [] => [(table, [v])]
  | (t, vs) :: rest =>
      if String.eqb t table then (t, vs ++ [v]) :: rest
      else (t, vs) :: group_add table v rest
  end.

Definition group_rows (rows : list row) : list (string * list rowValues) :=
  fold_left (fun g r => group_add (r_table r) (r_values r) g) rows [].

(** What a call of [flushBuffer] gives its caller. *)
Inductive flushResult : Type :=
| Returned (written : nat)
| Joined (operation : nat)
| Awaiting (operation : nat).

(** How a flush operation settles. *)
Inductive outcome : Type :=
| Resolved (written : nat)
| Rejected (error : string).

(** [flushBuffer] from the test of the queue that follows the [await]
    (line 1038) to its end: the queue is emptied into a new operation
    named [fresh], which runs up to its first [insert]. *)
Definition flushBuffer_start (a : adapter) (fresh : nat)
  : flushResult * adapter * option flight :=
  match buffer a with
  | [] => (Returned 0, a, None)
  | _ :: _ =>
      let rows := buffer a in
      (Joined fresh,
       set_flushPromise (set_buffer a []) (Some fresh),
       Some (Flight rows (group_rows rows) 0))
  end.

(** [flushBuffer] from its entry to its first [await] or [return]. *)
Definition flushBuffer (a : adapter) (force : bool) (fresh : nat)
  : flushResult * adapter * option flight :=
  if negb (client a) then (Returned 0, a, None)
  else if (length (buffer a) =? 0)%nat && negb force then (Returned 0, a, None)
  else
    match flushPromise a with
    | Some p =>
        if negb force then (Joined p, a, None)
        else (Awaiting p, a, None)
    | None => flushBuffer_start a fresh
    end.

(** The store answers the awaited [insert] of an operation: [None] when
    it resolved, the error when it rejected.  The operation goes on to
    the next table, or settles. *)
Definition insert_answer (a : adapter) (f : flight) (answer : option string)
  : adapter * (flight + outcome) :=
  match answer with
  | None =>
      match fl_pending f with
      | (_, values) :: ((_ :: _) as rest) =>
          (a, inl (Flight (fl_rows f) rest (fl_written f + length values)))
      | [(_, values)] =>
          (set_flushPromise (setConnected a true) None,
           inr (Resolved (fl_written f + length values)))
      | [] =>
          (set_flushPromise (setConnected a true) None,
           inr (Resolved (fl_written f)))
      end
  | Some error =>
      (set_flushPromise
         (set_buffer (setConnected a false) (fl_rows f ++ buffer a)) None,
       inr (Rejected error))
  end.

End Buffer.
Import Buffer.

(** ** The flush coordinator on the event loop

    [flushBuffer] is asynchronous: a forced caller is suspended at
    [await this._flushPromise.catch(...)], and a flush operation is
    suspended at each [await this._client.insert(...)].  The world below
    keeps the adapter together with the operations that are running and
    the callers that are suspended.  JavaScript runs the continuations of
    a settled promise before it handles the next event: an answer of the
    store or a new sample (from a host notification, a timer or a store
    answer of its own) is handled only when no continuation is left.  A
    call of [flushBuffer] may come at any moment, also from one of these
    continuations.  The client is set once, before the loop runs, and
    stays: the adapter connects when it starts and disconnects on unload,
    after its last flush. *)

Module EventLoop.

Record world : Type := World {
  w_adapter : adapter;
  (** the operations started and not yet settled, by name *)
  w_running : list (nat * flight);
  (** the forced callers suspended on a running operation, oldest first *)
  w_waiting : list nat;
  (** the forced callers whose operation has settled, still to resume *)
  w_microtasks : nat;
  (** the settled operations, oldest first *)
  w_settled : list (nat * outcome);
  (** the results given to the callers, oldest first *)
  w_results : list flushResult;
  w_next : nat
}.

Inductive event : Type :=
| Queue (r : row)
| Call (force : bool)
| Answer (operation : nat) (answer : option string)
| Resume.

Definition started_as (name : nat) (f : option flight) : list (nat * flight) :=
  match f with
  | Some f => [(name, f)]
  | None => []
  end.

Definition waits_on (r : flushResult) : list nat :=
  match r with
  | Awaiting p => [p]
  | _ => []
  end.

Fixpoint find_running (p : nat) (l : list (nat * flight)) : option flight :=
  match l with
  | [] => None
  | (q, f) :: rest => if (q =? p)%nat then Some f else find_running p rest
  end.

Definition update_running (p : nat) (f : flight) (l : list (nat * flight))
  : list (nat * flight) :=
  map (fun e : nat * flight => if (e.1 =? p)%nat then (p, f) else e) l.

Definition remove_running (p : nat) (l : list (nat * flight))
  : list (nat * flight) :=
  filter (fun e : nat * flight => e.1 ≠ p) l.

(** A call of [flushBuffer] up to its first suspension. *)
Definition call (w : world) (force : bool) : world :=
  let '(res, a, started) := flushBuffer (w_adapter w) force (w_next w) in
  {| w_adapter := a;
     w_running := w_running w ++ started_as (w_next w) started;
     w_waiting := w_waiting w ++ waits_on res;
     w_microtasks := w_microtasks w;
     w_settled := w_settled w;
     w_results := w_results w ++ [res];
     w_next := S (w_next w) |}.

(** The continuation of a forced caller after its [await]. *)
Definition resume (w : world) : option world :=
  match w_microtasks w with
  | 0 => None
  | S n =>
      let '(res, a, started) := flushBuffer_start (w_adapter w) (w_next w) in
      Some {| w_adapter := a;
              w_running := w_running w ++ started_as (w_next w) started;
              w_waiting := w_waiting w;
              w_microtasks := n;
              w_settled := w_settled w;
              w_results := w_results w ++ [res];
              w_next := S (w_next w) |}
  end.

(** [queueRow]: the push, and the call of [flushBuffer()] when the batch
    size is reached. *)
Definition queue (w : world) (r : row) : world :=
  let '(a, full) := queueRow (w_adapter w) r in
  let w' := {| w_adapter := a; w_running := w_running w;
               w_waiting := w_waiting w; w_microtasks := w_microtasks w;
               w_settled := w_settled w; w_results := w_results w;
               w_next := w_next w |} in
  if full then call w' false else w'.

(** The store answers the [insert] that operation [p] awaits. *)
Definition answer (w : world) (p : nat) (ans : option string) : option world :=
  match find_running p (w_running w) with
  | None => None
  | Some f =>
      match insert_answer (w_adapter w) f ans with
      | (a, inl f') =>
          Some {| w_adapter := a;
                  w_running := update_running p f' (w_running w);
                  w_waiting := w_waiting w; w_microtasks := w_microtasks w;
                  w_settled := w_settled w; w_results := w_results w;
                  w_next := w_next w |}
      | (a, inr out) =>
          Some {| w_adapter := a;
                  w_running := remove_running p (w_running w);
                  w_waiting := filter (fun q => q ≠ p) (w_waiting w);
                  w_microtasks :=
                    w_microtasks w + length (filter (fun q => q = p) (w_waiting w));
                  w_settled := w_settled w ++ [(p, out)];
                  w_results := w_results w;
                  w_next := w_next w |}
      end
  end.

Definition step (w : world) (ev : event) : option world :=
  match ev with
  | Queue r => if (w_microtasks w =? 0)%nat then Some (queue w r) else None
  | Call force => Some (call w force)
  | Answer p ans => if (w_microtasks w =? 0)%nat then answer w p ans else None
  | Resume => resume w
  end.

Fixpoint run (w : world) (evs : list event) : option world :=
  match evs with
  | [] => Some w
  | ev :: rest =>
      match step w ev with
      | Some w' => run w' rest
      | None => None
      end
  end.

(** The world of a fresh adapter: nothing in flight. *)
Definition initial (a : adapter) : world :=
  {| w_adapter := set_flushPromise a None; w_running := []; w_waiting := [];
     w_microtasks := 0; w_settled := []; w_results := []; w_next := 0 |}.

Definition reachable (w : world) : Prop :=
  exists a evs, run (initial a) evs = Some w.

(** The coordination of the flush path: the marker [this._flushPromise]
    names the one operation that is running, if any; and while callers
    are still to resume behind a running operation, the queue is empty. *)
Definition coordinated (w : world) : Prop :=
  match flushPromise (w_adapter w) with
  | Some p => exists f, w_running w = [(p, f)]
  | None => w_running w = []
  end
  /\ (0 < w_microtasks w -> w_running w <> [] -> buffer (w_adapter w) = []).

End EventLoop.
Import EventLoop.

(** *** The rows of a run

    Where the rows of a run of the event loop are: in the queue, with a
    running operation, or with an operation that resolved; and which
    inserts the store acknowledged. *)

Module Accounting.

(** The rows that the running operations took from the queue. *)
Definition rowsInFlight (w : world) : list row :=
  concat (map (fun op : nat * flight => fl_rows op.2) (w_running w)).

(** The values that an operation has still to write. *)
Definition pendingValues (f : flight) : list rowValues :=
  concat (map snd (fl_pending f)).

(** The count that a settled operation gave its callers. *)
Definition reported (o : outcome) : nat :=
  match o with
  | Resolved written => written
  | Rejected _ => 0
  end.

Definition rowsReported (w : world) : nat :=
  sum_list (map (fun op : nat * outcome => reported op.2) (w_settled w)).

(** The rows that the events of a run queue. *)
Definition rowsQueued (evs : list event) : list row :=
  flat_map (fun ev => match ev with Queue r => [r] | _ => [] end) evs.

(** The insert that an event acknowledges: when the store answers an
    operation without an error, the [insert] that the operation awaited
    (line 1058) has been taken, the table at the head of its pending
    tables with its values. *)
Definition acknowledged (w : world) (ev : event)
  : list (string * list rowValues) :=
  match ev with
  | Answer p None =>
      match find_running p (w_running w) with
      | Some f =>
          match fl_pending f with
          | g :: _ => [g]
          | [] => []
          end
      | None => []
      end
  | _ => []
  end.

(** The inserts that the store has acknowledged in a run, in order. *)
Fixpoint inserted (w : world) (evs : list event)
  : list (string * list rowValues) :=
  match evs with
  | [] => []
  | ev :: rest =>
      match step w ev with
      | Some w' => acknowledged w ev ++ inserted w' rest
      | None => []
      end
  end.

(** The rows of the operation that an event resolves. *)
Definition resolvedBy (w : world) (ev : event) : list row :=
  match ev with
  | Answer p ans =>
      match find_running p (w_running w) with
      | Some f =>
          match insert_answer (w_adapter w) f ans with
          | (_, inr (Resolved _)) => fl_rows f
          | _ => []
          end
      | None => []
      end
  | _ => []
  end.

(** The rows of the operations that resolved in a run. *)
Fixpoint rowsResolved (w : world) (evs : list event) : list row :=
  match evs with
  | [] => []
  | ev :: rest =>
      match step w ev with
      | Some w' => resolvedBy w ev ++ rowsResolved w' rest
      | None => []
      end
  end.

(** The values of a row are among those of an acknowledged insert into
    its table. *)
Definition covered (log : list (string * list rowValues)) (r : row) : Prop :=
  exists vs, (r_table r, vs) ∈ log /\ r_values r ∈ vs.

(** How far an operation is: its count and its pending values make up
    its rows, and the tables of its rows that are no longer pending have
    been acknowledged. *)
Definition progress (log : list (string * list rowValues)) (f : flight) : Prop :=
  fl_written f + length (pendingValues f) = length (fl_rows f)
  /\ exists done,
       group_rows (fl_rows f) = done ++ fl_pending f
       /\ forall g, g ∈ done -> g ∈ log.

(** The rows [all] are accounted for in the world, with the inserts
    [log] acknowledged and the rows [res] of resolved operations. *)
Definition accounted (all : list row) (log : list (string * list rowValues))
    (res : list row) (w : world) : Prop :=
  Forall (fun op : nat * flight => progress log op.2) (w_running w)
  /\ all ≡ₚ buffer (w_adapter w) ++ rowsInFlight w ++ res
  /\ length res = rowsReported w
  /\ forall r, r ∈ res -> covered log r.

End Accounting.
Import Accounting.

(** ** The write path: [pushHistory]

    [ensureEntryForId], [ensureTableFor] and [pushHistory].  The answers
    of the host and of the store to one call are the fields of [host].
    [pushHistory] is followed for one call that no other call overlaps
    while it is suspended; [onStateChange] does not await it, so calls
    may overlap, and what an overlap does to the table cache is followed
    with the two parts of [ensureTableFor]. *)

Module Pipeline.

(** The state object as the host delivers it; an absent field is
    [JUndefined]. *)
Record rawState : Type := RawState {
  raw_val : jsval;
  raw_ts : jsval;
  raw_lc : jsval;
  raw_ack : jsval;
  raw_q : jsval;
  raw_from : jsval
}.

Record host : Type := Host {
  (** [Date.now()] *)
  now : float;
  (** the settings of an identifier whose object enables the adapter, as
      [normalizeStateConfig] gives them, with their fingerprint *)
  customSettings : string -> option (config * string);
  (** [getForeignStateAsync(id)] *)
  foreignState : string -> option sample;
  (** whether the store runs the [CREATE TABLE] command and the registry
      [insert] of [ensureTableFor] *)
  storeAccepts : bool
}.

(** What became of a sample in [pushHistory]. *)
Inductive pushOutcome : Type :=
| NotTracked
| ValueUndefined
| ConversionFailed (message : string)
| StorageFailed (message : string)
| TypeMismatch
| Skipped
| RowFailed (message : string)
| Queued (r : row) (c : converted) (state : sample) (flushNow : bool).

Definition numberOr (v : jsval) (default : float) : float :=
  match v with
  | JNum x => if negb (isNaN x) then x else default
  | _ => default
  end.

(** [clonedState] *)
Definition cloneState (h : host) (state : rawState) : sample :=
  {| s_val := raw_val state;
     s_ts := numberOr (raw_ts state) (now h);
     s_lc := numberOr (raw_lc state) (now h);
     s_ack := if is_nullish (raw_ack state) then JBool false else raw_ack state;
     s_q := if is_nullish (raw_q state) then JNum 0%float else raw_q state;
     s_from := if truthy (raw_from state) then raw_from state else JStr "" |}.

(** [ensureEntryForId]: the entry of the identifier, created when absent
    ([addTrackedDatapoint] or [createEphemeralEntry]). *)
Definition ensureEntryForId (h : host) (a : adapter) (id : string)
  : entry * adapter :=
  match tracked a !! id with
  | Some e => (e, a)
  | None =>
      let e :=
        match customSettings h id with
        | Some (normalized, hash) =>
            match foreignState h id with
            | Some current =>
                set_lastState (trackedEntry id normalized hash) (Some current)
            | None => trackedEntry id normalized hash
            end
        | None => ephemeralEntry id
        end in
      (e, set_tracked a (<[id := e]> (tracked a)))
  end.

(** The entry after a successful write (lines 976 to 1015): the stored
    sample, and the relog timer cleared and armed again. *)
Definition storeCommit (e : entry) (c : converted) (state : sample) : entry :=
  {| e_id := e_id e; e_config := e_config e; configHash := configHash e;
     relogTimeout :=
       if num_gt (changesRelogInterval (e_config e)) 0%float
       then Some (PrimFloat.mul (changesRelogInterval (e_config e)) 1000%float)
       else None;
     lastState := lastState e;
     lastStoredState :=
       Some {| ls_val := cv_value c; ls_ts := s_ts state; ls_lc := s_lc state;
               ls_type := cv_type c; ls_ack := s_ack state; ls_q := s_q state;
               ls_source := s_from state |};
     lastStoredComparable := cv_comparable c;
     lastLogTime := s_ts state;
     lastSkippedState := None;
     ephemeral := ephemeral e |}.

(** The sample that the relog timer feeds back, [relogState]. *)
Definition relogState (h : host) (e : entry) : option rawState :=
  match lastStoredState e with
  | None => None
  | Some stored =>
      Some {| raw_val := ls_val stored;
              raw_ts := JNum (now h);
              raw_lc := if truthy (JNum (ls_lc stored)) then JNum (ls_lc stored)
                        else JNum (now h);
              raw_ack := ls_ack stored;
              raw_q := ls_q stored;
              raw_from := ls_source stored |}
  end.

Section WithBuiltins.
Context `{Builtins}.

(** [ensureTableFor] is suspended twice, at the [CREATE TABLE] command
    and at the [insert] into the registry, between its reading of the
    cache and its writing of it; other calls may run in between.  The
    function is given in the two parts that the suspension separates. *)

(** What [ensureTableFor] has when it reaches its first [await]: the
    table of the cache, with which it returns at once, or the table that
    it is about to create. *)
Inductive tableRequest : Type :=
| Cached (info : tableInfo)
| Creating (info : tableInfo).

(** [ensureTableFor] up to its first [await] (lines 410 to 416): the
    cache is read and, when it has no table for the identifier, a name
    is generated from the cache as it is now and the command is sent. *)
Definition ensureTableFor_begin (a : adapter) (id : string) (valueType : vtype)
  : result tableRequest :=
  match tableCache a !! id with
  | Some info => Ok (Cached info)
  | None =>
      match generateTableName (tablePrefix a) (tableCache a) id with
      | None => Throw "no table name"
      | Some tableName =>
          if negb (client a) then Throw "Cannot read properties of null"
          else Ok (Creating (TableInfo tableName valueType))
      end
  end.

(** [ensureTableFor] after its first [await] (lines 416 to 438), on the
    adapter as it is by then: when the store has run the command and
    taken the registry row, the table is written to the cache, over
    whatever the cache holds for the identifier. *)
Definition ensureTableFor_finish (h : host) (a : adapter) (id : string)
    (info : tableInfo) : result (tableInfo * adapter) :=
  if negb (storeAccepts h) then Throw "store error"
  else
    match formatDateTime (now h) with
    | Throw m => Throw m
    | Ok _ => Ok (info, set_tableCache a (<[id := info]> (tableCache a)))
    end.

(** [ensureTableFor] when no other call runs while it is suspended: the
    cached table, or a new one registered under a generated name. *)
Definition ensureTableFor (h : host) (a : adapter) (id : string)
    (valueType : vtype) : result (tableInfo * adapter) :=
  match ensureTableFor_begin a id valueType with
  | Throw m => Throw m
  | Ok (Cached info) => Ok (info, a)
  | Ok (Creating info) => ensureTableFor_finish h a id info
  end.

(** What [pushHistory] hands to the policy engine: the entry, the
    converted value, the table and the normalized sample. *)
Record prepared : Type := Prepared {
  p_entry : entry;
  p_converted : converted;
  p_table : tableInfo;
  p_state : sample;
  p_adapter : adapter
}.

(** [pushHistory] from its entry to the call of [shouldSkipValue] (lines
    918 to 967): the entry is found or created, the sample normalized and
    converted, and the table resolved.  The left result is an early
    return. *)
Definition pushHistory_prepare (h : host) (a : adapter) (id : string)
    (state : rawState) (allowCreate : bool)
  : (pushOutcome * adapter) + prepared :=
  let found :=
    match tracked a !! id with
    | Some e => Some (e, a)
    | None => if allowCreate then Some (ensureEntryForId h a id) else None
    end in
  match found with
  | None => inl (NotTracked, a)
  | Some (e, a) =>
      let settings := e_config e in
      let clonedState := cloneState h state in
      if strict_eq (s_val clonedState) JUndefined then inl (ValueUndefined, a)
      else
        let e := set_lastState e (Some clonedState) in
        let a := set_tracked a (<[id := e]> (tracked a)) in
        match prepareValue (s_val clonedState) (settings_of settings) with
        | Throw m => inl (ConversionFailed m, a)
        | Ok converted =>
            match ensureTableFor h a id (cv_type converted) with
            | Throw m => inl (StorageFailed m, a)
            | Ok (info, a) =>
                let again :=
                  if negb (vtype_eqb (ti_type info) (cv_type converted))
                  then prepareValue (s_val clonedState)
                         (with_storageType settings (type_name (ti_type info)))
                  else Ok converted in
                match again with
                | Throw m => inl (StorageFailed m, a)
                | Ok converted =>
                    if negb (vtype_eqb (cv_type converted) (ti_type info))
                    then inl (TypeMismatch, a)
                    else inr (Prepared e converted info clonedState a)
                end
            end
        end
  end.

(** [pushHistory] from the call of [shouldSkipValue] to the push of
    [queueRow] (lines 969 to 974). *)
Definition pushHistory_decide (id : string) (timerRelog : bool) (p : prepared)
  : pushOutcome * adapter :=
  let '(skip, e) := shouldSkipValue (p_entry p) (p_converted p) (p_state p) timerRelog in
  let a := set_tracked (p_adapter p) (<[id := e]> (tracked (p_adapter p))) in
  if skip then (Skipped, a)
  else
    match buildRow id (p_table p) (p_converted p) (p_state p) with
    | Throw m => (RowFailed m, a)
    | Ok r =>
        let '(a, full) := queueRow a r in
        (Queued r (p_converted p) (p_state p) full, a)
    end.

(** [pushHistory] up to the push of [queueRow].  [Queued] carries what the
    rest of the function needs; its flag tells that [queueRow] calls
    [flushBuffer()] and awaits it before the rest runs. *)
Definition pushHistory_queue (h : host) (a : adapter) (id : string)
    (state : rawState) (timerRelog allowCreate : bool) : pushOutcome * adapter :=
  match pushHistory_prepare h a id state allowCreate with
  | inl early => early
  | inr p => pushHistory_decide id timerRelog p
  end.

End WithBuiltins.

(** The rest of [pushHistory], once [queueRow] has resolved. *)
Definition pushHistory_store (a : adapter) (id : string) (c : converted)
    (state : sample) : adapter :=
  match tracked a !! id with
  | Some e => set_tracked a (<[id := storeCommit e c state]> (tracked a))
  | None => a
  end.

End Pipeline.
Import Pipeline.

(** ** History Reconstructor

    [makeComparableKey], [reduceOnChange] and [mapRowToHistory]. *)

Module History.

(** A reconstructed sample; [h_lc] and [h_id] may be absent. *)
Record historyEntry : Type := HistoryEntry {
  h_val : jsval;
  h_ts : float;
  h_lc : option float;
  h_ack : bool;
  h_q : float;
  h_from : string;
  h_id : option string
}.

(** Following the specification: the maximal runs of consecutive entries
    with equal keys, in the order of the sequence, each given as its
    first entry and the entries that follow it in the run. *)
Fixpoint maximalRuns {A : Type} (key : A -> string) (l : list A)
  : list (A * list A) :=
  match l with
  | [] => []
  | x :: rest =>
      match maximalRuns key rest with
      | (y, ys) :: runs =>
          if String.eqb (key x) (key y) then (x, y :: ys) :: runs
          else (x, []) :: (y, ys) :: runs
      | [] => [(x, [])]
      end
  end.

(** The entries of a list of runs, in order. *)
Definition flattenRuns {A : Type} (runs : list (A * list A)) : list A :=
  concat (map (fun run : A * list A => run.1 :: run.2) runs).

Section WithBuiltins.
Context `{Builtins}.

Definition makeComparableKey (value : jsval) : string :=
  if is_nullish value then "__null__"
  else
    match value with
    | JNum _ | JBool _ => typeof value +:+ ":" +:+ toString value
    | JStr s => "string:" +:+ s
    | _ =>
        "object:" +:+ match JSON_stringify value with
                      | Some s => s
                      | None => "undefined"
                      end
    end.

(** The body of the [for] loop of [reduceOnChange], on the pair of
    [result] and [lastComparable]. *)
Definition reduce_step (acc : list historyEntry * option string)
    (entry : historyEntry) : list historyEntry * option string :=
  let comparable := makeComparableKey (h_val entry) in
  match acc.2 with
  | None => (acc.1 ++ [entry], Some comparable)
  | Some lastComparable =>
      if negb (String.eqb comparable lastComparable)
      then (acc.1 ++ [entry], Some comparable)
      else acc
  end.

Definition reduceOnChange (entries : list historyEntry) : list historyEntry :=
  if (length entries =? 0)%nat then entries
  else (fold_left reduce_step entries ([], None)).1.

Definition mapRowToHistory (nowMs : float) (row_ts row_value : jsval)
    (id : string) (addId : bool) (storageType : vtype) : historyEntry :=
  let ts := toNumber row_ts in
  {| h_val := decodeValue storageType row_value;
     h_ts := if isNaN ts then nowMs else ts;
     h_lc := if isNaN ts then None else Some ts;
     h_ack := true;
     h_q := 0%float;
     h_from := "";
     h_id := if addId then Some id else None |}.

End WithBuiltins.
End History.
Import History.

(** ** Settings

    [parseNumber], [parseBool], [parseAdapterConfig] and
    [normalizeStateConfig].  The settings arrive as objects of the host;
    a field that is absent is [JUndefined].  [parseInt] and
    [String.prototype.trim] are parameters of the definitions that call
    them. *)

Module Config.

(** [Math.max(a, b)]: NaN when an argument is, and [+0] above [-0]. *)
Definition Math_max (a b : float) : float :=
  if isNaN a || isNaN b then PrimFloat.nan
  else if num_lt a b then b
  else if num_lt b a then a
  else if PrimFloat.is_zero a && PrimFloat.get_sign a then b
  else a.

(** [a ?? b] *)
Definition orElse (a b : jsval) : jsval := if is_nullish a then b else a.

(** [parseBool] *)
Definition parseBool (value : jsval) (defaultValue : bool) : bool :=
  if is_nullish value then defaultValue
  else match value with
       | JBool b => b
       | JStr s => String.eqb s "true" || String.eqb s "1" || String.eqb s "on"
       | _ => truthy value
       end.

(** The per-point settings as the object of the host holds them,
    [obj.common.custom[namespace]]. *)
Record customConfig : Type := CustomConfig {
  c_enabled : jsval;
  c_storageType : jsval;
  c_blockTime : jsval;
  c_changesOnly : jsval;
  c_ignoreZero : jsval;
  c_ignoreBelowNumber : jsval;
  c_ignoreAboveNumber : jsval;
  c_round : jsval;
  c_changesRelogInterval : jsval;
  c_changesMinDelta : jsval;
  c_enableDebugLogs : jsval;
  c_disableSkippedValueLogging : jsval
}.

(** The object [{}]: no setting is given. *)
Definition noSettings : customConfig := {|
  c_enabled := JUndefined;
  c_storageType := JUndefined;
  c_blockTime := JUndefined;
  c_changesOnly := JUndefined;
  c_ignoreZero := JUndefined;
  c_ignoreBelowNumber := JUndefined;
  c_ignoreAboveNumber := JUndefined;
  c_round := JUndefined;
  c_changesRelogInterval := JUndefined;
  c_changesMinDelta := JUndefined;
  c_enableDebugLogs := JUndefined;
  c_disableSkippedValueLogging := JUndefined
|}.

(** [this.config], the fields that [parseAdapterConfig] reads. *)
Record adapterConfig : Type := AdapterConfig {
  ac_host : jsval;
  ac_username : jsval;
  ac_password : jsval;
  ac_database : jsval;
  ac_table : jsval;
  ac_secure : jsval;
  ac_port : jsval;
  ac_flushInterval : jsval;
  ac_batchSize : jsval;
  ac_connectTimeout : jsval
}.

(** [this._runtimeOptions] *)
Record runtimeOptions : Type := RuntimeOptions {
  ro_host : string;
  ro_port : float;
  ro_secure : bool;
  ro_username : string;
  ro_password : string;
  ro_database : string;
  ro_table : string;
  ro_flushInterval : float;
  ro_batchSize : float;
  ro_connectTimeout : float
}.

(** The options that the constructor sets. *)
Definition initialOptions : runtimeOptions := {|
  ro_host := "127.0.0.1";
  ro_port := 8123%float;
  ro_secure := false;
  ro_username := "default";
  ro_password := "";
  ro_database := "iobroker";
  ro_table := "history";
  ro_flushInterval := 5000%float;
  ro_batchSize := 500%float;
  ro_connectTimeout := 10000%float
|}.

Section WithBuiltins.
Context `{Builtins}.

(** [parseNumber] *)
Definition parseNumber (value : jsval) (defaultValue : float) : float :=
  match value with
  | JNum x => if negb (isNaN x) then x else defaultValue
  | JStr s =>
      if negb (String.eqb s "") then
        let parsed := toNumber value in
        if isNaN parsed then defaultValue else parsed
      else defaultValue
  | _ => defaultValue
  end.

(** A threshold of [normalizeStateConfig]: [Number(x)] unless the field
    is empty or absent, and [null] in place of NaN. *)
Definition threshold (x : jsval) (defaultValue : option float) : option float :=
  let given :=
    if negb (strict_eq x (JStr "")) && negb (strict_eq x JUndefined)
    then Some (toNumber x)
    else defaultValue in
  match given with
  | Some n => if isNaN n then None else Some n
  | None => None
  end.

Section WithParseInt.
(** [parseInt(x, 10)] *)
Variable parseInt : jsval -> float.

Definition normalizeStateConfig (custom : customConfig) : config := {|
  cfg_storageType :=
    toLowerCase (toString (if truthy (c_storageType custom)
                           then c_storageType custom
                           else JStr (cfg_storageType defaults)));
  blockTime :=
    Math_max (parseNumber (c_blockTime custom) (blockTime defaults)) 0%float;
  changesOnly := parseBool (c_changesOnly custom) (changesOnly defaults);
  ignoreZero := parseBool (c_ignoreZero custom) (ignoreZero defaults);
  ignoreBelowNumber :=
    threshold (c_ignoreBelowNumber custom) (ignoreBelowNumber defaults);
  ignoreAboveNumber :=
    threshold (c_ignoreAboveNumber custom) (ignoreAboveNumber defaults);
  cfg_round :=
    if negb (strict_eq (c_round custom) (JStr ""))
       && negb (strict_eq (c_round custom) JUndefined)
    then
      let parsed := parseInt (c_round custom) in
      Some (Math_max (if truthy (JNum parsed) then parsed else 0%float) 0%float)
    else None;
  changesRelogInterval :=
    Math_max (parseNumber (c_changesRelogInterval custom)
                (changesRelogInterval defaults)) 0%float;
  changesMinDelta :=
    Math_max (parseNumber (c_changesMinDelta custom) (changesMinDelta defaults))
      0%float;
  enableDebugLogs := parseBool (c_enableDebugLogs custom) (enableDebugLogs defaults);
  disableSkippedValueLogging :=
    parseBool (c_disableSkippedValueLogging custom)
      (disableSkippedValueLogging defaults)
|}.
End WithParseInt.

Section WithTrim.
(** [s.trim()] *)
Variable String_trim : string -> string.

(** [String(v ?? d).trim() || d] *)
Definition trimmedOr (v : jsval) (d : string) : string :=
  let s := String_trim (toString (orElse v (JStr d))) in
  if String.eqb s "" then d else s.

(** [Number(v ?? current)], kept when it is above zero. *)
Definition positiveOr (v : jsval) (current : float) : float :=
  let n := toNumber (orElse v (JNum current)) in
  if num_gt n 0%float then n else current.

(** [parseAdapterConfig]: the configuration as written back, and the
    runtime options. *)
Definition parseAdapterConfig (cfg : adapterConfig) (ro : runtimeOptions)
  : adapterConfig * runtimeOptions :=
  let host := trimmedOr (ac_host cfg) "127.0.0.1" in
  let username := trimmedOr (ac_username cfg) "default" in
  let password :=
    if negb (strict_eq (ac_password cfg) JUndefined)
    then toString (ac_password cfg) else "" in
  let database := trimmedOr (ac_database cfg) "iobroker" in
  let table := trimmedOr (ac_table cfg) "history" in
  let secure := parseBool (ac_secure cfg) false in
  let port := positiveOr (ac_port cfg) (ro_port ro) in
  let flushInterval := positiveOr (ac_flushInterval cfg) (ro_flushInterval ro) in
  let batchSize := positiveOr (ac_batchSize cfg) (ro_batchSize ro) in
  let connectTimeout := positiveOr (ac_connectTimeout cfg) (ro_connectTimeout ro) in
  ({| ac_host := JStr host;
      ac_username := JStr username;
      ac_password := JStr password;
      ac_database := JStr database;
      ac_table := JStr table;
      ac_secure := JBool secure;
      ac_port := JStr (toString (JNum port));
      ac_flushInterval := JStr (toString (JNum flushInterval));
      ac_batchSize := JStr (toString (JNum batchSize));
      ac_connectTimeout := JStr (toString (JNum connectTimeout)) |},
   {| ro_host := host;
      ro_port := port;
      ro_secure := secure;
      ro_username := username;
      ro_password := password;
      ro_database := database;
      ro_table := table;
      ro_flushInterval := flushInterval;
      ro_batchSize := batchSize;
      ro_connectTimeout := connectTimeout |}).
End WithTrim.

End WithBuiltins.
End Config.
Import Config.

(** ** Identifiers and statements

    [quoteIdent], the names that [connectToClickHouse] derives from the
    table prefix, and the statement that [executeDelete] builds. *)

Module Sql.

Definition backquote : ascii := "`"%char.

(** [c.replace(/`/g, "``")] on one character. *)
Definition escape_backquote (c : ascii) : list ascii :=
  if Ascii.eqb c backquote then [backquote; backquote] else [c].

(** [quoteIdent] *)
Definition quoteIdent (identifier : string) : string :=
  string_of (backquote :: flat_map escape_backquote (chars_of identifier)
             ++ [backquote]).

(** [this._registryTable], from the table prefix. *)
Definition registryTable (tablePrefix : string) : string :=
  tablePrefix +:+ "_registry".

(** The names that [connectToClickHouse] sets: [this._tablePrefix],
    [this._registryTable] and [this._registryIdentifier]. *)
Definition connectNames (table : string) : string * string * string :=
  let tablePrefix := sanitizeTablePrefix table in
  (tablePrefix, registryTable tablePrefix, quoteIdent (registryTable tablePrefix)).

(** The statement of [executeDelete], with its parameters:
    [DELETE WHERE ts BETWEEN {start} AND {end}], [DELETE WHERE ts =
    {start}] and [DELETE WHERE 1]. *)
Inductive deleteStatement : Type :=
| DeleteBetween (start finish : float)
| DeleteAt (start : float)
| DeleteAll.

Section Delete.
(** [Math.trunc] and [new Date(value).getTime()] *)
Variable Math_trunc : float -> float.
Variable Date_getTime : jsval -> float.

(** [normalizeTs] of [executeDelete]; [None] is [undefined]. *)
Definition normalizeTs (value : jsval) : option float :=
  if is_nullish value then None
  else
    let viaDate :=
      let parsed := Date_getTime value in
      if isNaN parsed then None else Some (Math_trunc parsed) in
    match value with
    | JNum x => if negb (isNaN x) then Some (Math_trunc x) else viaDate
    | _ => viaDate
    end.

(** The statement that [executeDelete] sends for a resolved table (lines
    1267 to 1278). *)
Definition deleteFor (start finish : jsval) : deleteStatement :=
  match normalizeTs start, normalizeTs finish with
  | Some s, Some f => DeleteBetween s f
  | Some s, None => DeleteAt s
  | None, _ => DeleteAll
  end.

(** [handleDelete]: the statements for the timestamps of a message, one
    per timestamp.  A message without [ts] is refused. *)
Definition handleDelete (id : jsval) (ts : jsval) : result (list deleteStatement) :=
  if negb (truthy id) || strict_eq ts JUndefined
  then Throw "delete called without id or ts"
  else match ts with
       | JArr items => Ok (map (fun single => deleteFor single single) items)
       | _ => Ok [deleteFor ts ts]
       end.

(** [handleDeleteRange] *)
Definition handleDeleteRange (id : jsval) (start finish : jsval)
  : result deleteStatement :=
  if negb (truthy id) || strict_eq start JUndefined || strict_eq finish JUndefined
  then Throw "deleteRange requires id, start and end"
  else Ok (deleteFor start finish).

(** [handleDeleteAll] *)
Definition handleDeleteAll (id : jsval) : result deleteStatement :=
  if negb (truthy id) then Throw "deleteAll requires id"
  else Ok (deleteFor JUndefined JUndefined).
End Delete.

End Sql.
Import Sql.

(** ** The read path: [handleGetHistory]

    The options of a request, the bounds and the limit of its query, and
    the samples that it answers with. *)

Module ReadPath.

(** [msg.message.options], the fields that [handleGetHistory] reads. *)
Record historyOptions : Type := HistoryOptions {
  o_aggregate : jsval;
  o_start : jsval;
  o_end : jsval;
  o_limit : jsval;
  o_count : jsval;
  o_returnNewestEntries : jsval;
  o_addId : jsval;
  o_ignoreNull : jsval
}.

(** The query: the parameters [start], [end] and [limit] where they are
    set, and the order. *)
Record historyQuery : Type := HistoryQuery {
  q_start : option float;
  q_end : option float;
  q_limit : option float;
  q_descending : bool
}.

(** A row of the answer of the store, [{ ts, value }], with the reading
    of the clock at the time it is mapped. *)
Record storeRow : Type := StoreRow {
  sr_now : float;
  sr_ts : jsval;
  sr_value : jsval
}.

Section WithBuiltins.
Context `{Builtins}.
(** [parseInt(x, 10)] and [new Date(value).getTime()] *)
Variable parseInt : jsval -> float.
Variable Date_getTime : jsval -> float.

(** [options.aggregate || "none"], refused unless it is [none] or
    [onchange]. *)
Definition aggregateOf (o : historyOptions) : result jsval :=
  let aggregate := if truthy (o_aggregate o) then o_aggregate o else JStr "none" in
  if negb (strict_eq aggregate (JStr "none"))
     && negb (strict_eq aggregate (JStr "onchange"))
  then Throw ("Aggregation " +:+ toString aggregate +:+ " is not supported")
  else Ok aggregate.

(** A bound of the time range (lines 1319 to 1332). *)
Definition timeBound (v : jsval) : option float :=
  if strict_eq v JUndefined then None
  else
    let t := match v with JNum x => x | _ => Date_getTime v end in
    if isNaN t then None else Some t.

(** [parseInt(options.limit, 10) || parseInt(options.count, 10) || 2000] *)
Definition historyLimit (o : historyOptions) : float :=
  let limit := parseInt (o_limit o) in
  if truthy (JNum limit) then limit
  else
    let count := parseInt (o_count o) in
    if truthy (JNum count) then count else 2000%float.

Definition queryOf (o : historyOptions) : historyQuery := {|
  q_start := timeBound (o_start o);
  q_end := timeBound (o_end o);
  q_limit := if num_gt (historyLimit o) 0%float then Some (historyLimit o) else None;
  q_descending := truthy (o_returnNewestEntries o)
|}.

(** The samples of the answer (lines 1360 to 1365): the rows mapped, the
    [null] values left out unless [ignoreNull] is [false], and the
    on-change reduction. *)
Definition historyData (rows : list storeRow) (id : string)
    (o : historyOptions) (aggregate : jsval) (storageType : vtype)
  : list historyEntry :=
  let data :=
    map (fun row => mapRowToHistory (sr_now row) (sr_ts row) (sr_value row) id
                      (truthy (o_addId o)) storageType) rows in
  let filtered :=
    if strict_eq (o_ignoreNull o) (JBool false) then data
    else List.filter (fun item => negb (strict_eq (h_val item) JNull)) data in
  if strict_eq aggregate (JStr "onchange") then reduceOnChange filtered
  else filtered.

End WithBuiltins.
End ReadPath.
Import ReadPath.

(** ** The tracked points and their subscriptions

    [addTrackedDatapoint], [createEphemeralEntry],
    [removeTrackedDatapoint], [onObjectChange] and
    [initializeTrackedDatapoints].  The host keeps the patterns that the
    adapter subscribed with [subscribeForeignStates] and has not taken
    back with [unsubscribeForeignStates]: an identifier for one point,
    ["*"] for all of them.  The settings of a point come normalized, with
    their fingerprint ([JSON.stringify(custom)]), as in [host], and each
    change is followed to its end before the next one begins. *)

Module Tracking.

(** [SUBSCRIBE_THRESHOLD] *)
Definition SUBSCRIBE_THRESHOLD : nat := 20.

Record tracker : Type := Tracker {
  (** [this._tracked] *)
  t_tracked : gmap string entry;
  (** [this._subscribeAll] *)
  t_subscribeAll : bool;
  (** the patterns subscribed at the host *)
  t_subscribed : gset string
}.

(** The tracker of the constructor. *)
Definition emptyTracker : tracker := Tracker ∅ false ∅.

Definition subscribeForeignStates (t : tracker) (pattern : string) : tracker :=
  Tracker (t_tracked t) (t_subscribeAll t) ({[ pattern ]} ∪ t_subscribed t).

Definition unsubscribeForeignStates (t : tracker) (pattern : string) : tracker :=
  Tracker (t_tracked t) (t_subscribeAll t) (t_subscribed t ∖ {[ pattern ]}).

(** [addTrackedDatapoint]; [current] is the answer of
    [getForeignStateAsync], if any. *)
Definition addTrackedDatapoint (t : tracker) (id : string)
    (normalized : config) (hash : string) (current : option sample) : tracker :=
  let entry := trackedEntry id normalized hash in
  let t := Tracker (<[id := entry]> (t_tracked t)) (t_subscribeAll t)
             (t_subscribed t) in
  let t :=
    if negb (t_subscribeAll t) && (size (t_tracked t) <? SUBSCRIBE_THRESHOLD)%nat
    then subscribeForeignStates t id
    else if negb (t_subscribeAll t)
            && (SUBSCRIBE_THRESHOLD <=? size (t_tracked t))%nat
    then subscribeForeignStates (Tracker (t_tracked t) true (t_subscribed t)) "*"
    else t in
  match current with
  | Some state =>
      Tracker (<[id := set_lastState entry (Some state)]> (t_tracked t))
        (t_subscribeAll t) (t_subscribed t)
  | None => t
  end.

(** [createEphemeralEntry] *)
Definition createEphemeralEntry (t : tracker) (id : string) : tracker :=
  let t := Tracker (<[id := ephemeralEntry id]> (t_tracked t)) (t_subscribeAll t)
             (t_subscribed t) in
  if negb (t_subscribeAll t) && (size (t_tracked t) <? SUBSCRIBE_THRESHOLD)%nat
  then subscribeForeignStates t id
  else t.

(** [removeTrackedDatapoint] *)
Definition removeTrackedDatapoint (t : tracker) (id : string) : tracker :=
  match t_tracked t !! id with
  | None => t
  | Some _ =>
      let t := Tracker (delete id (t_tracked t)) (t_subscribeAll t)
                 (t_subscribed t) in
      if negb (t_subscribeAll t) then unsubscribeForeignStates t id else t
  end.

(** [onObjectChange]; [custom] holds the settings of the object when
    they enable the adapter. *)
Definition onObjectChange (t : tracker) (id : string)
    (custom : option (config * string)) (current : option sample) : tracker :=
  match custom with
  | None => removeTrackedDatapoint t id
  | Some (normalized, hash) =>
      match t_tracked t !! id with
      | Some entry =>
          if bool_decide (configHash entry = Some hash) then t
          else addTrackedDatapoint (removeTrackedDatapoint t id) id normalized
                 hash current
      | None =>
          addTrackedDatapoint (removeTrackedDatapoint t id) id normalized hash
            current
      end
  end.

(** A row of the view [system/custom] whose settings enable the adapter. *)
Record customRow : Type := CustomRow {
  cr_id : string;
  cr_config : config;
  cr_hash : string;
  cr_current : option sample
}.

(** [initializeTrackedDatapoints]; [rows] are the enabled rows that the
    view answered with (none when the view could not be read). *)
Definition initializeTrackedDatapoints (t : tracker) (rows : list customRow)
  : tracker :=
  let t := Tracker ∅ (t_subscribeAll t) (t_subscribed t) in
  let t :=
    fold_left (fun t row =>
                 addTrackedDatapoint t (cr_id row) (cr_config row) (cr_hash row)
                   (cr_current row))
              rows t in
  if (SUBSCRIBE_THRESHOLD <=? size (t_tracked t))%nat && negb (t_subscribeAll t)
  then subscribeForeignStates (Tracker (t_tracked t) true (t_subscribed t)) "*"
  else if negb (t_subscribeAll t)
  then fold_left subscribeForeignStates (map fst (map_to_list (t_tracked t))) t
  else t.

(** What happens to the tracker. *)
Inductive change : Type :=
| Added (id : string) (normalized : config) (hash : string)
    (current : option sample)
| Ephemeral (id : string)
| Removed (id : string)
| ObjectChanged (id : string) (custom : option (config * string))
    (current : option sample)
| Initialized (rows : list customRow).

Definition applyChange (t : tracker) (c : change) : tracker :=
  match c with
  | Added id normalized hash current =>
      addTrackedDatapoint t id normalized hash current
  | Ephemeral id => createEphemeralEntry t id
  | Removed id => removeTrackedDatapoint t id
  | ObjectChanged id custom current => onObjectChange t id custom current
  | Initialized rows => initializeTrackedDatapoints t rows
  end.

(** A point is observed when a pattern subscribed at the host covers
    it. *)
Definition observed (t : tracker) (id : string) : Prop :=
  "*" ∈ t_subscribed t \/ id ∈ t_subscribed t.

(** The subscriptions cover the tracked points: with [_subscribeAll]
    the pattern ["*"] is subscribed, and without it every tracked point
    that is not ephemeral has a subscription of its own. *)
Definition covering (t : tracker) : Prop :=
  if t_subscribeAll t then "*" ∈ t_subscribed t
  else forall id e, t_tracked t !! id = Some e -> ephemeral e = false ->
                    id ∈ t_subscribed t.

End Tracking.
Import Tracking.

(** ** A reference instance of the built-ins

    The examples below evaluate the pipeline on concrete samples.  They
    use this instance of [Builtins], which follows ECMAScript on the
    values the examples need: numbers that are integers below 2^53 are
    printed and read in decimal, JSON texts are built from literals, such
    numbers, strings, arrays and objects, and dates are printed in the
    proleptic Gregorian calendar.  Outside of these the instance gives a
    placeholder, and no example goes there. *)

Module Reference.

Definition float_to_Z (x : float) : option Z :=
  match Prim2SF x with
  | S754_zero _ => Some 0%Z
  | S754_finite s m e =>
      if (0 <=? e)%Z then Some (cond_Zopp s (Z.pos m * 2 ^ e))
      else
        let d := (2 ^ (- e))%Z in
        if (Z.pos m mod d =? 0)%Z then Some (cond_Zopp s (Z.pos m / d)) else None
  | _ => None
  end.

(** The integer part of a finite number. *)
Definition float_trunc (x : float) : option Z :=
  match Prim2SF x with
  | S754_zero _ => Some 0%Z
  | S754_finite s m e =>
      if (0 <=? e)%Z then Some (cond_Zopp s (Z.pos m * 2 ^ e))
      else Some (cond_Zopp s (Z.pos m / 2 ^ (- e)))
  | _ => None
  end.

Definition float_of_Z (z : Z) : float :=
  SF2Prim (binary_normalize prec emax z 0 false).

Fixpoint digits_fuel (fuel : nat) (n : Z) (acc : list ascii) : list ascii :=
  match fuel with
  | 0 => acc
  | S f =>
      let acc := ascii_of_N (48 + Z.to_N (n mod 10)) :: acc in
      if (n / 10 =? 0)%Z then acc else digits_fuel f (n / 10) acc
  end.

(** The decimal digits of a natural number. *)
Definition digits (n : Z) : list ascii :=
  digits_fuel (S (Z.to_nat (Z.log2 n))) n [].

Definition print_Z (z : Z) : list ascii :=
  if (z <? 0)%Z then "-"%char :: digits (- z) else digits z.

Definition pad_left (width : nat) (l : list ascii) : list ascii :=
  repeat "0"%char (width - length l) ++ l.

(** [Number.prototype.toString] on the integers; a finite number that
    is not an integer is not printed, and gives the placeholder. *)
Definition ref_Number_toString (x : float) : string :=
  if PrimFloat.is_nan x then "NaN"
  else if PrimFloat.eqb x PrimFloat.infinity then "Infinity"
  else if PrimFloat.eqb x PrimFloat.neg_infinity then "-Infinity"
  else match float_to_Z x with
       | Some z => string_of (print_Z z)
       | None => "?"
       end.

Fixpoint read_digits (l : list ascii) (acc : Z) : option Z :=
  match l with
  | [] => Some acc
  | c :: r =>
      if is_digit c
      then read_digits r (10 * acc + Z.of_nat (nat_of_ascii c) - 48)
      else None
  end.

Definition read_Z (l : list ascii) : option Z :=
  match l with
  | [] => None
  | "-"%char :: (_ :: _) as r => option_map Z.opp (read_digits (tail l) 0)
  | _ => read_digits l 0
  end.

Definition ref_String_toNumber (s : string) : float :=
  match TableNames.trim (chars_of s) with
  | [] => 0%float
  | l => match read_Z l with
         | Some z => float_of_Z z
         | None => PrimFloat.nan
         end
  end.

Fixpoint join (sep : string) (l : list string) : string :=
  match l with
  | [] => ""
  | [x] => x
  | x :: r => x +:+ sep +:+ join sep r
  end.

Fixpoint ref_Object_toString (v : jsval) : string :=
  match v with
  | JUndefined | JNull => ""
  | JBool true => "true"
  | JBool false => "false"
  | JNum x => ref_Number_toString x
  | JStr s => s
  | JArr items => join "," (map ref_Object_toString items)
  | JObj _ => "[object Object]"
  end.

Definition ref_Object_toNumber (v : jsval) : float :=
  ref_String_toNumber (ref_Object_toString v).

Definition hex_digit (n : nat) : ascii :=
  if (n <? 10)%nat then ascii_of_nat (48 + n) else ascii_of_nat (87 + n).

(** The double quote. *)
Definition dquote : ascii := ascii_of_nat 34.

Definition quote_char (c : ascii) : list ascii :=
  let n := nat_of_ascii c in
  if Ascii.eqb c dquote then ["\"%char; dquote]
  else if Ascii.eqb c "\"%char then ["\"%char; "\"%char]
  else if (n =? 10)%nat then ["\"%char; "n"%char]
  else if (n =? 13)%nat then ["\"%char; "r"%char]
  else if (n =? 9)%nat then ["\"%char; "t"%char]
  else if (n =? 8)%nat then ["\"%char; "b"%char]
  else if (n =? 12)%nat then ["\"%char; "f"%char]
  else if (n <? 32)%nat
       then ["\"%char; "u"%char; "0"%char; "0"%char; hex_digit (n / 16); hex_digit (n mod 16)]
       else [c].

Definition quote (s : string) : string :=
  string_of (dquote :: concat (map quote_char (chars_of s)) ++ [dquote]).

(** [JSON.stringify]: [None] is [undefined]. *)
Fixpoint ref_JSON_stringify (v : jsval) : option string :=
  match v with
  | JUndefined => None
  | JNull => Some "null"
  | JBool true => Some "true"
  | JBool false => Some "false"
  | JNum x => Some (if PrimFloat.is_finite x then ref_Number_toString x else "null")
  | JStr s => Some (quote s)
  | JArr items =>
      Some ("[" +:+ join "," (map (fun i => default "null" (ref_JSON_stringify i)) items)
            +:+ "]")
  | JObj fields =>
      Some ("{" +:+ join ","
                   (omap (fun kv : string * jsval =>
                            match ref_JSON_stringify kv.2 with
                            | Some s => Some (quote kv.1 +:+ ":" +:+ s)
                            | None => None
                            end) fields)
            +:+ "}")
  end.

Fixpoint skip_ws (l : list ascii) : list ascii :=
  match l with
  | c :: r => if Ascii.is_space c then skip_ws r else l
  | [] => []
  end.

(** The characters of a JSON string up to its closing quote. *)
Fixpoint parse_chars (l : list ascii) (acc : list ascii)
  : option (string * list ascii) :=
  match l with
  | [] => None
  | c :: r =>
      if Ascii.eqb c dquote then Some (string_of (rev acc), r)
      else if Ascii.eqb c "\"%char then
        match r with
        | e :: r' =>
            if Ascii.eqb e dquote then parse_chars r' (dquote :: acc)
            else if Ascii.eqb e "\"%char then parse_chars r' ("\"%char :: acc)
            else if Ascii.eqb e "/"%char then parse_chars r' ("/"%char :: acc)
            else if Ascii.eqb e "n"%char then parse_chars r' (ascii_of_nat 10 :: acc)
            else if Ascii.eqb e "r"%char then parse_chars r' (ascii_of_nat 13 :: acc)
            else if Ascii.eqb e "t"%char then parse_chars r' (ascii_of_nat 9 :: acc)
            else None
        | [] => None
        end
      else if (nat_of_ascii c <? 32)%nat then None
      else parse_chars r (c :: acc)
  end.

Fixpoint span_digits (l : list ascii) (acc : list ascii)
  : list ascii * list ascii :=
  match l with
  | c :: r => if is_digit c then span_digits r (c :: acc) else (rev acc, l)
  | [] => (rev acc, [])
  end.

Definition parse_number (l : list ascii) : option (jsval * list ascii) :=
  let '(neg, l) :=
    match l with
    | "-"%char :: r => (true, r)
    | _ => (false, l)
    end in
  match span_digits l [] with
  | ([], _) => None
  | (ds, rest) =>
      match ds, rest with
      | "0"%char :: _ :: _, _ => None
      | _, "."%char :: _ | _, "e"%char :: _ | _, "E"%char :: _ => None
      | _, _ =>
          match read_digits ds 0 with
          | Some z => Some (JNum (float_of_Z (if neg then - z else z)%Z), rest)
          | None => None
          end
      end
  end.

(** A JSON value at the head of the text, and the text that follows. *)
Fixpoint parse_value (fuel : nat) (l : list ascii) : option (jsval * list ascii) :=
  match fuel with
  | 0 => None
  | S f =>
      match skip_ws l with
      | "n"%char :: "u"%char :: "l"%char :: "l"%char :: r => Some (JNull, r)
      | "t"%char :: "r"%char :: "u"%char :: "e"%char :: r => Some (JBool true, r)
      | "f"%char :: "a"%char :: "l"%char :: "s"%char :: "e"%char :: r =>
          Some (JBool false, r)
      | "["%char :: r =>
          match skip_ws r with
          | "]"%char :: r' => Some (JArr [], r')
          | _ => parse_elements f r []
          end
      | "{"%char :: r =>
          match skip_ws r with
          | "}"%char :: r' => Some (JObj [], r')
          | _ => parse_members f r []
          end
      | c :: r =>
          if Ascii.eqb c dquote then
            match parse_chars r [] with
            | Some (s, r') => Some (JStr s, r')
            | None => None
            end
          else parse_number (c :: r)
      | [] => None
      end
  end
with parse_elements (fuel : nat) (l : list ascii) (acc : list jsval)
  : option (jsval * list ascii) :=
  match fuel with
  | 0 => None
  | S f =>
      match parse_value f l with
      | Some (v, r) =>
          match skip_ws r with
          | ","%char :: r' => parse_elements f r' (v :: acc)
          | "]"%char :: r' => Some (JArr (rev (v :: acc)), r')
          | _ => None
          end
      | None => None
      end
  end
with parse_members (fuel : nat) (l : list ascii) (acc : list (string * jsval))
  : option (jsval * list ascii) :=
  match fuel with
  | 0 => None
  | S f =>
      match skip_ws l with
      | c :: r =>
          if Ascii.eqb c dquote then
            match parse_chars r [] with
            | Some (k, r1) =>
                match skip_ws r1 with
                | ":"%char :: r2 =>
                    match parse_value f r2 with
                    | Some (v, r3) =>
                        match skip_ws r3 with
                        | ","%char :: r4 => parse_members f r4 ((k, v) :: acc)
                        | "}"%char :: r4 => Some (JObj (rev ((k, v) :: acc)), r4)
                        | _ => None
                        end
                    | None => None
                    end
                | _ => None
                end
            | None => None
            end
          else None
      | [] => None
      end
  end.

(** [JSON.parse]: [None] is a [SyntaxError]. *)
Definition ref_JSON_parse (s : string) : option jsval :=
  let l := chars_of s in
  match parse_value (S (length l)) l with
  | Some (v, rest) => match skip_ws rest with [] => Some v | _ => None end
  | None => None
  end.

(** [Math.round]: the integer nearest to a finite number, a tie going
    up; a negative number that rounds to zero gives [-0]. *)
Definition ref_Math_round (x : float) : float :=
  match Prim2SF x with
  | S754_finite s m e =>
      if (0 <=? e)%Z then x
      else
        let d := (2 ^ (- e))%Z in
        let z := ((2 * cond_Zopp s (Z.pos m) + d) / (2 * d))%Z in
        if (z =? 0)%Z && s then PrimFloat.neg_zero else float_of_Z z
  | _ => x
  end.

(** [Math.pow], for a base and an exponent that are natural numbers. *)
Definition ref_Math_pow (b e : float) : float :=
  match float_to_Z b, float_to_Z e with
  | Some b, Some e => if (0 <=? e)%Z then float_of_Z (b ^ e) else PrimFloat.nan
  | _, _ => PrimFloat.nan
  end.

(** The civil date of a day number (days since 1970-01-01). *)
Definition civil_from_days (z : Z) : Z * Z * Z :=
  let z := (z + 719468)%Z in
  let era := (z / 146097)%Z in
  let doe := (z - era * 146097)%Z in
  let yoe := ((doe - doe / 1460 + doe / 36524 - doe / 146096) / 365)%Z in
  let y := (yoe + era * 400)%Z in
  let doy := (doe - (365 * yoe + yoe / 4 - yoe / 100))%Z in
  let mp := ((5 * doy + 2) / 153)%Z in
  let d := (doy - (153 * mp + 2) / 5 + 1)%Z in
  let m := (if mp <? 10 then mp + 3 else mp - 9)%Z in
  ((if m <=? 2 then y + 1 else y)%Z, m, d).

Definition two (z : Z) : list ascii := pad_left 2 (digits z).

(** [new Date(t).toISOString()] for a valid time value. *)
Definition ref_Date_toISOString (t : float) : string :=
  match float_trunc t with
  | None => "?"
  | Some ms =>
      let '(y, m, d) := civil_from_days (ms / 86400000) in
      let r := (ms mod 86400000)%Z in
      let year :=
        if ((0 <=? y) && (y <=? 9999))%Z then pad_left 4 (digits y)
        else (if (y <? 0)%Z then "-"%char else "+"%char) :: pad_left 6 (digits (Z.abs y)) in
      string_of (year ++ "-"%char :: two m ++ "-"%char :: two d ++ "T"%char
                 :: two (r / 3600000) ++ ":"%char :: two (r / 60000 mod 60)
                 ++ ":"%char :: two (r / 1000 mod 60) ++ "."%char
                 :: pad_left 3 (digits (r mod 1000)) ++ ["Z"%char])
  end.

Definition ref_builtins : Builtins := {|
  Number_toString := ref_Number_toString;
  String_toNumber := ref_String_toNumber;
  Object_toString := ref_Object_toString;
  Object_toNumber := ref_Object_toNumber;
  JSON_stringify := ref_JSON_stringify;
  JSON_parse := ref_JSON_parse;
  Math_round := ref_Math_round;
  Math_pow := ref_Math_pow;
  Date_toISOString := ref_Date_toISOString
|}.

End Reference.

(** ** The samples of the worked examples *)

Module Examples.

(** A number as a converted sample. *)
Definition numberValue (x : float) : converted :=
  Converted TNumber (JNum x) (JNum x).

(** A sample of a number at a time. *)
Definition numberSample (x ts : float) : sample :=
  {| s_val := JNum x; s_ts := ts; s_lc := ts; s_ack := JBool true;
     s_q := JNum 0%float; s_from := JStr "" |}.

(** A tracked point with the given settings whose last stored sample is
    the number [x] at the time [ts]. *)
Definition storedNumber (cfg : config) (x ts : float) : entry :=
  storeCommit (trackedEntry "point" cfg "{}") (numberValue x) (numberSample x ts).

(** The dead-band example: a minimum delta of 0.5 and a stored 10.0. *)
Definition deadbandConfig : config := {|
  cfg_storageType := "auto"; blockTime := 0%float; changesOnly := true;
  ignoreZero := false; ignoreBelowNumber := None; ignoreAboveNumber := None;
  cfg_round := None; changesRelogInterval := 0%float;
  changesMinDelta := 0.5%float;
  enableDebugLogs := false; disableSkippedValueLogging := false |}.

Definition deadbandEntry : entry := storedNumber deadbandConfig 10%float 1000%float.

(** The re-log example: change-only suppression with a re-log interval
    of 60 seconds, and a stored 10.0 at the time 1000. *)
Definition relogConfig (spacing : float) : config := {|
  cfg_storageType := "auto"; blockTime := spacing; changesOnly := true;
  ignoreZero := false; ignoreBelowNumber := None; ignoreAboveNumber := None;
  cfg_round := None; changesRelogInterval := 60%float;
  changesMinDelta := 0%float;
  enableDebugLogs := false; disableSkippedValueLogging := false |}.

Definition relogEntry (spacing : float) : entry :=
  storedNumber (relogConfig spacing) 10%float 1000%float.

(** The range-clamp example: a lower bound of 5, a re-log interval of 60
    seconds, and a stored 10.0 at the time 1000. *)
Definition clampConfig : config := {|
  cfg_storageType := "auto"; blockTime := 0%float; changesOnly := true;
  ignoreZero := false; ignoreBelowNumber := Some 5%float;
  ignoreAboveNumber := None; cfg_round := None;
  changesRelogInterval := 60%float; changesMinDelta := 0%float;
  enableDebugLogs := false; disableSkippedValueLogging := false |}.

Definition clampEntry : entry := storedNumber clampConfig 10%float 1000%float.

(** An adapter that tracks the identifier [point] with the given entry
    and has its table of numbers registered. *)
Definition pointAdapter (e : entry) : adapter := {|
  client := true; buffer := []; flushPromise := None; connected := true;
  tracked := {[ "point" := e ]};
  tablePrefix := "history";
  tableCache := {[ "point" := TableInfo "history_point" TNumber ]};
  batchSize := 500 |}.

Definition quietHost : host := {|
  now := 1700000000000%float;
  customSettings := fun _ => None;
  foreignState := fun _ => None;
  storeAccepts := true |}.

(** The state [{ val, ts }] as the host delivers it. *)
Definition rawSample (val ts : jsval) : rawState :=
  {| raw_val := val; raw_ts := ts; raw_lc := JUndefined; raw_ack := JUndefined;
     raw_q := JUndefined; raw_from := JUndefined |}.

(** The reconstructed samples of a sequence of numbers, one per
    millisecond. *)
Fixpoint historyFrom (ts : float) (values : list float) : list historyEntry :=
  match values with
  | [] => []
  | x :: rest =>
      {| h_val := JNum x; h_ts := ts; h_lc := Some ts; h_ack := true;
         h_q := 0%float; h_from := ""; h_id := None |}
      :: historyFrom (PrimFloat.add ts 1%float) rest
  end.

(** A row for the table of [point]. *)
Definition pointRow (value : float) (ts : string) : row :=
  Row "point" "history_point" TNumber (RowValues ts (JNum value)).

(** The adapter of [point] with rows in its queue. *)
Definition queuedAdapter (rows : list row) : adapter :=
  set_buffer (pointAdapter (ephemeralEntry "point")) rows.

(** A flush in flight: the adapter has one row queued, a caller flushes
    it, a second row arrives, and a forced caller waits. *)
Definition flightWorld : world :=
  default (initial (queuedAdapter []))
    (run (initial (queuedAdapter [pointRow 1%float "2023-11-14 22:13:20.000"]))
       [Call false; Queue (pointRow 2%float "2023-11-14 22:13:21.000"); Call true]).

(** A flush in flight and nothing queued behind it. *)
Definition drainedWorld : world :=
  default (initial (queuedAdapter []))
    (run (initial (queuedAdapter [pointRow 1%float "2023-11-14 22:13:20.000"]))
       [Call false]).

End Examples.
Import Examples.

(** * Properties *)

(** ** Numbers *)

Module NumberFacts.

(** The sign of a rounded number does not change its magnitude. *)
Lemma SFabs_binary_round (prec emax : Z) (s : bool) (m : positive) (e : Z) :
  SFabs (binary_round prec emax s m e) = SFabs (binary_round prec emax false m e).
Proof.
  unfold binary_round, binary_round_aux.
  destruct (shl_align _ _ _) as [mz ez].
  destruct (shr_fexp _ _ _ _ _) as [mrs' e'].
  destruct (shr_fexp _ _ _ _ _) as [mrs'' e''].
  destruct (shr_m mrs''); try reflexivity.
  destruct (_ <=? _)%Z; reflexivity.
Qed.

Lemma SFabs_normalize_opp (prec emax m e : Z) :
  SFabs (binary_normalize prec emax (- m) e false)
  = SFabs (binary_normalize prec emax m e false).
Proof.
  destruct m; simpl; try reflexivity.
  - apply SFabs_binary_round.
  - symmetry. apply SFabs_binary_round.
Qed.

Lemma SFabs_sub_comm (prec emax : Z) (x y : spec_float) :
  SFabs (SFsub prec emax x y) = SFabs (SFsub prec emax y x).
Proof.
  destruct x as [sx|sx| |sx mx ex], y as [sy|sy| |sy my ey]; simpl;
    try reflexivity; try (destruct sx, sy; reflexivity).
  rewrite (Z.min_comm ey ex).
  rewrite <- SFabs_normalize_opp. f_equal. f_equal. lia.
Qed.

(** [Math.abs(a - b)] and [Math.abs(b - a)] are the same number. *)
Lemma abs_sub_comm (a b : float) :
  PrimFloat.abs (PrimFloat.sub a b) = PrimFloat.abs (PrimFloat.sub b a).
Proof.
  apply Prim2SF_inj.
  rewrite !FloatAxioms.abs_spec, !FloatAxioms.sub_spec. apply SFabs_sub_comm.
Qed.

(** *** The product of a positive number and 1000

    A positive number of seconds is a positive number of milliseconds:
    the product is rounded, and the rounding of a number that is not
    below the smallest positive float does not give zero.  The proof
    follows the digits of the mantissa through the two shifts of
    [binary_round_aux]. *)

Lemma digits2_size (p : positive) : digits2_pos p = Pos.size p.
Proof. induction p; simpl; congruence. Qed.

Lemma Zdigits2_bounds (p : positive) :
  (2 ^ (Z.pos (digits2_pos p) - 1) <= Z.pos p < 2 ^ Z.pos (digits2_pos p))%Z.
Proof.
  rewrite digits2_size. split.
  - pose proof (Pos.size_le p) as H.
    assert (Hz : (Z.pos (2 ^ Pos.size p) <= Z.pos p~0)%Z) by exact H.
    rewrite Pos2Z.inj_pow in Hz.
    replace (Z.pos (Pos.size p)) with (Z.succ (Z.pos (Pos.size p) - 1)) in Hz by lia.
    rewrite Z.pow_succ_r in Hz by lia. lia.
  - pose proof (Pos.size_gt p) as H.
    assert (Hz : (Z.pos p < Z.pos (2 ^ Pos.size p))%Z) by exact H.
    by rewrite Pos2Z.inj_pow in Hz.
Qed.

Lemma digits2_mono (p q : positive) :
  (Z.pos p <= Z.pos q)%Z -> (Z.pos (digits2_pos p) <= Z.pos (digits2_pos q))%Z.
Proof.
  intros Hle. pose proof (Zdigits2_bounds p) as [Hp _].
  pose proof (Zdigits2_bounds q) as [_ Hq].
  assert (H : (2 ^ (Z.pos (digits2_pos p) - 1) < 2 ^ Z.pos (digits2_pos q))%Z) by lia.
  apply Z.pow_lt_mono_r_iff in H; lia.
Qed.

Lemma shr_1_digits (x : shr_record) :
  (0 <= shr_m x)%Z ->
  (0 <= shr_m (shr_1 x))%Z
  /\ Zdigits2 (shr_m (shr_1 x)) = Z.max (Zdigits2 (shr_m x) - 1) 0.
Proof.
  destruct x as [m r s]. simpl. intros Hm.
  destruct m as [|[p|p|]|p]; simpl; try lia.
Qed.

Lemma iter_shr_digits (n : positive) (x : shr_record) :
  (0 <= shr_m x)%Z ->
  (0 <= shr_m (SpecFloat.iter_pos shr_1 n x))%Z
  /\ Zdigits2 (shr_m (SpecFloat.iter_pos shr_1 n x))
     = Z.max (Zdigits2 (shr_m x) - Z.pos n) 0.
Proof.
  revert x. induction n as [n IH|n IH|]; intros x Hx; simpl.
  - destruct (shr_1_digits x Hx) as [H1 E1].
    destruct (IH _ H1) as [H2 E2]. destruct (IH _ H2) as [H3 E3].
    split; [done|]. rewrite E3, E2, E1. lia.
  - destruct (IH _ Hx) as [H2 E2]. destruct (IH _ H2) as [H3 E3].
    split; [done|]. rewrite E3, E2. lia.
  - apply shr_1_digits, Hx.
Qed.

Lemma Zdigits2_nonneg (m : Z) : (0 <= m)%Z -> (0 <= Zdigits2 m)%Z.
Proof. destruct m; simpl; lia. Qed.

Lemma Zdigits2_positive (m : Z) : (0 <= m)%Z -> (0 < Zdigits2 m)%Z -> (0 < m)%Z.
Proof. destruct m; simpl; lia. Qed.

Lemma shr_digits (x : shr_record) (e n : Z) :
  (0 <= shr_m x)%Z ->
  (0 <= shr_m (shr x e n).1)%Z
  /\ Zdigits2 (shr_m (shr x e n).1) = Z.max (Zdigits2 (shr_m x) - Z.max n 0) 0
  /\ (shr x e n).2 = (e + Z.max n 0)%Z.
Proof.
  intros Hx. pose proof (Zdigits2_nonneg _ Hx).
  destruct n as [|n|n]; simpl.
  - split; [done|]. split; lia.
  - destruct (iter_shr_digits n x Hx) as [H1 E1].
    split; [done|]. split; [by rewrite E1|lia].
  - split; [done|]. split; lia.
Qed.

Lemma round_nearest_even_ge (m : Z) (l : location) : (m <= round_nearest_even m l)%Z.
Proof.
  unfold round_nearest_even. destruct l as [|[]]; try lia.
  destruct (IntDef.Z.even m); lia.
Qed.

Lemma Zdigits2_mono (a b : Z) : (0 < a <= b)%Z -> (Zdigits2 a <= Zdigits2 b)%Z.
Proof.
  destruct a as [|p|p], b as [|q|q]; simpl; try lia.
  intros [_ Hle]. by apply digits2_mono.
Qed.

(** Rounding a positive number that is not below the smallest positive
    float gives a positive float or the positive infinity. *)
Lemma binary_round_aux_positive (M : positive) (E : Z) :
  (0 < Z.pos (digits2_pos M) + E + 1074)%Z ->
  match binary_round_aux prec emax false (Z.pos M) E loc_Exact with
  | S754_infinity false | S754_finite false _ _ => True
  | _ => False
  end.
Proof.
  intros Hlow. unfold binary_round_aux.
  set (n1 := (fexp prec emax (Zdigits2 (Z.pos M) + E) - E)%Z).
  unfold shr_fexp at 1. fold n1.
  destruct (shr_digits (shr_record_of_loc (Z.pos M) loc_Exact) E n1 ltac:(simpl; lia))
    as (H1 & D1 & E1).
  destruct (shr _ E n1) as [mrs' e'] eqn:S1. simpl in H1, D1, E1.
  set (m2 := round_nearest_even (shr_m mrs') (loc_of_shr_record mrs')).
  assert (Hn1 : n1 = (Z.max (Z.pos (digits2_pos M) + E - 53) (-1074) - E)%Z) by reflexivity.
  assert (Hd1 : (0 < Zdigits2 (shr_m mrs'))%Z) by lia.
  assert (Hm1 : (0 < shr_m mrs')%Z) by (by apply Zdigits2_positive).
  assert (Hm2 : (0 < m2)%Z)
    by (pose proof (round_nearest_even_ge (shr_m mrs') (loc_of_shr_record mrs')); lia).
  assert (Hd2 : (0 < Zdigits2 m2)%Z).
  { pose proof (Zdigits2_mono (shr_m mrs') m2
                  ltac:(split; [done|apply round_nearest_even_ge])). lia. }
  set (n2 := (fexp prec emax (Zdigits2 m2 + e') - e')%Z).
  unfold shr_fexp. fold n2.
  destruct (shr_digits (shr_record_of_loc m2 loc_Exact) e' n2 ltac:(simpl; lia))
    as (H2 & D2 & E2).
  destruct (shr _ e' n2) as [mrs'' e''] eqn:S2. simpl in H2, D2, E2.
  assert (Hn2 : n2 = (Z.max (Zdigits2 m2 + e' - 53) (-1074) - e')%Z) by reflexivity.
  assert (Hd3 : (0 < Zdigits2 (shr_m mrs''))%Z) by lia.
  pose proof (Zdigits2_positive _ H2 Hd3) as Hm3.
  destruct (shr_m mrs'') as [|m|m]; [lia| |lia].
  by destruct (_ <=? _)%Z.
Qed.

(** A positive number of seconds is a positive number of milliseconds. *)
Lemma positive_times_1000 (r : float) :
  PrimFloat.ltb 0 r = true -> PrimFloat.ltb 0 (PrimFloat.mul r 1000) = true.
Proof.
  rewrite !FloatAxioms.ltb_spec, FloatAxioms.mul_spec.
  pose proof (Prim2SF_valid r) as Hvalid.
  change (Prim2SF 0) with (S754_zero false).
  change (Prim2SF 1000) with (S754_finite false 8796093022208000 (-43)).
  destruct (Prim2SF r) as [s|s| |s m e]; simpl; try done.
  - by destruct s.
  - destruct s; [done|]. intros _. simpl in Hvalid.
    unfold bounded, canonical_mantissa in Hvalid.
    apply andb_true_iff in Hvalid as [Hc _]. apply Z.eqb_eq in Hc.
    assert (He : (-1074 <= e)%Z).
    { change (fexp prec emax (Z.pos (digits2_pos m) + e))
        with (Z.max (Z.pos (digits2_pos m) + e - 53) (-1074)) in Hc. lia. }
    assert (Hd : (Z.pos (digits2_pos m) + 52 <= Z.pos (digits2_pos (m * 8796093022208000)))%Z).
    { pose proof (Zdigits2_bounds m) as [Hm _].
      pose proof (Zdigits2_bounds (m * 8796093022208000)) as [_ HM].
      assert (H52 : (2 ^ (Z.pos (digits2_pos m) - 1) * 2 ^ 52
                     <= Z.pos (m * 8796093022208000))%Z).
      { rewrite Pos2Z.inj_mul. apply Z.mul_le_mono_nonneg; lia. }
      rewrite <- Z.pow_add_r in H52 by lia.
      assert (Hlt : (2 ^ (Z.pos (digits2_pos m) - 1 + 52)
                     < 2 ^ Z.pos (digits2_pos (m * 8796093022208000)))%Z) by lia.
      apply Z.pow_lt_mono_r_iff in Hlt; lia. }
    pose proof (binary_round_aux_positive (m * 8796093022208000) (e + -43)
                  ltac:(lia)) as Hpos.
    destruct (binary_round_aux _ _ _ _ _ _) as [?|[]| |[] ? ?]; done.
Qed.

End NumberFacts.

(** ** Value Normalizer: the round trip through the store *)

Module NormalizerFacts.

Lemma strict_eq_refl_string (s : string) : strict_eq (JStr s) (JStr s) = true.
Proof. simpl. apply String.eqb_refl. Qed.

Lemma strict_eq_refl_bool (b : bool) : strict_eq (JBool b) (JBool b) = true.
Proof. by destruct b. Qed.

Lemma vtype_eqb_eq (a b : vtype) : vtype_eqb a b = true <-> a = b.
Proof. destruct a, b; simpl; split; congruence. Qed.

Lemma vtype_eqb_refl (a : vtype) : vtype_eqb a a = true.
Proof. by destruct a. Qed.

(** A finite number is neither NaN nor an infinity. *)
Lemma finite_cases (x : float) :
  isFinite x = true ->
  (exists s, Prim2SF x = S754_zero s) \/ (exists s m e, Prim2SF x = S754_finite s m e).
Proof.
  unfold isFinite, PrimFloat.is_finite, PrimFloat.is_nan, PrimFloat.is_infinity.
  rewrite !FloatAxioms.eqb_spec, FloatAxioms.abs_spec.
  destruct (Prim2SF x) as [s|s| |s m e] eqn:E; simpl.
  - eauto.
  - intros Hf. exfalso. destruct s; vm_compute in Hf; discriminate.
  - intros Hf. vm_compute in Hf. discriminate.
  - eauto 6.
Qed.

(** The difference of a finite number with itself is below the epsilon. *)
Lemma sub_diag_below_epsilon (x : float) :
  isFinite x = true ->
  num_lt (PrimFloat.abs (PrimFloat.sub x x)) NUMERIC_EPSILON = true.
Proof.
  intros Hf. unfold num_lt.
  rewrite FloatAxioms.ltb_spec, FloatAxioms.abs_spec, FloatAxioms.sub_spec.
  destruct (finite_cases x Hf) as [[s E]|(s & m & e & E)]; rewrite E.
  - by destruct s.
  - unfold SF64sub, SFsub. rewrite Z.sub_diag. reflexivity.
Qed.

Section RoundTrip.
Context `{Builtins}.

Lemma toRoundedNumber_finite (x r : float) :
  toRoundedNumber None x = Ok r -> r = x /\ isFinite x = true.
Proof.
  unfold toRoundedNumber. destruct (isFinite x); simpl; [|discriminate].
  by intros [= ->].
Qed.

Lemma roundtrip_number (r : float) :
  storedRoundTrip (Converted TNumber (JNum r) (JNum r)) = JNum r.
Proof. reflexivity. Qed.

Lemma roundtrip_boolean (b : bool) :
  storedRoundTrip (Converted TBoolean (JBool b) (JBool b)) = JBool b.
Proof. by destruct b; vm_compute. Qed.

Lemma roundtrip_string (s : string) :
  storedRoundTrip (Converted TString (JStr s) (JStr s)) = JStr s.
Proof. reflexivity. Qed.

Lemma roundtrip_json_text (s : string) :
  storedRoundTrip (Converted TJson (JStr s) (JStr s))
  = match JSON_parse s with Some parsed => parsed | None => JStr s end.
Proof. reflexivity. Qed.

Lemma number_self_equal (r : float) :
  isFinite r = true -> comparableEqual TNumber (JNum r) (JNum r) = true.
Proof. intros Hf. simpl. unfold js_sub. simpl. by apply sub_diag_below_epsilon. Qed.

(** C3 (as amended): the round trip of a converted value through
    [encodeValue] and [decodeValue], by type tag.  For number the value
    read back is the comparable key, and equal to it under the numeric
    equality whenever it is finite, which it is when no rounding is
    configured; for string, boolean and null the value read back is the
    comparable key; for json it is what [JSON.parse] makes of the key (the
    serialized text), or the key itself when the text does not parse. *)
Theorem roundtrip_by_type (v : jsval) (s : settings) (c : converted) :
  prepareValue v s = Ok c ->
  match cv_type c with
  | TNumber =>
      exists x, cv_comparable c = JNum x /\ storedRoundTrip c = JNum x
        /\ (round s = None -> isFinite x = true)
        /\ (isFinite x = true ->
            comparableEqual TNumber (storedRoundTrip c) (cv_comparable c) = true)
  | TString | TBoolean | TNull =>
      storedRoundTrip c = cv_comparable c
      /\ comparableEqual (cv_type c) (storedRoundTrip c) (cv_comparable c) = true
  | TJson =>
      match cv_comparable c with
      | JStr text =>
          storedRoundTrip c
          = match JSON_parse text with Some parsed => parsed | None => JStr text end
      | _ => cv_comparable c = JUndefined /\ storedRoundTrip c = JNull
      end
  end.
Proof.
  assert (Hnum : forall r, (round s = None -> isFinite r = true) ->
    exists x, JNum r = JNum x /\ storedRoundTrip (Converted TNumber (JNum r) (JNum r)) = JNum x
      /\ (round s = None -> isFinite x = true)
      /\ (isFinite x = true ->
          comparableEqual TNumber (storedRoundTrip (Converted TNumber (JNum r) (JNum r))) (JNum r) = true)).
  { intros r Hr. exists r. repeat split; auto. intros Hf.
    rewrite roundtrip_number. by apply number_self_equal. }
  assert (Hrounded : forall x r, toRoundedNumber (round s) x = Ok r ->
            round s = None -> isFinite r = true).
  { intros x r Hx Hs. rewrite Hs in Hx.
    by destruct (toRoundedNumber_finite _ _ Hx) as [-> ?]. }
  assert (Hjson : forall w,
    match stringify w with
    | JStr text =>
        storedRoundTrip (Converted TJson (stringify w) (stringify w))
        = match JSON_parse text with Some parsed => parsed | None => JStr text end
    | _ => stringify w = JUndefined
           /\ storedRoundTrip (Converted TJson (stringify w) (stringify w)) = JNull
    end).
  { intros w. unfold stringify. by destruct (JSON_stringify w). }
  unfold prepareValue, autoDetect.
  destruct (is_nullish v) eqn:Hnull.
  { intros [= <-]. by vm_compute. }
  intros Hc.
  destruct (String.eqb _ "number").
  { destruct (negb (isFinite _)); [discriminate|].
    destruct (toRoundedNumber _ _) eqn:Hr; [|discriminate].
    injection Hc as <-. apply Hnum. eauto. }
  destruct (String.eqb _ "string").
  { injection Hc as <-. simpl. split; [done|apply String.eqb_refl]. }
  destruct (String.eqb _ "boolean").
  { injection Hc as <-. simpl. rewrite roundtrip_boolean.
    split; [done|apply strict_eq_refl_bool]. }
  destruct (String.eqb _ "json").
  { injection Hc as <-. destruct v; try apply Hjson. reflexivity. }
  destruct v; try discriminate.
  - injection Hc as <-. simpl. rewrite roundtrip_boolean.
    split; [done|apply strict_eq_refl_bool].
  - destruct (toRoundedNumber _ _) eqn:Hr; [|discriminate].
    injection Hc as <-. apply Hnum. eauto.
  - injection Hc as <-. simpl. split; [done|apply String.eqb_refl].
  - injection Hc as <-. apply Hjson.
  - injection Hc as <-. apply Hjson.
Qed.

End RoundTrip.

Section RoundTripExamples.
#[local] Existing Instance Reference.ref_builtins.

(** C3, witness: the round trip of the boolean [true]. *)
Lemma roundtrip_by_type_witness :
  prepareValue (JBool true) (Settings "auto" None)
  = Ok (Converted TBoolean (JBool true) (JBool true))
  /\ storedRoundTrip (Converted TBoolean (JBool true) (JBool true)) = JBool true
  /\ comparableEqual TBoolean
       (storedRoundTrip (Converted TBoolean (JBool true) (JBool true)))
       (JBool true) = true.
Proof.
  split; [reflexivity|].
  exact (roundtrip_by_type (JBool true) (Settings "auto" None)
           (Converted TBoolean (JBool true) (JBool true)) eq_refl).
Defined.

(** C3, counterexample: the object [{ a: 1 }] is converted to the type
    json with its serialized text as comparable key; the round trip gives
    the object back, which is not the key, nor equal to it under the
    equality of the type json. *)
Lemma roundtrip_json_counterexample :
  exists c,
    prepareValue (JObj [("a", JNum 1%float)]) (Settings "auto" None) = Ok c
    /\ cv_type c = TJson
    /\ storedRoundTrip c = JObj [("a", JNum 1%float)]
    /\ storedRoundTrip c <> cv_comparable c
    /\ comparableEqual TJson (storedRoundTrip c) (cv_comparable c) = false.
Proof.
  eexists. split; [reflexivity|].
  split; [reflexivity|].
  split; [by vm_compute|].
  split; [by vm_compute|by vm_compute].
Qed.

(** With rounding to 400 digits the factor is infinite and the converted
    number is NaN, which no number equals: the round trip of the type
    number needs a finite value. *)
Example roundtrip_number_not_finite :
  exists c,
    prepareValue (JNum 1%float) (Settings "auto" (Some 400%float)) = Ok c
    /\ cv_type c = TNumber
    /\ comparableEqual TNumber (storedRoundTrip c) (cv_comparable c) = false.
Proof. eexists. split; [reflexivity|]. split; [reflexivity|by vm_compute]. Qed.

End RoundTripExamples.
End NormalizerFacts.

(** ** Skip Policy Engine *)

Module PolicyFacts.
Import NumberFacts NormalizerFacts.

Section Filters.
Context `{Builtins}.

(** On a relog trigger the spacing filter and the zero/null filter are
    off. *)
Lemma relog_bypasses (e : entry) (c : converted) (state : sample) :
  blockTimeActive e state true = false /\ ignoreZeroHit e c true = false.
Proof.
  unfold blockTimeActive, ignoreZeroHit. split; [|reflexivity].
  by destruct (lastStoredState e).
Qed.

(** On a relog trigger the range clamp is the only filter that skips. *)
Lemma relog_skips_only_by_range (e : entry) (c : converted) (state : sample) :
  shouldSkipValue e c state true = (belowThreshold e c || aboveThreshold e c, e).
Proof.
  unfold shouldSkipValue.
  destruct (relog_bypasses e c state) as [-> ->].
  destruct (belowThreshold e c); [done|].
  by destruct (aboveThreshold e c).
Qed.

(** C7: a numeric sample below the configured lower bound, or above the
    configured upper bound, is skipped, whether or not the evaluation is
    a relog trigger, and the entry is left as it is; the spacing filter
    and the zero/null filter are off on a relog trigger. *)
Theorem range_clamp_unconditional (e : entry) (c : converted)
    (state : sample) (timerRelog : bool) :
  cv_type c = TNumber ->
  (exists bound, ignoreBelowNumber (e_config e) = Some bound
                 /\ num_lt (toNumber (cv_comparable c)) bound = true)
  \/ (exists bound, ignoreAboveNumber (e_config e) = Some bound
                    /\ num_gt (toNumber (cv_comparable c)) bound = true) ->
  shouldSkipValue e c state timerRelog = (true, e)
  /\ blockTimeActive e state true = false
  /\ ignoreZeroHit e c true = false.
Proof.
  intros Ht Hrange.
  assert (Hclamp : belowThreshold e c || aboveThreshold e c = true).
  { unfold belowThreshold, aboveThreshold. rewrite Ht. simpl.
    destruct Hrange as [(b & -> & ->)|(b & -> & ->)]; [done|].
    by rewrite orb_true_r. }
  split; [|apply relog_bypasses].
  unfold shouldSkipValue.
  destruct (blockTimeActive e state timerRelog); [done|].
  destruct (ignoreZeroHit e c timerRelog); [done|].
  destruct (belowThreshold e c); [done|].
  destruct (aboveThreshold e c); [done|discriminate].
Qed.

(** C4: the change detector.  For a point whose last stored value is a
    number and an incoming number, the sample counts as unchanged exactly
    when the absolute difference of the two is below [1e-12], or, with a
    dead-band [changesMinDelta > 0], below the dead-band; for the other
    types it counts as unchanged exactly when the comparable keys are
    strictly equal.  With a dead-band of 0.5 and a stored 10.0, an
    incoming 10.3 is unchanged and an incoming 10.6 is changed. *)
Theorem change_detector (e : entry) (c : converted) (stored : storedState) :
  lastStoredState e = Some stored ->
  ls_type stored = cv_type c ->
  (cv_type c = TNull -> cv_comparable c = JNull) ->
  match cv_type c with
  | TNumber =>
      forall last incoming : float,
        lastStoredComparable e = JNum last ->
        cv_comparable c = JNum incoming ->
        let distance := PrimFloat.abs (PrimFloat.sub incoming last) in
        valueChanged e c
        = negb (num_lt distance NUMERIC_EPSILON
                || (num_gt (changesMinDelta (e_config e)) 0%float
                    && num_lt distance (changesMinDelta (e_config e))))
  | _ =>
      valueChanged e c
      = negb (strict_eq (lastStoredComparable e) (cv_comparable c))
  end
  /\ valueChanged deadbandEntry (numberValue 10.3%float) = false
  /\ valueChanged deadbandEntry (numberValue 10.6%float) = true.
Proof.
  intros Hs Ht Hnull. split; [|by vm_compute].
  unfold valueChanged, valuesEqual. rewrite Hs, Ht, vtype_eqb_refl. simpl.
  destruct (cv_type c) eqn:Hc; simpl;
    try (by rewrite andb_false_r).
  - intros last incoming Hl Hi. rewrite Hl, Hi. simpl. unfold js_sub. simpl.
    rewrite (abs_sub_comm last incoming).
    destruct (num_lt _ NUMERIC_EPSILON); simpl; [done|].
    by destruct (_ && _).
  - rewrite andb_false_r. rewrite Hnull by done.
    by destruct (lastStoredComparable e).
Qed.

(** C6 (as amended): with change-only suppression, a re-log interval of
    [r > 0] seconds and a prior stored sample, an unchanged sample that
    is not a relog trigger, that the spacing, zero/null and range filters
    let pass, and whose timestamp is at least [r * 1000] milliseconds
    after the time of the last stored sample, is not skipped; the
    decision leaves the entry as it is, and the sample still counts as
    unchanged. *)
Theorem relog_interval_override (e : entry) (c : converted) (state : sample)
    (stored : storedState) :
  changesOnly (e_config e) = true ->
  num_gt (changesRelogInterval (e_config e)) 0%float = true ->
  lastStoredState e = Some stored ->
  valueChanged e c = false ->
  num_ge (PrimFloat.sub (s_ts state) (lastLogTime e))
         (PrimFloat.mul (changesRelogInterval (e_config e)) 1000%float) = true ->
  blockTimeActive e state false = false ->
  ignoreZeroHit e c false = false ->
  belowThreshold e c = false ->
  aboveThreshold e c = false ->
  shouldSkipValue e c state false = (false, e)
  /\ valueChanged (shouldSkipValue e c state false).2 c = false.
Proof.
  intros Hco Hr Hs Hv Hts Hb Hz Hlo Hhi.
  pose proof (positive_times_1000 _ Hr) as Hms. fold (num_gt
    (PrimFloat.mul (changesRelogInterval (e_config e)) 1000%float) 0%float) in Hms.
  assert (Hskip : shouldSkipValue e c state false = (false, e)).
  { unfold shouldSkipValue. rewrite Hb, Hz, Hlo, Hhi, Hco, Hs, Hv. simpl.
    rewrite ?bool_decide_eq_true_2 by eauto.
    unfold relogDue. rewrite Hr, Hms, Hts. by rewrite orb_true_r. }
  by rewrite Hskip.
Qed.

(** After a write the time of the last log is the timestamp of the
    stored sample. *)
Lemma storeCommit_lastLogTime (e : entry) (c : converted) (state : sample) :
  lastLogTime (storeCommit e c state) = s_ts state
  /\ (ls_ts <$> lastStoredState (storeCommit e c state)) = Some (s_ts state).
Proof. done. Qed.

End Filters.

Section FilterExamples.
#[local] Existing Instance Reference.ref_builtins.

(** C7, witness: with a lower bound of 5, the number 3 is skipped on a
    relog trigger. *)
Lemma range_clamp_unconditional_witness :
  shouldSkipValue clampEntry (numberValue 3%float)
    (numberSample 3%float 62000%float) true
  = (true, clampEntry).
Proof.
  apply (range_clamp_unconditional clampEntry (numberValue 3%float)
           (numberSample 3%float 62000%float) true eq_refl).
  left. exists 5%float. split; reflexivity.
Defined.

(** C4, witness: the dead-band example, read off the theorem. *)
Lemma change_detector_witness :
  valueChanged deadbandEntry (numberValue 10.3%float)
  = negb (num_lt (PrimFloat.abs (PrimFloat.sub 10.3 10)) NUMERIC_EPSILON
          || (num_gt 0.5 0 && num_lt (PrimFloat.abs (PrimFloat.sub 10.3 10)) 0.5)).
Proof.
  refine (proj1 (change_detector deadbandEntry (numberValue 10.3%float)
                   (StoredState (JNum 10%float) 1000%float 1000%float TNumber
                      (JBool true) (JNum 0%float) (JStr ""))
                   eq_refl eq_refl _)
                10%float 10.3%float eq_refl eq_refl).
  discriminate.
Defined.

(** C6, witness: the re-log example of the specification, 61 seconds
    after the stored sample. *)
Lemma relog_interval_override_witness :
  shouldSkipValue (relogEntry 0%float) (numberValue 10%float)
    (numberSample 10%float 62000%float) false
  = (false, relogEntry 0%float).
Proof.
  by apply (relog_interval_override (relogEntry 0%float) (numberValue 10%float)
              (numberSample 10%float 62000%float)
              (StoredState (JNum 10%float) 1000%float 1000%float TNumber
                 (JBool true) (JNum 0%float) (JStr ""))).
Defined.

(** C6, counterexample: the same point with a minimum spacing of 120
    seconds.  The sample is unchanged and arrives 61 seconds after the
    stored one, past the re-log interval of 60 seconds, and the spacing
    filter skips it. *)
Lemma relog_override_counterexample :
  changesOnly (e_config (relogEntry 120000%float)) = true
  /\ num_gt (changesRelogInterval (e_config (relogEntry 120000%float))) 0%float = true
  /\ is_Some (lastStoredState (relogEntry 120000%float))
  /\ valueChanged (relogEntry 120000%float) (numberValue 10%float) = false
  /\ num_ge (PrimFloat.sub 62000%float (lastLogTime (relogEntry 120000%float)))
            (PrimFloat.mul 60%float 1000%float) = true
  /\ shouldSkipValue (relogEntry 120000%float) (numberValue 10%float)
       (numberSample 10%float 62000%float) false
     = (true, relogEntry 120000%float).
Proof. repeat split; try by vm_compute. by eexists. Qed.

End FilterExamples.
End PolicyFacts.

(** ** The write path *)

Module PipelineFacts.

Section Push.
Context `{Builtins}.

Lemma ensureEntryForId_buffer (h : host) (a : adapter) (id : string) :
  buffer (ensureEntryForId h a id).2 = buffer a.
Proof. unfold ensureEntryForId. by destruct (tracked a !! id). Qed.

Lemma ensureTableFor_buffer (h : host) (a a' : adapter) (id : string)
    (t : vtype) (info : tableInfo) :
  ensureTableFor h a id t = Ok (info, a') -> buffer a' = buffer a.
Proof.
  unfold ensureTableFor, ensureTableFor_begin, ensureTableFor_finish. intros Hok.
  repeat case_match; by simplify_eq.
Qed.

(** The preparation of a sample leaves the queue as it is. *)
Lemma pushHistory_prepare_buffer (h : host) (a : adapter) (id : string)
    (state : rawState) (allowCreate : bool) :
  match pushHistory_prepare h a id state allowCreate with
  | inl (_, a') => buffer a' = buffer a
  | inr p => buffer (p_adapter p) = buffer a
  end.
Proof.
  unfold pushHistory_prepare.
  pose proof (ensureEntryForId_buffer h a id) as He.
  destruct (tracked a !! id) as [e|] eqn:Hid; [|destruct allowCreate; [|done]].
  - repeat case_match; simplify_eq/=; try done.
    all: by match goal with
            | Ht : ensureTableFor _ _ _ _ = Ok _ |- _ =>
                apply ensureTableFor_buffer in Ht
            end.
  - destruct (ensureEntryForId h a id) as [e a1]. simpl in He.
    repeat case_match; simplify_eq/=; try done.
    all: by match goal with
            | Ht : ensureTableFor _ _ _ _ = Ok _ |- _ =>
                apply ensureTableFor_buffer in Ht; simpl in Ht; congruence
            end.
Qed.

Lemma buildRow_valid (id : string) (info : tableInfo) (c : converted)
    (state : sample) :
  Date_valid (s_ts state) = true ->
  exists r, buildRow id info c state = Ok r.
Proof.
  intros Hv. unfold buildRow, formatDateTime. rewrite Hv. eauto.
Qed.

(** C5 (as amended): a sample that reached the policy engine.  When the
    engine accepts it and its timestamp is a valid date, exactly one row,
    the one of [buildRow], is appended to the queue; when the engine
    skips it, the queue is left as it is, and when the change-only filter
    is the one that skipped it (no earlier filter did) and
    [disableSkippedValueLogging] is false, the last-skipped record of the
    point is that sample. *)
Theorem row_count_postcondition (h : host) (a : adapter) (id : string)
    (state : rawState) (timerRelog allowCreate : bool) (p : prepared) :
  pushHistory_prepare h a id state allowCreate = inr p ->
  let decision := shouldSkipValue (p_entry p) (p_converted p) (p_state p) timerRelog in
  let result := pushHistory_queue h a id state timerRelog allowCreate in
  (decision.1 = false -> Date_valid (s_ts (p_state p)) = true ->
   exists r full,
     buildRow id (p_table p) (p_converted p) (p_state p) = Ok r
     /\ result.1 = Queued r (p_converted p) (p_state p) full
     /\ buffer result.2 = buffer a ++ [r])
  /\ (decision.1 = true ->
      result.1 = Skipped
      /\ buffer result.2 = buffer a
      /\ tracked result.2 !! id = Some decision.2
      /\ (blockTimeActive (p_entry p) (p_state p) timerRelog = false ->
          ignoreZeroHit (p_entry p) (p_converted p) timerRelog = false ->
          belowThreshold (p_entry p) (p_converted p) = false ->
          aboveThreshold (p_entry p) (p_converted p) = false ->
          disableSkippedValueLogging (e_config (p_entry p)) = false ->
          lastSkippedState decision.2 = Some (p_state p))).
Proof.
  intros Hp decision result.
  pose proof (pushHistory_prepare_buffer h a id state allowCreate) as Hb.
  rewrite Hp in Hb.
  subst result. unfold pushHistory_queue. rewrite Hp.
  unfold pushHistory_decide. fold decision.
  destruct decision as [skip e'] eqn:Hd. simpl. split.
  - intros -> Hv.
    destruct (buildRow_valid id (p_table p) (p_converted p) (p_state p) Hv) as [r Hr].
    rewrite Hr. simpl. exists r. eexists. split; [done|]. split; [done|].
    by rewrite <- Hb.
  - intros ->. simpl. split; [done|]. split; [done|].
    split; [by rewrite lookup_insert_eq|].
    intros H1 H2 H3 H4 H5. subst decision. unfold shouldSkipValue in Hd.
    rewrite H1, H2, H3, H4, H5 in Hd.
    repeat case_match; by simplify_eq.
Qed.

(** C10: a sample whose value is [undefined].  [pushHistory] returns
    before the conversion and the policy evaluation: no row is queued, so
    the part that stores the sample and arms the relog timer never runs,
    and the adapter is the one the lookup of the entry left: unchanged
    when the identifier is tracked or must not be created, and with the
    entry just created by [ensureEntryForId], untouched, otherwise. *)
Theorem pushHistory_undefined (h : host) (a : adapter) (id : string)
    (state : rawState) (timerRelog allowCreate : bool) :
  raw_val state = JUndefined ->
  let result := pushHistory_queue h a id state timerRelog allowCreate in
  (result.1 = ValueUndefined \/ result.1 = NotTracked)
  /\ buffer result.2 = buffer a
  /\ (forall e, tracked a !! id = Some e ->
       result.2 = a /\ tracked result.2 !! id = Some e)
  /\ (tracked a !! id = None ->
      result.2 = if allowCreate then (ensureEntryForId h a id).2 else a).
Proof.
  intros Hv result. subst result.
  unfold pushHistory_queue, pushHistory_prepare.
  destruct (tracked a !! id) as [e|] eqn:Hid.
  - unfold cloneState. simpl. rewrite Hv. simpl.
    split; [by left|]. split; [done|]. split; [|done].
    intros e' [= <-]. by split.
  - destruct allowCreate; simpl.
    + pose proof (ensureEntryForId_buffer h a id) as Hb.
      destruct (ensureEntryForId h a id) as [e a1] eqn:He.
      unfold cloneState. simpl. rewrite Hv. simpl.
      split; [by left|]. split; [done|]. by split.
    + split; [by right|]. split; [done|]. by split.
Qed.

End Push.

Section PushExamples.
#[local] Existing Instance Reference.ref_builtins.

(** C5, witness: the number 12 after a stored 10 is queued as one row. *)
Lemma row_count_postcondition_witness :
  exists r full,
    (pushHistory_queue quietHost (pointAdapter deadbandEntry) "point"
       (rawSample (JNum 12%float) (JNum 62000%float)) false false).1
    = Queued r (numberValue 12%float)
        (cloneState quietHost (rawSample (JNum 12%float) (JNum 62000%float))) full
    /\ buffer (pushHistory_queue quietHost (pointAdapter deadbandEntry) "point"
                 (rawSample (JNum 12%float) (JNum 62000%float)) false false).2
       = [] ++ [r].
Proof.
  destruct (row_count_postcondition quietHost (pointAdapter deadbandEntry) "point"
              (rawSample (JNum 12%float) (JNum 62000%float)) false false
              _ eq_refl) as [Hq _].
  destruct (Hq eq_refl eq_refl) as (r & full & _ & Ho & Hb).
  exists r, full. split; [exact Ho|exact Hb].
Defined.

(** C5, counterexample: a sample whose timestamp is [Infinity].  The
    policy engine accepts it (nothing is stored yet for the point), and
    [buildRow] throws on the date, so no row is queued. *)
Lemma row_count_counterexample :
  exists p,
    pushHistory_prepare quietHost (pointAdapter (ephemeralEntry "point")) "point"
      (rawSample (JNum 1%float) (JNum PrimFloat.infinity)) false = inr p
    /\ (shouldSkipValue (p_entry p) (p_converted p) (p_state p) false).1 = false
    /\ (pushHistory_queue quietHost (pointAdapter (ephemeralEntry "point")) "point"
          (rawSample (JNum 1%float) (JNum PrimFloat.infinity)) false false).1
       = RowFailed "Invalid time value"
    /\ buffer (pushHistory_queue quietHost (pointAdapter (ephemeralEntry "point"))
                 "point" (rawSample (JNum 1%float) (JNum PrimFloat.infinity))
                 false false).2
       = [].
Proof.
  eexists. split; [by vm_compute|]. repeat split; by vm_compute.
Qed.

(** C10, witness: an [undefined] value for a tracked point with a stored
    sample and an armed timer. *)
Lemma pushHistory_undefined_witness :
  (pushHistory_queue quietHost (pointAdapter (relogEntry 0%float)) "point"
     (rawSample JUndefined (JNum 62000%float)) false true).2
  = pointAdapter (relogEntry 0%float)
  /\ relogTimeout (relogEntry 0%float) = Some 60000%float.
Proof.
  split; [|reflexivity].
  apply (pushHistory_undefined quietHost (pointAdapter (relogEntry 0%float)) "point"
           (rawSample JUndefined (JNum 62000%float)) false true eq_refl
         ) with (e := relogEntry 0%float).
  reflexivity.
Defined.

End PushExamples.
End PipelineFacts.

(** ** History Reconstructor: the on-change reduction *)

Module HistoryFacts.

Section Runs.
Context {A : Type} (key : A -> string).

Lemma maximalRuns_cons (x : A) (l : list A) :
  exists xs runs, maximalRuns key (x :: l) = (x, xs) :: runs.
Proof.
  simpl. destruct (maximalRuns key l) as [|[y ys] runs]; [by eauto|].
  destruct (String.eqb (key x) (key y)); eauto.
Qed.

(** The runs are a division of the sequence. *)
Lemma maximalRuns_flatten (l : list A) : flattenRuns (maximalRuns key l) = l.
Proof.
  induction l as [|x l IH]; [done|]. simpl.
  destruct (maximalRuns key l) as [|[y ys] runs]; simpl in *.
  - by rewrite <- IH.
  - destruct (String.eqb (key x) (key y)); by rewrite <- IH.
Qed.

(** The entries of a run have the key of its first entry. *)
Lemma maximalRuns_uniform (l : list A) :
  Forall (fun run : A * list A => Forall (fun x => key x = key run.1) run.2)
         (maximalRuns key l).
Proof.
  induction l as [|x l IH]; simpl; [constructor|].
  destruct (maximalRuns key l) as [|[y ys] runs].
  - repeat constructor.
  - inversion IH as [|? ? Hy Hruns]; subst. simpl in Hy.
    destruct (String.eqb (key x) (key y)) eqn:E.
    + apply String.eqb_eq in E. constructor; [|done]. simpl.
      constructor; [done|]. eapply Forall_impl; [exact Hy|].
      intros z Hz. simpl in Hz. congruence.
    + constructor; [constructor|]. by constructor.
Qed.

(** The runs are maximal: two consecutive runs have different keys. *)
Lemma maximalRuns_adjacent (l : list A) (i : nat) (r1 r2 : A * list A) :
  maximalRuns key l !! i = Some r1 ->
  maximalRuns key l !! S i = Some r2 ->
  key r1.1 <> key r2.1.
Proof.
  revert i r1 r2. induction l as [|x l IH]; intros i r1 r2; simpl; [done|].
  destruct (maximalRuns key l) as [|[y ys] runs] eqn:E; [done|].
  destruct (String.eqb (key x) (key y)) eqn:Ek.
  - destruct i as [|i]; simpl.
    + intros [= <-] H2. simpl.
      apply String.eqb_eq in Ek. rewrite Ek.
      by apply (IH 0 (y, ys) r2).
    + intros H1 H2. by apply (IH (S i) r1 r2).
  - destruct i as [|i]; simpl.
    + intros [= <-] [= <-]. simpl. by apply String.eqb_neq.
    + intros H1 H2. by apply (IH i r1 r2).
Qed.

Lemma run_heads_sublist (runs : list (A * list A)) :
  sublist (map fst runs) (flattenRuns runs).
Proof.
  induction runs as [|[x xs] runs IH]; [constructor|].
  unfold flattenRuns. simpl. apply sublist_skip.
  by apply sublist_inserts_l.
Qed.

End Runs.

Section Reduce.
Context `{Builtins}.

(** The loop of [reduceOnChange] after an entry [x]: it appends the first
    entries of the runs that follow the run of [x]. *)
Lemma reduce_loop_runs (rest : list historyEntry) (x : historyEntry)
    (acc : list historyEntry) :
  (fold_left reduce_step rest (acc, Some (makeComparableKey (h_val x)))).1
  = acc ++ tail (map fst (maximalRuns (fun e => makeComparableKey (h_val e)) (x :: rest))).
Proof.
  revert x acc. induction rest as [|y rest IH]; intros x acc.
  - simpl. by rewrite app_nil_r.
  - destruct (maximalRuns_cons (fun e => makeComparableKey (h_val e)) y rest)
      as (ys & runs & Hy).
    change (maximalRuns _ (x :: y :: rest))
      with (match maximalRuns (fun e => makeComparableKey (h_val e)) (y :: rest) with
            | (y', ys') :: runs' =>
                if String.eqb (makeComparableKey (h_val x)) (makeComparableKey (h_val y'))
                then (x, y' :: ys') :: runs'
                else (x, []) :: (y', ys') :: runs'
            | [] => [(x, [])]
            end).
    rewrite Hy. simpl fold_left. unfold reduce_step at 2. simpl.
    rewrite (String.eqb_sym (makeComparableKey (h_val y))).
    destruct (String.eqb (makeComparableKey (h_val x)) (makeComparableKey (h_val y))) eqn:E;
      simpl.
    + apply String.eqb_eq in E. rewrite E, IH, Hy. done.
    + rewrite IH, Hy. simpl. by rewrite <- app_assoc.
Qed.

Lemma reduceOnChange_runs (entries : list historyEntry) :
  reduceOnChange entries
  = map fst (maximalRuns (fun e => makeComparableKey (h_val e)) entries).
Proof.
  destruct entries as [|x rest]; [done|].
  unfold reduceOnChange.
  change (fold_left reduce_step (x :: rest) ([], None))
    with (fold_left reduce_step rest ([x], Some (makeComparableKey (h_val x)))).
  cbn [length Nat.eqb]. rewrite reduce_loop_runs.
  by destruct (maximalRuns_cons (fun e => makeComparableKey (h_val e)) x rest)
    as (xs & runs & ->).
Qed.

End Reduce.

(** C8: the on-change reduction.  For every sequence of entries, taken
    with the division of the sequence into the maximal runs of
    consecutive entries with equal comparable keys, [reduceOnChange]
    returns exactly the first entry of each run, in the order of the
    sequence (it is a subsequence of it); the values 1, 1, 2, 2, 2, 1 are
    reduced to 1, 2, 1. *)
Theorem reduceOnChange_first_of_runs `{Builtins} (entries : list historyEntry) :
  let key := fun e : historyEntry => makeComparableKey (h_val e) in
  let runs := maximalRuns key entries in
  flattenRuns runs = entries
  /\ Forall (fun run : historyEntry * list historyEntry =>
              Forall (fun x => key x = key run.1) run.2) runs
  /\ (forall i r1 r2, runs !! i = Some r1 -> runs !! S i = Some r2 ->
       key r1.1 <> key r2.1)
  /\ reduceOnChange entries = map fst runs
  /\ sublist (reduceOnChange entries) entries
  /\ map h_val
       (@reduceOnChange Reference.ref_builtins
          (historyFrom 0%float [1; 1; 2; 2; 2; 1]%float))
     = [JNum 1%float; JNum 2%float; JNum 1%float].
Proof.
  intros key runs.
  split; [apply maximalRuns_flatten|].
  split; [apply maximalRuns_uniform|].
  split; [apply maximalRuns_adjacent|].
  split; [apply reduceOnChange_runs|].
  split; [|by vm_compute].
  rewrite reduceOnChange_runs.
  rewrite <- (maximalRuns_flatten key entries) at 2.
  apply run_heads_sublist.
Qed.

End HistoryFacts.

(** ** Table names *)

Module TableNameFacts.

(** *** Characters and runs *)

Lemma chars_of_string_of (l : list ascii) : chars_of (string_of l) = l.
Proof. apply String.list_ascii_of_string_of_list_ascii. Qed.

Lemma string_of_inj (l1 l2 : list ascii) : string_of l1 = string_of l2 -> l1 = l2.
Proof.
  intros Heq. rewrite <- (chars_of_string_of l1), <- (chars_of_string_of l2).
  by rewrite Heq.
Qed.

Lemma is_digit_word (c : ascii) : is_digit c = true -> is_word c = true.
Proof. unfold is_word. intros ->. by rewrite orb_true_r. Qed.

Lemma is_digit_not_underscore (c : ascii) :
  is_digit c = true -> is_underscore c = false.
Proof.
  unfold is_digit, is_underscore. intros Hd.
  destruct (Ascii.eqb c "_") eqn:E; [|done].
  apply Ascii.eqb_eq in E. subst c. by vm_compute in Hd.
Qed.

Lemma replace_runs_Forall (P Q : ascii -> bool) (b : bool) (l : list ascii) :
  Q "_"%char = true ->
  (forall c, c ∈ l -> P c = false -> Q c = true) ->
  Forall (fun c => Q c = true) (replace_runs P b l).
Proof.
  intros Hu. revert b. induction l as [|c l IH]; intros b Hl; simpl; [constructor|].
  assert (Hrest : forall c', c' ∈ l -> P c' = false -> Q c' = true).
  { intros c' Hin. apply Hl. by right. }
  destruct (P c) eqn:E.
  - destruct b; [by apply IH|]. constructor; [done|by apply IH].
  - constructor; [apply Hl; [by left|done]|by apply IH].
Qed.

Lemma drop_while_suffix (P : ascii -> bool) (l : list ascii) :
  drop_while P l `suffix_of` l.
Proof.
  induction l as [|c l IH]; simpl; [done|].
  destruct (P c); [by apply suffix_cons_r|done].
Qed.

Lemma drop_while_head (P : ascii -> bool) (l : list ascii) (c : ascii)
    (r : list ascii) :
  drop_while P l = c :: r -> P c = false.
Proof.
  induction l as [|x l IH]; simpl; [done|].
  destruct (P x) eqn:E; [done|]. by intros [= <- <-].
Qed.

Lemma drop_while_end_prefix (P : ascii -> bool) (l : list ascii) :
  drop_while_end P l `prefix_of` l.
Proof.
  induction l as [|c l IH]; simpl; [done|].
  destruct (drop_while_end P l) as [|x r] eqn:E.
  - destruct (P c); [apply prefix_nil|]. by apply prefix_cons, prefix_nil.
  - by apply prefix_cons.
Qed.

(** A first character outside the class survives the stripping. *)
Lemma drop_while_end_head (P : ascii -> bool) (c : ascii) (l : list ascii) :
  P c = false -> exists r, drop_while_end P (c :: l) = c :: r.
Proof.
  intros Hc. simpl. destruct (drop_while_end P l); [|by eauto].
  rewrite Hc. eauto.
Qed.

Lemma Forall_prefix (Q : ascii -> Prop) (l1 l2 : list ascii) :
  l1 `prefix_of` l2 -> Forall Q l2 -> Forall Q l1.
Proof. intros [k ->] Hall. by apply Forall_app in Hall as [? _]. Qed.

Lemma Forall_suffix (Q : ascii -> Prop) (l1 l2 : list ascii) :
  l1 `suffix_of` l2 -> Forall Q l2 -> Forall Q l1.
Proof. intros [k ->] Hall. by apply Forall_app in Hall as [_ ?]. Qed.

Lemma prefix_head (l1 l2 : list ascii) (c : ascii) (r : list ascii) :
  l1 `prefix_of` l2 -> l1 = c :: r -> exists r', l2 = c :: r'.
Proof. intros [k ->] ->. simpl. eauto. Qed.

Lemma take_prefix (n : nat) (l : list ascii) : take n l `prefix_of` l.
Proof. exists (drop n l). by rewrite take_drop. Qed.

(** *** [sanitizeDatapointIdentifier] and [sanitizeTablePrefix] *)

Lemma sanitized_core_word (P : ascii -> bool) (l : list ascii) :
  word_chars l -> word_chars (strip_trailing (strip_leading l)).
Proof.
  intros Hl. unfold strip_trailing, strip_leading.
  eapply Forall_prefix; [apply drop_while_end_prefix|].
  eapply Forall_suffix; [apply drop_while_suffix|done].
Qed.

Lemma replace_non_word_chars (l : list ascii) :
  word_chars (replace_runs (fun c => negb (is_word c)) false l).
Proof.
  apply replace_runs_Forall; [done|].
  intros c _ Hc. by apply negb_false_iff in Hc.
Qed.

Lemma collapse_word_chars (l : list ascii) :
  word_chars l -> word_chars (replace_runs is_underscore false l).
Proof.
  intros Hl. apply replace_runs_Forall; [done|].
  intros c Hin _. unfold word_chars in Hl. rewrite Forall_forall in Hl. by apply Hl.
Qed.

(** The sanitized identifier: permitted characters only, not empty, a
    first character that is not a digit, and at most 48 characters. *)
Lemma sanitizeDatapointIdentifier_spec (id : string) :
  word_chars (sanitizeDatapointIdentifier id)
  /\ (exists c r, sanitizeDatapointIdentifier id = c :: r /\ is_digit c = false)
  /\ length (sanitizeDatapointIdentifier id) <= 48.
Proof.
  unfold sanitizeDatapointIdentifier.
  set (core := strip_trailing (strip_leading _)).
  assert (Hcore : word_chars core).
  { apply (sanitized_core_word is_underscore), collapse_word_chars, replace_non_word_chars. }
  set (s1 := if (length core =? 0)%nat then chars_of "state" else core).
  assert (H1 : word_chars s1 /\ s1 <> []).
  { subst s1. destruct core as [|c r]; simpl; [|done].
    split; [|done]. by repeat constructor. }
  destruct H1 as [Hw1 Hne1].
  set (s2 := match s1 with
             | c :: _ => if is_digit c then chars_of "s_" ++ s1 else s1
             | [] => s1
             end).
  assert (H2 : word_chars s2 /\ exists c r, s2 = c :: r /\ is_digit c = false).
  { subst s2. destruct s1 as [|c r]; [done|].
    destruct (is_digit c) eqn:Hd.
    - split; [|by eexists _, _].
      apply Forall_app. split; [by repeat constructor|done].
    - split; [done|by eexists _, _]. }
  destruct H2 as [Hw2 (c & r & Hs2 & Hd)].
  unfold slice0. destruct (48 <? length s2)%nat eqn:Hlen.
  - split; [eapply Forall_prefix; [apply take_prefix|done]|].
    split; [|rewrite length_take; lia].
    rewrite Hs2. simpl. by eexists _, _.
  - apply Nat.ltb_ge in Hlen. split; [done|]. split; [by eexists _, _|done].
Qed.

(** A table prefix as [connectToClickHouse] sets it: permitted characters
    only, not empty, and a first character that is not an underscore. *)
Lemma sanitizeTablePrefix_spec (name : string) :
  word_chars (chars_of (sanitizeTablePrefix name))
  /\ exists c r, chars_of (sanitizeTablePrefix name) = c :: r
                 /\ is_underscore c = false.
Proof.
  assert (Hh : word_chars (chars_of "history")
               /\ exists c r, chars_of "history" = c :: r /\ is_underscore c = false).
  { split; [by repeat constructor|by eexists _, _]. }
  unfold sanitizeTablePrefix.
  destruct (String.eqb name ""); [done|].
  set (replaced := replace_runs _ false _).
  destruct (strip_trailing (strip_leading replaced)) as [|c r] eqn:E; [done|].
  cbn [length Nat.eqb]. rewrite chars_of_string_of. rewrite <- E. split.
  - apply (sanitized_core_word is_underscore), replace_non_word_chars.
  - rewrite E. exists c, r. split; [done|].
    unfold strip_trailing, strip_leading in E.
    destruct (prefix_head _ _ c r (drop_while_end_prefix _ _) E) as [r' Hr'].
    by apply drop_while_head in Hr'.
Qed.

(** *** The decimal digits of the counter *)

Lemma decimal_fuel_enough (f1 f2 n : nat) :
  n < f1 -> n < f2 -> decimal_fuel f1 n = decimal_fuel f2 n.
Proof.
  revert f2 n. induction f1 as [|f1 IH]; intros f2 n H1 H2; [lia|].
  destruct f2 as [|f2]; [lia|]. cbn [decimal_fuel].
  destruct (n <? 10)%nat eqn:E; [done|].
  apply Nat.ltb_ge in E.
  assert (n / 10 < n) by (apply Nat.div_lt; lia).
  f_equal. apply IH; lia.
Qed.

Lemma decimal_eq (n : nat) :
  decimal n = if (n <? 10)%nat then [ascii_of_nat (48 + n)]
              else decimal (n / 10) ++ [ascii_of_nat (48 + n mod 10)].
Proof.
  unfold decimal at 1. cbn [decimal_fuel].
  destruct (n <? 10)%nat eqn:E; [done|].
  apply Nat.ltb_ge in E.
  assert (n / 10 < n) by (apply Nat.div_lt; lia).
  f_equal. unfold decimal. apply decimal_fuel_enough; lia.
Qed.

Lemma digit_char (d : nat) :
  d < 10 -> nat_of_ascii (ascii_of_nat (48 + d)) = 48 + d.
Proof. intros Hd. apply nat_ascii_embedding. lia. Qed.

Lemma digit_is_digit (d : nat) : d < 10 -> is_digit (ascii_of_nat (48 + d)) = true.
Proof.
  intros Hd. unfold is_digit. rewrite digit_char by done.
  apply andb_true_iff. split; apply Nat.leb_le; lia.
Qed.

Lemma decimal_digits (n : nat) : Forall (fun c => is_digit c = true) (decimal n).
Proof.
  induction n as [n IH] using lt_wf_ind. rewrite decimal_eq.
  destruct (n <? 10)%nat eqn:E.
  - apply Nat.ltb_lt in E. constructor; [by apply digit_is_digit|constructor].
  - apply Nat.ltb_ge in E. apply Forall_app. split.
    + apply IH. apply Nat.div_lt; lia.
    + constructor; [|constructor]. apply digit_is_digit.
      apply Nat.mod_upper_bound. lia.
Qed.

(** The number that a list of digits denotes. *)
Lemma decimal_value (n : nat) :
  fold_left (fun acc c => 10 * acc + (nat_of_ascii c - 48)) (decimal n) 0 = n.
Proof.
  induction n as [n IH] using lt_wf_ind. rewrite decimal_eq.
  destruct (n <? 10)%nat eqn:E.
  - apply Nat.ltb_lt in E. cbn [fold_left]. rewrite digit_char by done. lia.
  - apply Nat.ltb_ge in E. rewrite fold_left_app. cbn [fold_left].
    rewrite IH by (apply Nat.div_lt; lia).
    rewrite digit_char by (apply Nat.mod_upper_bound; lia).
    pose proof (Nat.div_mod_eq n 10). lia.
Qed.

Lemma decimal_inj (j k : nat) : decimal j = decimal k -> j = k.
Proof.
  intros Heq. rewrite <- (decimal_value j), <- (decimal_value k).
  by rewrite Heq.
Qed.

Lemma decimal_length (d n : nat) :
  1 <= d -> n < 10 ^ d -> length (decimal n) <= d.
Proof.
  revert n. induction d as [|d IH]; intros n Hd Hn; [lia|].
  rewrite decimal_eq. destruct (n <? 10)%nat eqn:E; [cbn [length]; lia|].
  apply Nat.ltb_ge in E. rewrite length_app. cbn [length].
  destruct d as [|d]; [rewrite Nat.pow_1_r in Hn; lia|].
  assert (n / 10 < 10 ^ S d).
  { apply Nat.Div0.div_lt_upper_bound. by rewrite <- Nat.pow_succ_r'. }
  specialize (IH (n / 10)). lia.
Qed.

(** *** The candidates of [generateTableName] *)

Lemma app_pivot_inj (x : ascii) (l1 l2 r1 r2 : list ascii) :
  x ∉ l1 -> x ∉ l2 -> l1 ++ x :: r1 = l2 ++ x :: r2 -> l1 = l2.
Proof.
  revert l2. induction l1 as [|a l1 IH]; intros [|b l2] H1 H2 Heq; simpl in *.
  - done.
  - injection Heq as -> _. exfalso. apply H2. by left.
  - injection Heq as -> _. exfalso. apply H1. by left.
  - injection Heq as -> Heq. f_equal. apply IH; [| |done].
    + intros Hin. apply H1. by right.
    + intros Hin. apply H2. by right.
Qed.

Lemma decimal_no_underscore (n : nat) : "_"%char ∉ rev (decimal n).
Proof.
  intros Hin. apply list_elem_of_In, in_rev, list_elem_of_In in Hin.
  pose proof (decimal_digits n) as Hd. rewrite Forall_forall in Hd.
  by specialize (Hd _ Hin).
Qed.

Lemma existsb_elem {B : Type} (f : B -> bool) (l : list B) :
  existsb f l = true <-> exists x, x ∈ l /\ f x = true.
Proof.
  rewrite existsb_exists. split; intros (x & Hx & Hf); exists x.
  - by rewrite list_elem_of_In.
  - by rewrite <- list_elem_of_In.
Qed.

(** [isTableNameInUse]: another identifier of the cache has the name. *)
Lemma isTableNameInUse_true (cache : gmap string tableInfo) (name id : string) :
  isTableNameInUse cache name id = true
  <-> exists other info, cache !! other = Some info
                         /\ ti_table info = name /\ other <> id.
Proof.
  unfold isTableNameInUse. rewrite existsb_elem. split.
  - intros ([other info] & Hin & Hf). simpl in Hf.
    apply andb_true_iff in Hf as [Hn Ho].
    apply elem_of_map_to_list in Hin. apply String.eqb_eq in Hn.
    apply negb_true_iff, String.eqb_neq in Ho. eauto.
  - intros (other & info & Hl & Hn & Ho). exists (other, info). split.
    + by apply elem_of_map_to_list.
    + simpl. apply andb_true_iff. split; [by apply String.eqb_eq|].
      by apply negb_true_iff, String.eqb_neq.
Qed.

Lemma isTableNameInUse_names (cache : gmap string tableInfo) (name id : string) :
  isTableNameInUse cache name id = true ->
  name ∈ (fun entry : string * tableInfo => ti_table entry.2) <$> map_to_list cache.
Proof.
  intros Hu. apply isTableNameInUse_true in Hu as (other & info & Hl & <- & _).
  apply (list_elem_of_fmap_2 (fun entry : string * tableInfo => ti_table entry.2)
           _ (other, info)).
  by apply elem_of_map_to_list.
Qed.

Section Candidates.
Variable tablePrefix : string.
Variable tableCache : gmap string tableInfo.
Variable id : string.
Variable p0 : ascii.
Variable prest : list ascii.
Hypothesis prefix_chars : chars_of tablePrefix = p0 :: prest.
Hypothesis prefix_word : word_chars (chars_of tablePrefix).
Hypothesis prefix_head : is_underscore p0 = false.

Lemma baseName_head : exists r, baseName tablePrefix id = p0 :: r.
Proof. unfold baseName. rewrite prefix_chars. simpl. eauto. Qed.

Lemma baseName_word : word_chars (baseName tablePrefix id).
Proof.
  unfold baseName. apply Forall_app. split; [done|].
  constructor; [done|]. apply sanitizeDatapointIdentifier_spec.
Qed.

(** The first candidate: the base name, cut at 62 characters. *)
Lemma normalizeLength_spec :
  word_chars (normalizeLength (baseName tablePrefix id))
  /\ (exists r, normalizeLength (baseName tablePrefix id) = p0 :: r)
  /\ length (normalizeLength (baseName tablePrefix id)) <= 62.
Proof.
  destruct baseName_head as [r Hr]. pose proof baseName_word as Hw.
  unfold normalizeLength, maxIdentifierLength, slice0.
  destruct (length _ <=? 62)%nat eqn:E.
  - apply Nat.leb_le in E. split; [done|]. split; [by eauto|done].
  - split; [eapply Forall_prefix; [apply take_prefix|done]|].
    split; [rewrite Hr; simpl; by eauto|]. rewrite length_take. lia.
Qed.

(** A later candidate: a part of the base name that starts as the prefix
    does, an underscore and the digits of the counter. *)
Lemma suffixed_spec (counter : nat) :
  exists truncated,
    suffixed tablePrefix id counter = truncated ++ "_"%char :: decimal counter
    /\ word_chars truncated
    /\ (exists r, truncated = p0 :: r)
    /\ length truncated <= Nat.max 1 (62 - S (length (decimal counter))).
Proof.
  destruct baseName_head as [r Hr]. pose proof baseName_word as Hw.
  unfold suffixed, maxIdentifierLength, slice0. cbn [length].
  set (maxBaseLength := Nat.max 1 (62 - S (length (decimal counter)))).
  destruct (maxBaseLength <? length (baseName tablePrefix id))%nat eqn:E.
  - assert (Hm : exists m, maxBaseLength = S m).
    { exists (Nat.pred maxBaseLength). subst maxBaseLength. lia. }
    destruct Hm as [m Hm].
    destruct (drop_while_end_head is_underscore p0 (take m r) prefix_head) as [t Ht].
    assert (Hs : strip_trailing (take maxBaseLength (baseName tablePrefix id)) = p0 :: t).
    { by rewrite Hm, Hr. }
    rewrite Hs. cbn [length Nat.eqb]. eexists. split; [done|].
    rewrite <- Hs. split; [|split; [rewrite Hs; by eauto|]].
    + eapply Forall_prefix; [apply drop_while_end_prefix|].
      eapply Forall_prefix; [apply take_prefix|done].
    + etrans; [apply prefix_length, drop_while_end_prefix|].
      rewrite length_take. lia.
  - apply Nat.ltb_ge in E. rewrite Hr in *. cbn [length Nat.eqb].
    eexists. split; [done|]. split; [done|]. split; [by eauto|done].
Qed.

Lemma suffixed_word (counter : nat) :
  word_chars (suffixed tablePrefix id counter).
Proof.
  destruct (suffixed_spec counter) as (t & -> & Hw & _).
  apply Forall_app. split; [done|]. constructor; [done|].
  eapply Forall_impl; [apply decimal_digits|]. apply is_digit_word.
Qed.

(** Two counters give two candidates. *)
Lemma suffixed_inj (j k : nat) :
  suffixed tablePrefix id j = suffixed tablePrefix id k -> j = k.
Proof.
  destruct (suffixed_spec j) as (tj & -> & _).
  destruct (suffixed_spec k) as (tk & -> & _).
  intros Heq. apply (f_equal (@rev ascii)) in Heq.
  rewrite !rev_app_distr in Heq. simpl in Heq. rewrite <- !app_assoc in Heq.
  simpl in Heq. apply app_pivot_inj in Heq; try apply decimal_no_underscore.
  apply decimal_inj. by rewrite <- (rev_involutive (decimal j)), Heq, rev_involutive.
Qed.

(** The loop stops: among as many later candidates as there are names in
    a list that holds every name in use, and one more, one is free. *)
Lemma generate_loop_terminates (fuel : nat) (names : list string) (counter : nat) :
  length names <= fuel ->
  (forall k, counter <= k ->
     isTableNameInUse tableCache (string_of (suffixed tablePrefix id k)) id = true ->
     string_of (suffixed tablePrefix id k) ∈ names) ->
  exists name,
    generate_loop tablePrefix tableCache id fuel
      (suffixed tablePrefix id counter) (S counter) = Some name.
Proof.
  revert names counter. induction fuel as [|fuel IH]; intros names counter Hlen Hcover.
  - simpl. destruct (isTableNameInUse _ _ _) eqn:E; [|by eauto].
    apply Hcover in E; [|done]. destruct names; [by inversion E|simpl in Hlen; lia].
  - cbn [generate_loop]. destruct (isTableNameInUse _ _ _) eqn:E; [|by eauto].
    apply Hcover in E; [|done].
    apply list_elem_of_split in E as (l1 & l2 & ->).
    apply (IH (l1 ++ l2)).
    + rewrite length_app in *. simpl in Hlen. lia.
    + intros k Hk Hu. specialize (Hcover k ltac:(lia) Hu).
      apply elem_of_app in Hcover as [?|Hin]; [apply elem_of_app; by left|].
      apply elem_of_cons in Hin as [Heq|?]; [|apply elem_of_app; by right].
      apply string_of_inj, suffixed_inj in Heq. lia.
Qed.

(** What the loop returns is free, and is the candidate it started from
    or a later one. *)
Lemma generate_loop_result (fuel : nat) (candidate : list ascii)
    (counter : nat) (name : string) :
  generate_loop tablePrefix tableCache id fuel candidate counter = Some name ->
  isTableNameInUse tableCache name id = false
  /\ (name = string_of candidate
        /\ isTableNameInUse tableCache (string_of candidate) id = false
      \/ isTableNameInUse tableCache (string_of candidate) id = true
         /\ exists k, counter <= k < counter + fuel
                      /\ name = string_of (suffixed tablePrefix id k)).
Proof.
  revert candidate counter. induction fuel as [|fuel IH]; intros candidate counter.
  - simpl. destruct (isTableNameInUse _ (string_of candidate) _) eqn:E; [done|].
    intros [= <-]. split; [done|by left].
  - cbn [generate_loop].
    destruct (isTableNameInUse _ (string_of candidate) _) eqn:E.
    + intros Hg. apply IH in Hg as [Hfree Hcases]. split; [done|]. right.
      split; [done|].
      destruct Hcases as [[-> _]|[_ (k & Hk & ->)]].
      * exists counter. split; [lia|done].
      * exists k. split; [lia|done].
    + intros [= <-]. split; [done|by left].
Qed.

End Candidates.

Lemma counter_digits (size k : nat) :
  (N.of_nat size < 2 ^ 53)%N -> k <= S size -> length (decimal k) <= 16.
Proof.
  intros Hs Hk. apply decimal_length; [lia|].
  apply Nat2Z.inj_lt. rewrite Nat2Z.inj_pow.
  change (Z.of_nat 10) with 10%Z. change (Z.of_nat 16) with 16%Z. lia.
Qed.

(** [generateTableName] returns: the loop ends within the iterations that
    the model grants it. *)
Lemma generateTableName_returns (raw : string) (tableCache : gmap string tableInfo)
    (id : string) :
  exists name, generateTableName (sanitizeTablePrefix raw) tableCache id = Some name.
Proof.
  destruct (sanitizeTablePrefix_spec raw) as [Hw (c & r & Hc & Hu)].
  unfold generateTableName. cbn [generate_loop].
  destruct (isTableNameInUse _ _ _); [|by eauto].
  apply (generate_loop_terminates _ _ _ c r Hc Hw Hu _
           ((fun entry : string * tableInfo => ti_table entry.2) <$> map_to_list tableCache)).
  - by rewrite length_fmap, length_map_to_list.
  - intros k _. apply isTableNameInUse_names.
Qed.

(** C9 (as amended): the generated table name.  For every identifier,
    with a table prefix as [sanitizeTablePrefix] gives it and fewer than
    2^53 registered tables (the counter of the source is then exact),
    [generateTableName] returns a name that contains only characters of
    [[A-Za-z0-9_]], has at most 62 characters, begins with the first
    character of the table prefix, which is not an underscore (so the
    name begins with a non-digit whenever the prefix does, as the default
    prefix "history" does), and is the name of no other identifier of the
    cache; the sanitized identifier that follows the prefix begins with a
    non-digit; and when the first candidate is the name of another
    identifier, the name returned ends with an underscore and the digits
    of a counter.  The identifier "3abc!!def" is sanitized to
    "s_3abc_def" and gets the table "history_s_3abc_def"; a second
    identifier with the same sanitized form gets "history_s_3abc_def_1". *)
Theorem generateTableName_spec (raw : string)
    (tableCache : gmap string tableInfo) (id : string) :
  (N.of_nat (size tableCache) < 2 ^ 53)%N ->
  let tablePrefix := sanitizeTablePrefix raw in
  (exists name c r,
     generateTableName tablePrefix tableCache id = Some name
     /\ word_chars (chars_of name)
     /\ length (chars_of name) <= 62
     /\ chars_of name = c :: r
     /\ (exists r', chars_of tablePrefix = c :: r')
     /\ is_underscore c = false
     /\ (forall other info, tableCache !! other = Some info -> other <> id ->
          ti_table info <> name)
     /\ ((exists other info,
            tableCache !! other = Some info /\ other <> id
            /\ ti_table info = string_of (normalizeLength (baseName tablePrefix id))) ->
         exists k truncated,
           1 <= k /\ chars_of name = truncated ++ "_"%char :: decimal k))
  /\ (exists d s, sanitizeDatapointIdentifier id = d :: s /\ is_digit d = false)
  /\ string_of (sanitizeDatapointIdentifier "3abc!!def") = "s_3abc_def"
  /\ generateTableName "history" ∅ "3abc!!def" = Some "history_s_3abc_def"
  /\ generateTableName "history"
       {[ "3abc!!def" := TableInfo "history_s_3abc_def" TNumber ]} "3abc..def"
     = Some "history_s_3abc_def_1".
Proof.
  intros Hsize tablePrefix.
  split; [|split; [apply sanitizeDatapointIdentifier_spec|by vm_compute]].
  destruct (sanitizeTablePrefix_spec raw) as [Hw (c & r' & Hc & Hu)].
  fold tablePrefix in Hw, Hc.
  destruct (generateTableName_returns raw tableCache id) as [name Hname].
  fold tablePrefix in Hname.
  pose proof Hname as Hloop. unfold generateTableName in Hloop.
  apply generate_loop_result in Hloop as [Hfree Hcases].
  assert (Hother : forall other info, tableCache !! other = Some info ->
            other <> id -> ti_table info <> name).
  { intros other info Hl Ho Ht.
    assert (isTableNameInUse tableCache name id = true) as Hin
      by (apply isTableNameInUse_true; eauto).
    congruence. }
  destruct Hcases as [[-> Hfirst]|[Hfirst (k & Hk & ->)]].
  - destruct (normalizeLength_spec tablePrefix id c r' Hc Hw) as (Hnw & [r Hr] & Hlen).
    exists (string_of (normalizeLength (baseName tablePrefix id))), c, r.
    rewrite chars_of_string_of. repeat (split; [by eauto|]).
    intros (other & info & Hl & Ho & Ht).
    assert (isTableNameInUse tableCache
              (string_of (normalizeLength (baseName tablePrefix id))) id = true) as Hin
      by (apply isTableNameInUse_true; eauto).
    congruence.
  - destruct (suffixed_spec tablePrefix id c r' Hc Hw Hu k)
      as (t & Hs & Htw & [r Hr] & Htl).
    exists (string_of (suffixed tablePrefix id k)), c, (r ++ "_"%char :: decimal k).
    rewrite chars_of_string_of.
    split; [done|]. split; [by apply (suffixed_word tablePrefix id c r')|].
    split.
    { rewrite Hs, length_app. cbn [length].
      pose proof (counter_digits (size tableCache) k Hsize ltac:(lia)). lia. }
    split; [by rewrite Hs, Hr|]. split; [by eauto|]. split; [done|].
    split; [done|]. intros _. exists k, t. split; [lia|done].
Qed.

(** C9, witness: the second identifier of the example. *)
Lemma generateTableName_spec_witness :
  generateTableName "history"
    {[ "3abc!!def" := TableInfo "history_s_3abc_def" TNumber ]} "3abc..def"
  = Some "history_s_3abc_def_1".
Proof.
  refine (proj2 (proj2 (proj2 (proj2
    (generateTableName_spec "history"
       {[ "3abc!!def" := TableInfo "history_s_3abc_def" TNumber ]} "3abc..def" _))))).
  by vm_compute.
Defined.

(** C9, counterexample: the table prefix "2024", which the adapter
    accepts as it is.  The name generated for the identifier "x" is
    "2024_x": it begins with a digit. *)
Lemma generateTableName_digit_counterexample :
  sanitizeTablePrefix "2024" = "2024"
  /\ generateTableName (sanitizeTablePrefix "2024") ∅ "x" = Some "2024_x"
  /\ exists c r, chars_of "2024_x" = c :: r /\ is_digit c = true.
Proof. split; [done|]. split; [done|]. by eexists _, _. Qed.

End TableNameFacts.

(** ** Write Buffer & Flush Coordinator *)

Module FlushFacts.

Lemma flushBuffer_start_cases (a : adapter) (fresh : nat) :
  (buffer a = [] /\ flushBuffer_start a fresh = (Returned 0, a, None))
  \/ (buffer a <> []
      /\ flushBuffer_start a fresh
         = (Joined fresh, set_flushPromise (set_buffer a []) (Some fresh),
            Some (Flight (buffer a) (group_rows (buffer a)) 0))).
Proof.
  unfold flushBuffer_start. destruct (buffer a) eqn:E; [by left|by right].
Qed.

(** A call that finds an operation in flight leaves the adapter as it is
    and starts nothing. *)
Lemma flushBuffer_in_flight (a : adapter) (force : bool) (fresh p : nat) :
  flushPromise a = Some p ->
  flushBuffer a force fresh
  = (if negb (client a) then Returned 0
     else if (length (buffer a) =? 0)%nat && negb force then Returned 0
     else if force then Awaiting p else Joined p,
     a, None).
Proof.
  intros Hp. unfold flushBuffer. rewrite Hp.
  destruct (client a); simpl; [|done].
  destruct (_ && _); [done|]. by destruct force.
Qed.

Lemma remove_running_single (p : nat) (f : flight) :
  remove_running p [(p, f)] = [].
Proof.
  unfold remove_running. rewrite filter_cons, decide_False; [done|].
  simpl. intros Hne. by apply Hne.
Qed.

Lemma find_running_single (p q : nat) (f g : flight) :
  find_running p [(q, f)] = Some g -> q = p /\ g = f.
Proof.
  simpl. destruct (q =? p)%nat eqn:E; [|done].
  apply Nat.eqb_eq in E. by intros [= <-].
Qed.

Lemma insert_answer_marker (a a' : adapter) (f : flight) (ans : option string)
    (r : flight + outcome) :
  insert_answer a f ans = (a', r) ->
  match r with
  | inl _ => a' = a
  | inr _ => flushPromise a' = None
  end.
Proof.
  unfold insert_answer. intros Hi.
  repeat case_match; by simplify_eq.
Qed.

(** *** The coordination is kept by every step *)

Lemma coordinated_initial (a : adapter) : coordinated (initial a).
Proof. split; [done|]. simpl. lia. Qed.

Lemma coordinated_call (w : world) (force : bool) :
  coordinated w -> coordinated (call w force).
Proof.
  intros [Hm Hq]. unfold call, coordinated.
  destruct (flushPromise (w_adapter w)) as [p|] eqn:Hp.
  - rewrite (flushBuffer_in_flight _ force _ p Hp). simpl.
    rewrite Hp, app_nil_r. split; [done|exact Hq].
  - unfold flushBuffer. rewrite Hp.
    destruct (negb (client (w_adapter w))); simpl.
    { by rewrite Hp, app_nil_r. }
    destruct (_ && _); simpl.
    { by rewrite Hp, app_nil_r. }
    destruct (flushBuffer_start_cases (w_adapter w) (w_next w)) as [[Hb ->]|[Hb ->]];
      simpl.
    + by rewrite Hp, app_nil_r.
    + rewrite Hm. simpl. split; [by eauto|done].
Qed.

Lemma coordinated_queue (w : world) (r : row) :
  w_microtasks w = 0 -> coordinated w -> coordinated (queue w r).
Proof.
  intros H0 [Hm Hq]. unfold queue, queueRow.
  match goal with
  | |- coordinated (if _ then call ?w1 false else _) =>
      assert (Hw' : coordinated w1)
  end.
  { split; [exact Hm|]. simpl. lia. }
  destruct (_ <=? _)%nat; [by apply coordinated_call|done].
Qed.

Lemma coordinated_resume (w w' : world) :
  coordinated w -> resume w = Some w' -> coordinated w'.
Proof.
  intros [Hm Hq]. unfold resume.
  destruct (w_microtasks w) as [|n] eqn:Hn; [done|].
  destruct (flushBuffer_start_cases (w_adapter w) (w_next w)) as [[Hb ->]|[Hb ->]].
  - intros [= <-]. split; simpl; [by rewrite app_nil_r|].
    intros _ _. done.
  - intros [= <-].
    assert (Hr : w_running w = []).
    { destruct (w_running w) eqn:E; [done|]. exfalso. apply Hb, Hq; [lia|done]. }
    split; simpl; [|done]. rewrite Hr. simpl. eauto.
Qed.

Lemma coordinated_answer (w w' : world) (p : nat) (ans : option string) :
  w_microtasks w = 0 -> coordinated w -> answer w p ans = Some w' -> coordinated w'.
Proof.
  intros H0 [Hm Hq]. unfold answer.
  destruct (find_running p (w_running w)) as [f|] eqn:Hf; [|done].
  destruct (flushPromise (w_adapter w)) as [q|] eqn:Hp; [|by rewrite Hm in Hf].
  destruct Hm as [g Hg]. rewrite Hg in Hf.
  apply find_running_single in Hf as [-> ->].
  destruct (insert_answer (w_adapter w) g ans) as [a [f'|out]] eqn:Hi;
    apply insert_answer_marker in Hi; intros [= <-].
  - subst a. split; simpl; [|lia].
    rewrite Hp, Hg. simpl. rewrite Nat.eqb_refl. eauto.
  - split; simpl.
    + by rewrite Hi, Hg, remove_running_single.
    + intros _. by rewrite Hg, remove_running_single.
Qed.

Lemma coordinated_step (w w' : world) (ev : event) :
  coordinated w -> step w ev = Some w' -> coordinated w'.
Proof.
  intros Hc. destruct ev as [r|force|p ans|]; simpl.
  - destruct (w_microtasks w =? 0)%nat eqn:E; [|done].
    apply Nat.eqb_eq in E. intros [= <-]. by apply coordinated_queue.
  - intros [= <-]. by apply coordinated_call.
  - destruct (w_microtasks w =? 0)%nat eqn:E; [|done].
    apply Nat.eqb_eq in E. by apply coordinated_answer.
  - by apply coordinated_resume.
Qed.

Lemma coordinated_run (evs : list event) (w w' : world) :
  coordinated w -> run w evs = Some w' -> coordinated w'.
Proof.
  revert w. induction evs as [|ev evs IH]; intros w Hc; simpl.
  - by intros [= <-].
  - destruct (step w ev) as [w1|] eqn:Hs; [|done].
    apply IH. by eapply coordinated_step.
Qed.

Lemma reachable_coordinated (w : world) : reachable w -> coordinated w.
Proof.
  intros (a & evs & Hrun). eapply coordinated_run; [|done].
  apply coordinated_initial.
Qed.

(** C1 (as amended): the single-flight flush.  In every world that the
    event loop reaches, at most one flush operation is running, and it
    is the one that the marker names.  A call of [flushBuffer] that finds
    an operation in flight leaves the adapter and its queue as they are:
    without force it returns 0 at once when the queue is empty (or no
    client is set) and the operation in flight otherwise; with force it
    waits for that operation.  When the operation settles, resolved or
    rejected, its waiting callers become the continuations to run; and a
    caller that resumes flushes exactly the rows that the queue holds at
    that moment, which gives it the operation it starts, or returns 0
    when the queue holds none.  The last two parts give what each of
    these callers receives: the result recorded for the call, and for the
    caller that resumes. *)
Theorem single_flight_flush (w : world) :
  reachable w ->
  length (w_running w) <= 1
  /\ (forall p, flushPromise (w_adapter w) = Some p
                <-> exists f, w_running w = [(p, f)])
  /\ (forall p force,
        flushPromise (w_adapter w) = Some p ->
        flushBuffer (w_adapter w) force (w_next w)
        = (if negb (client (w_adapter w)) then Returned 0
           else if (length (buffer (w_adapter w)) =? 0)%nat && negb force
                then Returned 0
                else if force then Awaiting p else Joined p,
           w_adapter w, None))
  /\ (forall p ans w',
        step w (Answer p ans) = Some w' ->
        (w_running w' = []
         /\ w_microtasks w' = length (filter (fun q => q = p) (w_waiting w))
         /\ exists out, w_settled w' = w_settled w ++ [(p, out)])
        \/ (exists f, w_running w' = [(p, f)] /\ ans = None
                       /\ w_adapter w' = w_adapter w))
  /\ (forall w',
        resume w = Some w' ->
        match buffer (w_adapter w) with
        | [] => w_adapter w' = w_adapter w /\ w_running w' = w_running w
        | _ :: _ =>
            w_running w'
            = [(w_next w,
                Flight (buffer (w_adapter w)) (group_rows (buffer (w_adapter w))) 0)]
            /\ buffer (w_adapter w') = []
            /\ flushPromise (w_adapter w') = Some (w_next w)
        end)
  /\ (forall p force,
        flushPromise (w_adapter w) = Some p ->
        w_adapter (call w force) = w_adapter w
        /\ w_running (call w force) = w_running w
        /\ w_settled (call w force) = w_settled w
        /\ w_microtasks (call w force) = w_microtasks w
        /\ w_results (call w force)
           = w_results w
             ++ [if negb (client (w_adapter w)) then Returned 0
                 else if (length (buffer (w_adapter w)) =? 0)%nat && negb force
                      then Returned 0
                      else if force then Awaiting p else Joined p]
        /\ w_waiting (call w force)
           = w_waiting w ++ (if client (w_adapter w) && force then [p] else []))
  /\ (forall w',
        resume w = Some w' ->
        w_microtasks w = S (w_microtasks w')
        /\ w_settled w' = w_settled w
        /\ w_waiting w' = w_waiting w
        /\ w_results w'
           = w_results w
             ++ [match buffer (w_adapter w) with
                 | [] => Returned 0
                 | _ :: _ => Joined (w_next w)
                 end]).
Proof.
  intros Hr. pose proof (reachable_coordinated w Hr) as [Hm Hq].
  assert (Hmarker : forall p, flushPromise (w_adapter w) = Some p
                              <-> exists f, w_running w = [(p, f)]).
  { intros p. destruct (flushPromise (w_adapter w)) as [q|].
    - destruct Hm as [f Hf]. split.
      + intros [= ->]. eauto.
      + intros [g Hg]. rewrite Hf in Hg. by injection Hg as -> _.
    - rewrite Hm. split; [done|]. by intros [f ?]. }
  split.
  { destruct (flushPromise (w_adapter w)); [destruct Hm as [f ->]; simpl; lia|].
    rewrite Hm. simpl. lia. }
  split; [exact Hmarker|].
  split; [intros p force Hp; by apply flushBuffer_in_flight|].
  split; [|split; [|split]].
  - intros p ans w'. simpl.
    destruct (w_microtasks w =? 0)%nat eqn:E0; [|done].
    apply Nat.eqb_eq in E0. unfold answer.
    destruct (find_running p (w_running w)) as [f|] eqn:Hf; [|done].
    destruct (flushPromise (w_adapter w)) as [q|] eqn:Hp; [|by rewrite Hm in Hf].
    destruct Hm as [g Hg]. rewrite Hg in Hf.
    apply find_running_single in Hf as [-> ->].
    destruct (insert_answer (w_adapter w) g ans) as [a [f'|out]] eqn:Hi;
      intros [= <-]; simpl.
    + right. exists f'. rewrite Hg. simpl. rewrite Nat.eqb_refl.
      split; [done|]. unfold insert_answer in Hi.
      repeat case_match; by simplify_eq.
    + left. rewrite Hg, remove_running_single, E0. eauto.
  - intros w'. unfold resume.
    destruct (w_microtasks w) as [|n] eqn:Hn; [done|].
    destruct (flushBuffer_start_cases (w_adapter w) (w_next w)) as [[Hb ->]|[Hb ->]];
      intros [= <-]; simpl.
    + rewrite Hb. by rewrite app_nil_r.
    + assert (Hrun : w_running w = []).
      { destruct (w_running w) eqn:E; [done|]. exfalso. apply Hb, Hq; [lia|done]. }
      rewrite Hrun. by destruct (buffer (w_adapter w)).
  - intros p force Hp. unfold call.
    rewrite (flushBuffer_in_flight _ force _ p Hp).
    cbn [w_adapter w_running w_settled w_microtasks w_results w_waiting started_as].
    rewrite app_nil_r. repeat (split; [done|]). f_equal.
    destruct (client (w_adapter w)); [|done].
    destruct force; [by rewrite andb_false_r|].
    by destruct (_ =? _)%nat.
  - intros w'. unfold resume.
    destruct (w_microtasks w) as [|n] eqn:Hn; [done|].
    destruct (flushBuffer_start_cases (w_adapter w) (w_next w)) as [[Hb ->]|[Hb ->]];
      intros [= <-]; simpl.
    + by rewrite Hb.
    + by destruct (buffer (w_adapter w)).
Qed.

(** *** A failed flush *)

(** A failing [insert] settles the operation: its rows go back to the
    front of the queue, the adapter is marked disconnected, the marker
    is cleared and the operation rejects with the error. *)
Lemma insert_answer_failure (a : adapter) (f : flight) (error : string) :
  insert_answer a f (Some error)
  = (set_flushPromise (set_buffer (setConnected a false) (fl_rows f ++ buffer a)) None,
     inr (Rejected error)).
Proof. reflexivity. Qed.

(** The rows that arrive while an operation is in flight are appended
    to the queue, and nothing else of the flight changes. *)
Lemma queue_in_flight (w : world) (r : row) (f : flight) :
  client (w_adapter w) = true ->
  flushPromise (w_adapter w) = Some 0 ->
  w_running w = [(0, f)] ->
  head (w_results w) = Some (Joined 0) ->
  let w' := queue w r in
  client (w_adapter w') = true
  /\ flushPromise (w_adapter w') = Some 0
  /\ w_running w' = [(0, f)]
  /\ w_microtasks w' = w_microtasks w
  /\ w_settled w' = w_settled w
  /\ head (w_results w') = Some (Joined 0)
  /\ buffer (w_adapter w') = buffer (w_adapter w) ++ [r].
Proof.
  intros Hc Hp Hrun Hres. unfold queue, queueRow.
  destruct (_ <=? _)%nat; cbn zeta.
  - unfold call.
    rewrite (flushBuffer_in_flight _ false _ 0) by done.
    cbn [w_adapter w_running w_microtasks w_settled w_results started_as].
    rewrite Hrun. repeat (split; [done|]). split; [|done].
    destruct (w_results w); [done|exact Hres].
  - cbn [w_adapter w_running w_microtasks w_settled w_results].
    by repeat (split; [done|]).
Qed.

Lemma run_queues_in_flight (later : list row) (rest : list event) (w : world)
    (f : flight) :
  client (w_adapter w) = true ->
  flushPromise (w_adapter w) = Some 0 ->
  w_running w = [(0, f)] ->
  head (w_results w) = Some (Joined 0) ->
  w_microtasks w = 0 ->
  exists w',
    run w (map Queue later ++ rest) = run w' rest
    /\ flushPromise (w_adapter w') = Some 0
    /\ w_running w' = [(0, f)]
    /\ w_microtasks w' = 0
    /\ w_settled w' = w_settled w
    /\ head (w_results w') = Some (Joined 0)
    /\ buffer (w_adapter w') = buffer (w_adapter w) ++ later.
Proof.
  revert w. induction later as [|r later IH]; intros w Hc Hp Hrun Hres H0.
  - exists w. by rewrite app_nil_r.
  - destruct (queue_in_flight w r f Hc Hp Hrun Hres)
      as (Hc' & Hp' & Hrun' & H0' & Hs' & Hres' & Hb').
    destruct (IH (queue w r) Hc' Hp' Hrun' Hres' ltac:(lia))
      as (w' & Hw' & ? & ? & ? & Hs & ? & Hb).
    exists w'. cbn [map app run step]. rewrite H0. cbn [Nat.eqb].
    split; [done|]. repeat (split; [done|]).
    split; [congruence|]. split; [done|].
    by rewrite Hb, Hb', <- app_assoc.
Qed.

(** C2: the failure of a flush.  Every failing [insert] of a flush
    operation puts the rows removed for that operation back at the front
    of the queue, in their order, marks the adapter disconnected and
    rejects the operation with the error.  In particular, when a caller
    flushes the rows of the queue, further rows are queued during the
    attempt and the write fails, the queue holds the rows of the attempt
    followed by the later ones, and the promise that the caller holds is
    rejected with the error of the store. *)
Theorem flush_failure_requeues (a : adapter) (f : flight) (later : list row)
    (force : bool) (error : string) :
  client a = true ->
  buffer a <> [] ->
  insert_answer a f (Some error)
  = (set_flushPromise (set_buffer (setConnected a false) (fl_rows f ++ buffer a)) None,
     inr (Rejected error))
  /\ exists w',
      run (initial a) (Call force :: map Queue later ++ [Answer 0 (Some error)])
      = Some w'
      /\ head (w_results w') = Some (Joined 0)
      /\ w_settled w' = [(0, Rejected error)]
      /\ buffer (w_adapter w') = buffer a ++ later
      /\ connected (w_adapter w') = false
      /\ flushPromise (w_adapter w') = None
      /\ w_running w' = [].
Proof.
  intros Hc Hb. split; [reflexivity|].
  cbn [run step]. unfold call at 1. unfold flushBuffer, initial. cbn [w_adapter w_next].
  change (client (set_flushPromise a None)) with (client a). rewrite Hc.
  change (buffer (set_flushPromise a None)) with (buffer a).
  destruct (buffer a) as [|r0 rows] eqn:Hrows; [done|].
  cbn [length Nat.eqb negb andb flushPromise set_flushPromise].
  unfold flushBuffer_start. cbn [buffer set_flushPromise]. rewrite Hrows.
  cbn [w_running w_waiting w_results w_microtasks w_settled started_as waits_on app].
  match goal with
  | |- exists w', run ?w1 _ = _ /\ _ =>
      destruct (run_queues_in_flight later [Answer 0 (Some error)] w1
                  (Flight (r0 :: rows) (group_rows (r0 :: rows)) 0))
        as (w2 & Hrun & Hp2 & Hr2 & H02 & Hs2 & Hres2 & Hb2); try done
  end.
  rewrite Hrun. cbn [run step]. rewrite H02. cbn [Nat.eqb].
  unfold answer. rewrite Hr2. cbn [find_running Nat.eqb].
  rewrite insert_answer_failure. eexists. split; [reflexivity|].
  cbn [w_results w_settled w_adapter w_running].
  split; [exact Hres2|]. split; [by rewrite Hs2|].
  split; [simpl; by rewrite Hb2|]. split; [done|]. split; [done|].
  apply remove_running_single.
Qed.

Section FlushExamples.

Lemma flightWorld_reachable : reachable flightWorld.
Proof.
  exists (queuedAdapter [pointRow 1%float "2023-11-14 22:13:20.000"]),
    [Call false; Queue (pointRow 2%float "2023-11-14 22:13:21.000"); Call true].
  by vm_compute.
Qed.

Lemma drainedWorld_reachable : reachable drainedWorld.
Proof.
  exists (queuedAdapter [pointRow 1%float "2023-11-14 22:13:20.000"]), [Call false].
  by vm_compute.
Qed.

(** C1, witness: one operation runs in the world of the example, where a
    row is queued behind the flight and a forced caller waits. *)
Lemma single_flight_flush_witness :
  length (w_running flightWorld) <= 1
  /\ length (buffer (w_adapter flightWorld)) = 1
  /\ w_waiting flightWorld = [0].
Proof.
  split; [|by vm_compute].
  exact (proj1 (single_flight_flush flightWorld flightWorld_reachable)).
Defined.

(** C1, counterexample: a flush is in flight and the queue is empty.  A
    call without force returns 0 at once, and not the operation in
    flight, whose result is the count of rows written, 1. *)
Lemma nonforced_call_counterexample :
  reachable drainedWorld
  /\ flushPromise (w_adapter drainedWorld) = Some 0
  /\ flushBuffer (w_adapter drainedWorld) false (w_next drainedWorld)
     = (Returned 0, w_adapter drainedWorld, None)
  /\ Returned 0 <> Joined 0
  /\ (w_results <$> run drainedWorld [Call false; Answer 0 None])
     = Some [Joined 0; Returned 0]
  /\ (w_settled <$> run drainedWorld [Call false; Answer 0 None])
     = Some [(0, Resolved 1)].
Proof.
  split; [apply drainedWorld_reachable|].
  split; [by vm_compute|]. split; [by vm_compute|].
  split; [discriminate|]. split; by vm_compute.
Qed.

(** C2, witness: a flush of one row fails while a second row has been
    queued: the queue holds both rows, the failed one first. *)
Lemma flush_failure_requeues_witness :
  exists w',
    run (initial (queuedAdapter [pointRow 1%float "2023-11-14 22:13:20.000"]))
      (Call false
       :: map Queue [pointRow 2%float "2023-11-14 22:13:21.000"]
       ++ [Answer 0 (Some "timeout")])
    = Some w'
    /\ head (w_results w') = Some (Joined 0)
    /\ w_settled w' = [(0, Rejected "timeout")]
    /\ buffer (w_adapter w')
       = [pointRow 1%float "2023-11-14 22:13:20.000"]
         ++ [pointRow 2%float "2023-11-14 22:13:21.000"]
    /\ connected (w_adapter w') = false
    /\ flushPromise (w_adapter w') = None
    /\ w_running w' = [].
Proof.
  refine (proj2 (flush_failure_requeues
                   (queuedAdapter [pointRow 1%float "2023-11-14 22:13:20.000"])
                   (Flight [] [] 0)
                   [pointRow 2%float "2023-11-14 22:13:21.000"]
                   false "timeout" eq_refl _)).
  discriminate.
Defined.

End FlushExamples.

End FlushFacts.

(** ** The converted value on its way to the queue *)

Module ValueFacts.
Import NormalizerFacts.

Section Values.
Context `{Builtins}.

Lemma toRoundedNumber_number (rd : option float) (x : float) (c : converted) :
  match toRoundedNumber rd x with
  | Ok r => Ok (Converted TNumber (JNum r) (JNum r))
  | Throw m => Throw m
  end = Ok c ->
  exists r, c = Converted TNumber (JNum r) (JNum r).
Proof. destruct (toRoundedNumber rd x); [|done]. intros [= <-]. eauto. Qed.

Lemma stringify_cases (v : jsval) :
  (exists t, stringify v = JStr t) \/ stringify v = JUndefined.
Proof. unfold stringify. destruct (JSON_stringify v); eauto. Qed.

(** The tag, the value and the key that [autoDetect] gives a value that
    is neither [null] nor [undefined]. *)
Lemma autoDetect_cases (rd : option float) (v : jsval) (c : converted) :
  is_nullish v = false ->
  autoDetect rd v = Ok c ->
  (exists r, c = Converted TNumber (JNum r) (JNum r))
  \/ (exists b, c = Converted TBoolean (JBool b) (JBool b))
  \/ (exists t, c = Converted TString (JStr t) (JStr t))
  \/ (c = Converted TJson (stringify v) (stringify v)).
Proof.
  intros Hn. destruct v; try done; simpl.
  - intros [= <-]. eauto.
  - intros Hc. left. by apply (toRoundedNumber_number rd x).
  - intros [= <-]. eauto 6.
  - intros [= <-]. eauto 6.
  - intros [= <-]. eauto 6.
Qed.

(** The converted value by storage type, for a value that is neither
    [null] nor [undefined]. *)
Lemma prepareValue_cases (v : jsval) (s : settings) (c : converted) :
  is_nullish v = false ->
  prepareValue v s = Ok c ->
  let lower := toLowerCase (if String.eqb (storageType s) "" then "auto"
                            else storageType s) in
  (lower = "number" /\ exists r, c = Converted TNumber (JNum r) (JNum r))
  \/ (lower = "string" /\ exists t, c = Converted TString (JStr t) (JStr t))
  \/ (lower = "boolean" /\ exists b, c = Converted TBoolean (JBool b) (JBool b))
  \/ (lower = "json"
      /\ ((exists t, c = Converted TJson (JStr t) (JStr t))
          \/ c = Converted TJson JUndefined JUndefined))
  \/ (lower <> "number" /\ lower <> "string" /\ lower <> "boolean"
      /\ lower <> "json" /\ autoDetect (round s) v = Ok c).
Proof.
  intros Hn Hc lower. unfold prepareValue in Hc. rewrite Hn in Hc.
  cbv zeta in Hc. fold lower in Hc.
  destruct (String.eqb lower "number") eqn:E1.
  { apply String.eqb_eq in E1. left. split; [done|].
    destruct (negb (isFinite (toNumber v))); [done|].
    by apply (toRoundedNumber_number (round s) (toNumber v)). }
  destruct (String.eqb lower "string") eqn:E2.
  { apply String.eqb_eq in E2. right. left. split; [done|].
    injection Hc as <-. eauto. }
  destruct (String.eqb lower "boolean") eqn:E3.
  { apply String.eqb_eq in E3. do 2 right. left. split; [done|].
    injection Hc as <-. eauto. }
  destruct (String.eqb lower "json") eqn:E4.
  { apply String.eqb_eq in E4. do 3 right. left. split; [done|].
    injection Hc as <-.
    destruct v; try done; try (destruct (stringify_cases (JBool b)) as [[t ->]| ->]; by eauto);
      try (destruct (stringify_cases (JNum x)) as [[t ->]| ->]; by eauto);
      try (by eauto).
    - destruct (stringify_cases (JArr items)) as [[t ->]| ->]; by eauto.
    - destruct (stringify_cases (JObj fields)) as [[t ->]| ->]; by eauto. }
  do 4 right.
  apply String.eqb_neq in E1, E2, E3, E4. done.
Qed.

(** The value of a converted sample has the shape of its tag, and the
    comparable key is the value. *)
Lemma prepareValue_shape (v : jsval) (s : settings) (c : converted) :
  prepareValue v s = Ok c ->
  cv_comparable c = cv_value c
  /\ match cv_type c with
     | TNumber => exists x, cv_value c = JNum x
     | TString => exists t, cv_value c = JStr t
     | TBoolean => exists b, cv_value c = JBool b
     | TJson => (exists t, cv_value c = JStr t) \/ cv_value c = JUndefined
     | TNull => cv_value c = JNull /\ is_nullish v = true
     end
  /\ (is_nullish v = true -> cv_type c = TNull).
Proof.
  intros Hc. destruct (is_nullish v) eqn:Hn.
  { unfold prepareValue in Hc. rewrite Hn in Hc. by injection Hc as <-. }
  destruct (prepareValue_cases v s c Hn Hc)
    as [[_ [r ->]]|[[_ [t ->]]|[[_ [b ->]]|[[_ [[t ->]| ->]]|(_ & _ & _ & _ & Ha)]]]];
    simpl; try (by repeat split; eauto).
  destruct (autoDetect_cases _ _ _ Hn Ha) as [[r ->]|[[b ->]|[[t ->]| ->]]];
    simpl; try (by repeat split; eauto).
  split; [done|]. split; [|done]. apply stringify_cases.
Qed.

(** X1: [prepareValue]: the converted value.  The comparable key is the
    value itself; the value has the JavaScript type of its tag (a number,
    a string, a boolean, a JSON text or [undefined] where
    [JSON.stringify] gives none, [null]); the tag is [null] exactly for
    the values [null] and [undefined]; and a storage type that names a
    tag other than [null] forces this tag on every other value. *)
Theorem prepareValue_typed (v : jsval) (s : settings) (c : converted) :
  prepareValue v s = Ok c ->
  cv_comparable c = cv_value c
  /\ match cv_type c with
     | TNumber => exists x, cv_value c = JNum x
     | TString => exists t, cv_value c = JStr t
     | TBoolean => exists b, cv_value c = JBool b
     | TJson => (exists t, cv_value c = JStr t) \/ cv_value c = JUndefined
     | TNull => cv_value c = JNull
     end
  /\ (cv_type c = TNull <-> is_nullish v = true)
  /\ (forall t, is_nullish v = false -> t <> TNull ->
        toLowerCase (storageType s) = type_name t -> cv_type c = t).
Proof.
  intros Hc. destruct (prepareValue_shape v s c Hc) as (Hk & Hs & Hn).
  split; [done|]. split; [by destruct (cv_type c); try done; destruct Hs|].
  split.
  { split; [|done]. intros Ht. rewrite Ht in Hs. by destruct Hs. }
  intros t Hv Ht Hl.
  assert (Hlow : toLowerCase (if String.eqb (storageType s) "" then "auto"
                              else storageType s) = type_name t).
  { destruct (String.eqb (storageType s) "") eqn:E; [|done].
    apply String.eqb_eq in E. rewrite E in Hl. by destruct t. }
  pose proof (prepareValue_cases v s c Hv Hc) as Hcases. simpl in Hcases.
  rewrite Hlow in Hcases.
  destruct Hcases
    as [[E [r ->]]|[[E [u ->]]|[[E [b ->]]|[[E [[u ->]| ->]]|(E1 & E2 & E3 & E4 & _)]]]];
    by destruct t.
Qed.

End Values.

Section ValueExamples.
#[local] Existing Instance Reference.ref_builtins.

(** Witness: the number 1 under the storage type [Boolean]. *)
Lemma prepareValue_typed_witness :
  prepareValue (JNum 1%float) (Settings "Boolean" None)
  = Ok (Converted TBoolean (JBool true) (JBool true))
  /\ (forall t, t <> TNull -> toLowerCase "Boolean" = type_name t -> TBoolean = t).
Proof.
  split; [reflexivity|]. intros t.
  exact (proj2 (proj2 (proj2
    (prepareValue_typed (JNum 1%float) (Settings "Boolean" None)
       (Converted TBoolean (JBool true) (JBool true)) eq_refl))) t eq_refl).
Defined.

End ValueExamples.
End ValueFacts.

(** ** The rows that [pushHistory] queues *)

Module RowFacts.
Import NormalizerFacts ValueFacts PipelineFacts.

Section Rows.
Context `{Builtins}.

(** [ensureTableFor] answers from the cache, or registers a generated
    name; it touches the table cache only. *)
Lemma ensureTableFor_ok (h : host) (a a' : adapter) (id : string)
    (t : vtype) (info : tableInfo) :
  ensureTableFor h a id t = Ok (info, a') ->
  tableCache a' !! id = Some info
  /\ tracked a' = tracked a
  /\ buffer a' = buffer a
  /\ batchSize a' = batchSize a
  /\ ((tableCache a !! id = Some info /\ a' = a)
      \/ (tableCache a !! id = None
          /\ generateTableName (tablePrefix a) (tableCache a) id = Some (ti_table info)
          /\ ti_type info = t
          /\ a' = set_tableCache a (<[id := info]> (tableCache a)))).
Proof.
  unfold ensureTableFor, ensureTableFor_begin, ensureTableFor_finish. intros Hok.
  destruct (tableCache a !! id) as [cached|] eqn:Hc.
  { injection Hok as <- <-. repeat split; try done. by left. }
  destruct (generateTableName _ _ _) as [name|] eqn:Hg; [|done].
  destruct (negb (client a)); [done|].
  destruct (negb (storeAccepts h)); [done|].
  destruct (formatDateTime (now h)); [|done].
  injection Hok as <- <-. simpl. rewrite lookup_insert_eq.
  repeat split; try done. by right.
Qed.

(** The stages of [pushHistory] that a sample has passed when it reaches
    the policy engine. *)
Lemma pushHistory_prepare_inr (h : host) (a : adapter) (id : string)
    (state : rawState) (allowCreate : bool) (p : prepared) :
  pushHistory_prepare h a id state allowCreate = inr p ->
  exists e0 a0 c0,
    ((tracked a !! id = Some e0 /\ a0 = a)
     \/ (tracked a !! id = None /\ allowCreate = true
         /\ ensureEntryForId h a id = (e0, a0)))
    /\ strict_eq (raw_val state) JUndefined = false
    /\ p_state p = cloneState h state
    /\ p_entry p = set_lastState e0 (Some (cloneState h state))
    /\ prepareValue (raw_val state) (settings_of (e_config e0)) = Ok c0
    /\ ensureTableFor h (set_tracked a0 (<[id := p_entry p]> (tracked a0))) id
         (cv_type c0) = Ok (p_table p, p_adapter p)
    /\ ((cv_type c0 = ti_type (p_table p) /\ p_converted p = c0)
        \/ (cv_type c0 <> ti_type (p_table p)
            /\ prepareValue (raw_val state)
                 (with_storageType (e_config e0) (type_name (ti_type (p_table p))))
               = Ok (p_converted p)))
    /\ cv_type (p_converted p) = ti_type (p_table p).
Proof.
  unfold pushHistory_prepare. intros Hp.
  match type of Hp with
  | match ?f with _ => _ end = _ => destruct f as [[e0 a0]|] eqn:Hf; [|done]
  end.
  cbv zeta in Hp. change (s_val (cloneState h state)) with (raw_val state) in Hp.
  destruct (strict_eq (raw_val state) JUndefined) eqn:Hu; [done|].
  destruct (prepareValue (raw_val state) (settings_of (e_config e0)))
    as [c0|] eqn:Hc0; [|done].
  destruct (ensureTableFor _ _ _ _) as [[info a1]|] eqn:Ht; [|done].
  assert (Hfound : (tracked a !! id = Some e0 /\ a0 = a)
     \/ (tracked a !! id = None /\ allowCreate = true
         /\ ensureEntryForId h a id = (e0, a0))).
  { destruct (tracked a !! id) as [e|]; [left; by injection Hf as <- <-|].
    destruct allowCreate; [|done]. right. repeat split; try done.
    by injection Hf as ->. }
  destruct (vtype_eqb (ti_type info) (cv_type c0)) eqn:Hty; simpl in Hp.
  - apply vtype_eqb_eq in Hty. rewrite <- Hty, vtype_eqb_refl in Hp. simpl in Hp.
    injection Hp as <-. simpl. exists e0, a0, c0.
    repeat split; try done. by left.
  - destruct (prepareValue _ (with_storageType _ _)) as [c1|] eqn:Hc1; [|done].
    destruct (vtype_eqb (cv_type c1) (ti_type info)) eqn:Hty1; [|done].
    simpl in Hp. injection Hp as <-. simpl. exists e0, a0, c0.
    apply vtype_eqb_eq in Hty1.
    repeat split; try done. right. split; [|done].
    intros E. rewrite E, vtype_eqb_refl in Hty. done.
Qed.

(** An early return of [pushHistory] queues nothing. *)
Lemma pushHistory_prepare_inl (h : host) (a a' : adapter) (id : string)
    (state : rawState) (allowCreate : bool) (o : pushOutcome) :
  pushHistory_prepare h a id state allowCreate = inl (o, a') ->
  (forall r c st full, o <> Queued r c st full) /\ buffer a' = buffer a.
Proof.
  intros Hp. pose proof (pushHistory_prepare_buffer h a id state allowCreate) as Hb.
  rewrite Hp in Hb. split; [|done].
  unfold pushHistory_prepare in Hp.
  repeat case_match; by simplify_eq.
Qed.

(** What [pushHistory] has made of a sample whose row it queued. *)
Lemma pushHistory_queued (h : host) (a a' : adapter) (id : string)
    (state : rawState) (timerRelog allowCreate : bool)
    (r : row) (c : converted) (st : sample) (full : bool) :
  pushHistory_queue h a id state timerRelog allowCreate = (Queued r c st full, a') ->
  exists p,
    pushHistory_prepare h a id state allowCreate = inr p
    /\ c = p_converted p /\ st = p_state p
    /\ shouldSkipValue (p_entry p) c st timerRelog = (false, p_entry p)
    /\ buildRow id (p_table p) c st = Ok r
    /\ a' = set_buffer (set_tracked (p_adapter p)
                          (<[id := p_entry p]> (tracked (p_adapter p))))
              (buffer (p_adapter p) ++ [r])
    /\ full = (batchSize (p_adapter p) <=? length (buffer (p_adapter p) ++ [r]))%nat.
Proof.
  unfold pushHistory_queue. intros Hq.
  destruct (pushHistory_prepare h a id state allowCreate) as [[o a1]|p] eqn:Hp.
  { apply pushHistory_prepare_inl in Hp as [Hno _]. injection Hq as -> _.
    by destruct (Hno r c st full). }
  exists p. split; [done|]. unfold pushHistory_decide in Hq.
  destruct (shouldSkipValue _ _ _ _) as [skip e'] eqn:Hs.
  destruct skip; [done|].
  assert (e' = p_entry p) as ->.
  { unfold shouldSkipValue in Hs. repeat case_match; by simplify_eq. }
  destruct (buildRow _ _ _ _) as [r0|] eqn:Hr; [|done].
  unfold queueRow in Hq. simpl in Hq. by simplify_eq.
Qed.

(** X2: [pushHistory]: the row it queues.  The row carries the identifier of
    the sample and the table and type registered for it; the converted
    value has that type; the timestamp of the sample is a valid date; the
    written value is the number, the string, 0 or 1 for a boolean, the
    JSON text (or [null] where [JSON.stringify] gave none) or [null] that
    the column of the type takes; and the row is the last of the queue. *)
Theorem queued_row_consistent (h : host) (a a' : adapter) (id : string)
    (state : rawState) (timerRelog allowCreate : bool)
    (r : row) (c : converted) (st : sample) (full : bool) :
  pushHistory_queue h a id state timerRelog allowCreate = (Queued r c st full, a') ->
  r_id r = id
  /\ tableCache a' !! id = Some (TableInfo (r_table r) (r_type r))
  /\ cv_type c = r_type r
  /\ st = cloneState h state
  /\ Date_valid (s_ts st) = true
  /\ match r_type r with
     | TNumber => exists x, cv_value c = JNum x /\ rv_value (r_values r) = JNum x
     | TString => exists t, cv_value c = JStr t /\ rv_value (r_values r) = JStr t
     | TBoolean =>
         exists b, cv_value c = JBool b
                   /\ rv_value (r_values r) = JNum (if b then 1 else 0)%float
     | TJson =>
         (exists t, cv_value c = JStr t /\ rv_value (r_values r) = JStr t)
         \/ (cv_value c = JUndefined /\ rv_value (r_values r) = JNull)
     | TNull => rv_value (r_values r) = JNull
     end
  /\ buffer a' = buffer a ++ [r].
Proof.
  intros Hq.
  destruct (pushHistory_queued _ _ _ _ _ _ _ _ _ _ _ Hq)
    as (p & Hp & -> & -> & _ & Hr & -> & _).
  destruct (pushHistory_prepare_inr _ _ _ _ _ _ Hp)
    as (e0 & a0 & c0 & _ & _ & Hst & _ & Hc0 & Ht & Hagain & Hty).
  apply ensureTableFor_ok in Ht as (Hcache & _ & _ & _ & _).
  pose proof (pushHistory_prepare_buffer h a id state allowCreate) as Hb.
  rewrite Hp in Hb.
  assert (Hshape : exists s, prepareValue (raw_val state) s = Ok (p_converted p)).
  { destruct Hagain as [[_ ->]|[_ Hc1]]; eauto. }
  destruct Hshape as [s Hs]. apply prepareValue_shape in Hs as (_ & Hs & _).
  unfold buildRow, formatDateTime in Hr.
  destruct (Date_valid (s_ts (p_state p))) eqn:Hv; [|done].
  injection Hr as <-. simpl. rewrite Hb.
  split; [done|]. split; [by destruct (p_table p)|]. split; [done|].
  split; [done|]. split; [done|]. split; [|done].
  rewrite Hty in Hs. destruct (ti_type (p_table p)); simpl.
  - destruct Hs as [x ->]. eauto.
  - destruct Hs as [t ->]. eauto.
  - destruct Hs as [[] ->]; eauto.
  - destruct Hs as [[t ->]| ->]; eauto.
  - done.
Qed.

(** X3: [pushHistory]: [null] and the type of the table.  A table whose
    registered type is [null] takes no value other than [null], and a
    table of another type takes no [null]: such a sample queues no row
    and leaves the queue as it is. *)
Theorem null_needs_null_table (h : host) (a : adapter) (id : string)
    (state : rawState) (timerRelog allowCreate : bool) (info : tableInfo) :
  tableCache a !! id = Some info ->
  is_nullish (raw_val state) = negb (vtype_eqb (ti_type info) TNull) ->
  let result := pushHistory_queue h a id state timerRelog allowCreate in
  (forall r c st full, result.1 <> Queued r c st full)
  /\ buffer result.2 = buffer a.
Proof.
  intros Hinfo Hnull result. subst result.
  destruct (pushHistory_queue h a id state timerRelog allowCreate) as [o a'] eqn:Hq.
  simpl.
  assert (Hno : forall r c st full, o <> Queued r c st full).
  { intros r c st full ->.
    destruct (pushHistory_queued _ _ _ _ _ _ _ _ _ _ _ Hq)
      as (p & Hp & -> & -> & _).
    destruct (pushHistory_prepare_inr _ _ _ _ _ _ Hp)
      as (e0 & a0 & c0 & Hfound & _ & _ & _ & Hc0 & Ht & Hagain & Hty).
    assert (Hcache : tableCache (set_tracked a0 (<[id := p_entry p]> (tracked a0))) !! id
                     = Some info).
    { destruct Hfound as [[_ ->]|(Hn & _ & He)]; [done|].
      unfold ensureEntryForId in He. rewrite Hn in He. by injection He as _ <-. }
    apply ensureTableFor_ok in Ht as (_ & _ & _ & _ & [[Hhit _]|[Hmiss _]]);
      [|congruence].
    rewrite Hcache in Hhit. injection Hhit as Hi. subst info.
    assert (Hshape : exists s, prepareValue (raw_val state) s = Ok (p_converted p)).
    { destruct Hagain as [[_ ->]|[_ Hc1]]; eauto. }
    destruct Hshape as [s Hs]. apply prepareValue_shape in Hs as (_ & Hs & Hn).
    rewrite Hty in Hs, Hn.
    destruct (ti_type (p_table p)); simpl in Hnull.
    1-4: by specialize (Hn Hnull).
    destruct Hs as [_ Hs]. congruence. }
  split; [done|].
  unfold pushHistory_queue in Hq.
  pose proof (pushHistory_prepare_buffer h a id state allowCreate) as Hb.
  destruct (pushHistory_prepare h a id state allowCreate) as [[o1 a1]|p] eqn:Hp.
  { by injection Hq as _ <-. }
  unfold pushHistory_decide in Hq.
  destruct (shouldSkipValue _ _ _ _) as [skip e'].
  destruct skip; [by injection Hq as _ <-|].
  destruct (buildRow _ _ _ _); [|by injection Hq as _ <-].
  unfold queueRow in Hq. injection Hq as <- _. by destruct (Hno _ _ _ _ eq_refl).
Qed.

(** X4: [pushHistory]: the last state of the point.  Whatever becomes of a
    sample whose value is not [undefined] (stored, skipped, or refused by
    the conversion or by the store), the entry of its identifier, which
    exists or may be created, holds the normalized sample as its last
    state. *)
Theorem pushHistory_records_lastState (h : host) (a : adapter) (id : string)
    (state : rawState) (timerRelog allowCreate : bool) :
  strict_eq (raw_val state) JUndefined = false ->
  is_Some (tracked a !! id) \/ allowCreate = true ->
  exists e,
    tracked (pushHistory_queue h a id state timerRelog allowCreate).2 !! id = Some e
    /\ lastState e = Some (cloneState h state).
Proof.
  intros Hu Hfound.
  unfold pushHistory_queue, pushHistory_prepare.
  match goal with
  | |- context [match ?f with Some _ => _ | None => inl (NotTracked, a) end] =>
      destruct f as [[e0 a0]|] eqn:Hf
  end.
  2: { destruct (tracked a !! id); [done|].
       destruct Hfound as [[? ?]| ->]; done. }
  cbv zeta. change (s_val (cloneState h state)) with (raw_val state). rewrite Hu.
  set (e1 := set_lastState e0 (Some (cloneState h state))).
  set (a1 := set_tracked a0 (<[id := e1]> (tracked a0))).
  assert (H1 : tracked a1 !! id = Some e1) by (simpl; apply lookup_insert_eq).
  destruct (prepareValue _ _) as [c0|]; [|by exists e1].
  destruct (ensureTableFor h a1 id (cv_type c0)) as [[info a2]|] eqn:Ht;
    [|by exists e1].
  apply ensureTableFor_ok in Ht as (_ & Htr & _).
  assert (H2 : tracked a2 !! id = Some e1) by (by rewrite Htr).
  match goal with
  | |- context [match ?again with Ok _ => _ | Throw _ => _ end] =>
      destruct again as [c1|]; [|by exists e1]
  end.
  destruct (negb (vtype_eqb (cv_type c1) (ti_type info))); [by exists e1|].
  unfold pushHistory_decide. simpl.
  destruct (shouldSkipValue e1 c1 (cloneState h state) timerRelog) as [skip e'] eqn:Hs.
  assert (He' : lastState e' = Some (cloneState h state)).
  { unfold shouldSkipValue in Hs. repeat case_match; by simplify_eq. }
  destruct skip.
  { exists e'. simpl. by rewrite lookup_insert_eq. }
  destruct (buildRow _ _ _ _).
  - exists e'. simpl. by rewrite lookup_insert_eq.
  - exists e'. simpl. by rewrite lookup_insert_eq.
Qed.

End Rows.

Section RowExamples.
#[local] Existing Instance Reference.ref_builtins.

(** Witness: the number 12 for the tracked point [point]. *)
Lemma queued_row_consistent_witness :
  exists r full a',
    pushHistory_queue quietHost (pointAdapter deadbandEntry) "point"
      (rawSample (JNum 12%float) (JNum 62000%float)) false false
    = (Queued r (numberValue 12%float)
         (cloneState quietHost (rawSample (JNum 12%float) (JNum 62000%float))) full, a')
    /\ r_id r = "point"
    /\ tableCache a' !! "point" = Some (TableInfo (r_table r) (r_type r))
    /\ buffer a' = [] ++ [r].
Proof.
  eexists _, _, _. split; [reflexivity|].
  destruct (queued_row_consistent quietHost (pointAdapter deadbandEntry) _ "point"
              (rawSample (JNum 12%float) (JNum 62000%float)) false false
              _ _ _ _ eq_refl) as (H1 & H2 & _ & _ & _ & _ & H3).
  split; [exact H1|]. split; [exact H2|exact H3].
Defined.

(** Witness: a [null] for the point [point], whose table holds numbers. *)
Lemma null_needs_null_table_witness :
  buffer (pushHistory_queue quietHost (pointAdapter deadbandEntry) "point"
            (rawSample JNull (JNum 62000%float)) false false).2
  = [].
Proof.
  exact (proj2 (null_needs_null_table quietHost (pointAdapter deadbandEntry) "point"
                  (rawSample JNull (JNum 62000%float)) false false
                  (TableInfo "history_point" TNumber) eq_refl eq_refl)).
Defined.

(** Witness: a string for the point [point], whose table holds numbers;
    the conversion fails and the last state is kept all the same. *)
Lemma pushHistory_records_lastState_witness :
  exists e,
    tracked (pushHistory_queue quietHost (pointAdapter deadbandEntry) "point"
               (rawSample (JStr "open") (JNum 62000%float)) false false).2 !! "point"
    = Some e
    /\ lastState e
       = Some (cloneState quietHost (rawSample (JStr "open") (JNum 62000%float))).
Proof.
  apply (pushHistory_records_lastState quietHost (pointAdapter deadbandEntry) "point"
           (rawSample (JStr "open") (JNum 62000%float)) false false eq_refl).
  left. exists deadbandEntry. reflexivity.
Defined.

End RowExamples.
End RowFacts.

(** ** The policy engine and the stored sample *)

Module StoredFacts.
Import NormalizerFacts ValueFacts PipelineFacts RowFacts.

Section Stored.
Context `{Builtins}.

(** X5: [shouldSkipValue]: the first sample of a point.  While nothing is
    stored for the point, neither the spacing filter nor the change-only
    filter applies: the sample is skipped exactly when the zero/null
    filter or the range clamp excludes it, and the entry is left as it
    is. *)
Theorem first_sample_filters (e : entry) (c : converted) (state : sample)
    (timerRelog : bool) :
  lastStoredState e = None ->
  shouldSkipValue e c state timerRelog
  = (ignoreZeroHit e c timerRelog || belowThreshold e c || aboveThreshold e c, e).
Proof.
  intros Hs. unfold shouldSkipValue, blockTimeActive. rewrite Hs.
  destruct (ignoreZeroHit e c timerRelog); [done|].
  destruct (belowThreshold e c); [done|].
  destruct (aboveThreshold e c); [done|]. simpl.
  rewrite ?bool_decide_eq_false_2 by (by intros [? ?]).
  by rewrite ?andb_false_r.
Qed.

(** X6: [shouldSkipValue]: what the decision may touch.  A sample that is
    not skipped leaves the entry as it is; a skipped one changes at most
    the last-skipped record, to the sample itself: the settings, the last
    stored sample with its key and time, the last state and the timer are
    never altered. *)
Theorem shouldSkipValue_keeps_stored (e : entry) (c : converted)
    (state : sample) (timerRelog : bool) :
  let decision := shouldSkipValue e c state timerRelog in
  (decision.1 = false -> decision.2 = e)
  /\ (decision.2 = e \/ decision.2 = set_lastSkippedState e (Some state))
  /\ e_config decision.2 = e_config e
  /\ lastStoredState decision.2 = lastStoredState e
  /\ lastStoredComparable decision.2 = lastStoredComparable e
  /\ lastLogTime decision.2 = lastLogTime e
  /\ lastState decision.2 = lastState e
  /\ relogTimeout decision.2 = relogTimeout e.
Proof.
  unfold shouldSkipValue. repeat case_match; simpl; repeat split; auto; done.
Qed.

(** A converted value equals itself under the equality of its type, a
    number as long as it is finite. *)
Lemma comparableEqual_self (v : jsval) (s : settings) (c : converted) :
  prepareValue v s = Ok c ->
  (forall x, cv_comparable c = JNum x -> isFinite x = true) ->
  comparableEqual (cv_type c) (cv_comparable c) (cv_comparable c) = true.
Proof.
  intros Hc Hfin. apply prepareValue_shape in Hc as (Hk & Hs & _).
  rewrite Hk in *. destruct (cv_type c).
  - destruct Hs as [x Hx]. rewrite Hx in *. apply number_self_equal. by apply Hfin.
  - destruct Hs as [t ->]. apply strict_eq_refl_string.
  - destruct Hs as [b ->]. apply strict_eq_refl_bool.
  - destruct Hs as [[t ->]| ->]; [apply strict_eq_refl_string|done].
  - by destruct Hs as [-> _].
Qed.

(** Right after a sample is stored, the same converted value counts as
    unchanged. *)
Lemma stored_value_unchanged (e : entry) (v : jsval) (s : settings)
    (c : converted) (st : sample) (seen : option sample) :
  prepareValue v s = Ok c ->
  (forall x, cv_comparable c = JNum x -> isFinite x = true) ->
  valueChanged (set_lastState (storeCommit e c st) seen) c = false.
Proof.
  intros Hc Hfin. unfold valueChanged, valuesEqual. simpl.
  rewrite vtype_eqb_refl. simpl.
  by rewrite (comparableEqual_self v s c Hc Hfin).
Qed.

(** X7: [pushHistory]: a value stored once.  With change-only logging and no
    re-log interval, a sample that carries the same value as the one just
    stored for its point (for a number: a finite one) is skipped and the
    queue is left as it is, whatever its timestamp. *)
Theorem same_value_stored_once (h h' : host) (a a1 : adapter) (id : string)
    (state state' : rawState) (allowCreate allowCreate' : bool)
    (e0 : entry) (r : row) (c : converted) (st : sample) (full : bool) :
  tracked a !! id = Some e0 ->
  changesOnly (e_config e0) = true ->
  num_gt (changesRelogInterval (e_config e0)) 0%float = false ->
  pushHistory_queue h a id state false allowCreate = (Queued r c st full, a1) ->
  (forall x, cv_comparable c = JNum x -> isFinite x = true) ->
  raw_val state' = raw_val state ->
  let a2 := pushHistory_store a1 id c st in
  let result := pushHistory_queue h' a2 id state' false allowCreate' in
  result.1 = Skipped /\ buffer result.2 = buffer a2.
Proof.
  intros Hid Hco Hrelog Hq Hfin Hval a2 result.
  destruct (pushHistory_queued _ _ _ _ _ _ _ _ _ _ _ Hq)
    as (p & Hp & -> & -> & _ & _ & Ha1 & _).
  destruct (pushHistory_prepare_inr _ _ _ _ _ _ Hp)
    as (e & a0 & c0 & Hfound & Hu & Hst & He & Hc0 & Ht & Hagain & Hty).
  destruct Hfound as [[Hid' ->]|[Hid' _]]; [|congruence].
  assert (e = e0) as -> by congruence.
  apply ensureTableFor_ok in Ht as (Hcache & Htr & _).
  (* the adapter after the write *)
  assert (Htr1 : tracked a1 !! id = Some (p_entry p)).
  { rewrite Ha1. simpl. apply lookup_insert_eq. }
  assert (Hcache1 : tableCache a1 !! id = Some (p_table p)) by (by rewrite Ha1).
  set (e2 := storeCommit (p_entry p) (p_converted p) (p_state p)).
  assert (Ha2 : tracked a2 !! id = Some e2
                /\ tableCache a2 !! id = Some (p_table p)).
  { subst a2. unfold pushHistory_store. rewrite Htr1. simpl.
    by rewrite lookup_insert_eq. }
  destruct Ha2 as [Htr2 Hcache2].
  assert (Hcfg : e_config e2 = e_config e0) by (by subst e2; rewrite He).
  (* the second sample reaches the policy engine with the same value *)
  subst result. unfold pushHistory_queue, pushHistory_prepare.
  rewrite Htr2. cbv zeta.
  change (s_val (cloneState h' state')) with (raw_val state').
  rewrite Hval, Hu, Hcfg, Hc0.
  set (e3 := set_lastState e2 (Some (cloneState h' state'))).
  set (a3 := set_tracked a2 (<[id := e3]> (tracked a2))).
  assert (Ht3 : ensureTableFor h' a3 id (cv_type c0) = Ok (p_table p, a3)).
  { unfold ensureTableFor, ensureTableFor_begin.
    change (tableCache a3) with (tableCache a2). by rewrite Hcache2. }
  rewrite Ht3.
  assert (Hsame :
    (if negb (vtype_eqb (ti_type (p_table p)) (cv_type c0))
     then prepareValue (raw_val state)
            (with_storageType (e_config e0) (type_name (ti_type (p_table p))))
     else Ok c0) = Ok (p_converted p)).
  { destruct Hagain as [[E ->]|[E Hc1]].
    - by rewrite E, vtype_eqb_refl.
    - destruct (vtype_eqb (ti_type (p_table p)) (cv_type c0)) eqn:E'; [|done].
      apply vtype_eqb_eq in E'. congruence. }
  rewrite Hsame, Hty, vtype_eqb_refl. simpl.
  unfold pushHistory_decide. simpl.
  assert (Hprep : exists s, prepareValue (raw_val state) s = Ok (p_converted p)).
  { destruct Hagain as [[_ ->]|[_ Hc1]]; eauto. }
  destruct Hprep as [s Hs].
  pose proof (stored_value_unchanged (p_entry p) _ _ _ (p_state p)
                (Some (cloneState h' state')) Hs Hfin) as Hsame'.
  fold e2 in Hsame'. fold e3 in Hsame'.
  assert (Hskip : (shouldSkipValue e3 (p_converted p) (cloneState h' state') false).1
                  = true).
  { unfold shouldSkipValue.
    destruct (blockTimeActive _ _ _); [done|].
    destruct (ignoreZeroHit _ _ _); [done|].
    destruct (belowThreshold _ _); [done|].
    destruct (aboveThreshold _ _); [done|].
    rewrite Hsame'.
    assert (Hco3 : changesOnly (e_config e3) = true)
      by (subst e3; simpl; by rewrite He).
    assert (Hst3 : bool_decide (is_Some (lastStoredState e3)) = true)
      by (apply bool_decide_eq_true_2; subst e3; simpl; eauto).
    assert (Hdue : relogDue e3 (cloneState h' state') = false).
    { unfold relogDue.
      replace (changesRelogInterval (e_config e3))
        with (changesRelogInterval (e_config e0))
        by (subst e3; simpl; by rewrite He).
      rewrite Hrelog. reflexivity. }
    rewrite Hco3, Hst3, Hdue. simpl.
    by destruct (disableSkippedValueLogging _). }
  destruct (shouldSkipValue e3 _ _ _) as [skip e4]. simpl in Hskip. subst skip.
  done.
Qed.

End Stored.

Section StoredExamples.
#[local] Existing Instance Reference.ref_builtins.

(** Witness: the first sample of a point under the default settings is
    not skipped. *)
Lemma first_sample_filters_witness :
  shouldSkipValue (ephemeralEntry "point") (numberValue 0%float)
    (numberSample 0%float 1000%float) false
  = (false, ephemeralEntry "point").
Proof.
  exact (first_sample_filters (ephemeralEntry "point") (numberValue 0%float)
           (numberSample 0%float 1000%float) false eq_refl).
Defined.

(** Witness: the number 12 is stored for the point [point], and comes
    again a minute later. *)
Lemma same_value_stored_once_witness :
  exists r full a1,
    pushHistory_queue quietHost (pointAdapter deadbandEntry) "point"
      (rawSample (JNum 12%float) (JNum 62000%float)) false false
    = (Queued r (numberValue 12%float)
         (cloneState quietHost (rawSample (JNum 12%float) (JNum 62000%float)))
         full, a1)
    /\ (pushHistory_queue quietHost
          (pushHistory_store a1 "point" (numberValue 12%float)
             (cloneState quietHost (rawSample (JNum 12%float) (JNum 62000%float))))
          "point" (rawSample (JNum 12%float) (JNum 122000%float)) false false).1
       = Skipped.
Proof.
  eexists _, _, _. split; [reflexivity|].
  refine (proj1 (same_value_stored_once quietHost quietHost
            (pointAdapter deadbandEntry) _ "point"
            (rawSample (JNum 12%float) (JNum 62000%float))
            (rawSample (JNum 12%float) (JNum 122000%float)) false false
            deadbandEntry _ _ _ _ eq_refl eq_refl eq_refl eq_refl _ eq_refl)).
  intros x [= <-]. reflexivity.
Defined.

End StoredExamples.
End StoredFacts.

(** ** The flush operation: grouping, success and accounting *)

Module AccountingFacts.
Import FlushFacts.

(** *** The grouping of the rows by table *)

Lemma group_add_keys (t : string) (v : rowValues)
    (g : list (string * list rowValues)) :
  (group_add t v g).*1 = if bool_decide (t ∈ g.*1) then g.*1 else g.*1 ++ [t].
Proof.
  induction g as [|[t0 vs] rest IH].
  { by rewrite bool_decide_eq_false_2 by apply not_elem_of_nil. }
  cbn [group_add]. destruct (String.eqb t0 t) eqn:E.
  - apply String.eqb_eq in E. subst t0.
    rewrite bool_decide_eq_true_2; [done|]. rewrite fmap_cons. apply list_elem_of_here.
  - apply String.eqb_neq in E. rewrite !fmap_cons, IH. cbn [fst].
    destruct (bool_decide (t ∈ rest.*1)) eqn:Hin.
    + apply bool_decide_eq_true_1 in Hin.
      rewrite bool_decide_eq_true_2; [done|]. by apply list_elem_of_further.
    + apply bool_decide_eq_false_1 in Hin.
      rewrite bool_decide_eq_false_2; [done|].
      intros [?|?]%elem_of_cons; congruence.
Qed.

Lemma group_add_NoDup (t : string) (v : rowValues)
    (g : list (string * list rowValues)) :
  NoDup g.*1 -> NoDup (group_add t v g).*1.
Proof.
  intros Hnd. rewrite group_add_keys.
  destruct (bool_decide (t ∈ g.*1)) eqn:Hin; [done|].
  apply bool_decide_eq_false_1 in Hin.
  apply NoDup_app. split; [done|]. split; [|apply NoDup_singleton].
  intros x Hx ->%list_elem_of_singleton. done.
Qed.

Lemma group_add_key_in (t : string) (v : rowValues)
    (g : list (string * list rowValues)) (t' : string) :
  t' ∈ (group_add t v g).*1 <-> t' = t \/ t' ∈ g.*1.
Proof.
  rewrite group_add_keys.
  destruct (bool_decide (t ∈ g.*1)) eqn:Hin.
  - apply bool_decide_eq_true_1 in Hin. split; [by right|].
    by intros [->|?].
  - rewrite elem_of_app, list_elem_of_singleton. tauto.
Qed.

(** The groups after a row is added: the group of its table has the
    value appended, or is new with the value alone; the others are as
    they were. *)
Lemma group_add_elem (t : string) (v : rowValues)
    (g : list (string * list rowValues)) (t' : string) (vs' : list rowValues) :
  NoDup g.*1 ->
  (t', vs') ∈ group_add t v g ->
  (t' <> t /\ (t', vs') ∈ g)
  \/ (t' = t
      /\ ((exists vs, (t, vs) ∈ g /\ vs' = vs ++ [v])
          \/ ((t ∉ g.*1) /\ vs' = [v]))).
Proof.
  induction g as [|[t0 vs] rest IH]; simpl; intros Hnd Hin.
  { apply list_elem_of_singleton in Hin. injection Hin as -> ->.
    right. split; [done|]. right. split; [apply not_elem_of_nil|done]. }
  apply NoDup_cons in Hnd as [Hnot Hnd].
  destruct (String.eqb t0 t) eqn:E.
  - apply String.eqb_eq in E. subst t0.
    apply elem_of_cons in Hin as [Hin|Hin].
    + injection Hin as -> ->. right. split; [done|]. left.
      exists vs. split; [apply list_elem_of_here|done].
    + left. split; [|by apply list_elem_of_further].
      intros ->. apply Hnot. apply list_elem_of_fmap. by exists (t, vs').
  - apply String.eqb_neq in E.
    apply elem_of_cons in Hin as [Hin|Hin].
    + injection Hin as -> ->. left. split; [done|apply list_elem_of_here].
    + destruct (IH Hnd Hin) as [[Hne Hg]|[-> [(ws & Hg & ->)|[Hg ->]]]].
      * left. split; [done|by apply list_elem_of_further].
      * right. split; [done|]. left. exists ws.
        split; [by apply list_elem_of_further|done].
      * right. split; [done|]. right. split; [|done].
        intros [?|?]%elem_of_cons; [congruence|done].
Qed.

Lemma group_add_length (t : string) (v : rowValues)
    (g : list (string * list rowValues)) :
  length (concat (group_add t v g).*2) = S (length (concat g.*2)).
Proof.
  induction g as [|[t0 vs] rest IH]; [done|].
  cbn [group_add]. destruct (String.eqb t0 t); rewrite !fmap_cons;
    cbn [snd concat]; rewrite !length_app.
  - simpl. lia.
  - rewrite IH. lia.
Qed.

Lemma group_rows_snoc (rows : list row) (r : row) :
  group_rows (rows ++ [r]) = group_add (r_table r) (r_values r) (group_rows rows).
Proof. unfold group_rows. by rewrite fold_left_app. Qed.

Lemma group_rows_length (rows : list row) :
  length (concat (group_rows rows).*2) = length rows.
Proof.
  induction rows as [|r rows IH] using rev_ind; [done|].
  rewrite group_rows_snoc, group_add_length, IH, length_app. simpl. lia.
Qed.

Lemma group_rows_nonempty (rows : list row) :
  rows <> [] -> group_rows rows <> [].
Proof.
  intros Hne Hg. pose proof (group_rows_length rows) as Hl.
  rewrite Hg in Hl. destruct rows; [done|]. simpl in Hl. lia.
Qed.

(** X8: [flushBuffer]: the grouping of the rows by table (lines 1044 to
    1050).  No table has two groups; the group of a table holds the
    values of exactly the rows of this table, in the order of the queue,
    and is not empty; every row has its table among the groups; and the
    groups hold as many values as there are rows. *)
Theorem group_rows_partition (rows : list row) :
  NoDup (group_rows rows).*1
  /\ (forall t vs, (t, vs) ∈ group_rows rows ->
        vs = r_values <$> filter (fun r => r_table r = t) rows /\ vs <> [])
  /\ (forall r, r ∈ rows -> r_table r ∈ (group_rows rows).*1)
  /\ length (concat (group_rows rows).*2) = length rows.
Proof.
  split; [|split; [|split; [|apply group_rows_length]]].
  - induction rows as [|r rows IH] using rev_ind; [apply NoDup_nil_2|].
    rewrite group_rows_snoc. by apply group_add_NoDup.
  - assert (Hkeys : forall rows r, r ∈ rows -> r_table r ∈ (group_rows rows).*1).
    { clear. induction rows as [|r0 rows IH] using rev_ind; intros r Hr.
      { by apply elem_of_nil in Hr. }
      rewrite group_rows_snoc. apply group_add_key_in.
      apply elem_of_app in Hr as [Hr|Hr%list_elem_of_singleton]; [|by left; subst].
      right. by apply IH. }
    assert (Hnd : forall rows, NoDup (group_rows rows).*1).
    { clear. induction rows as [|r rows IH] using rev_ind; [apply NoDup_nil_2|].
      rewrite group_rows_snoc. by apply group_add_NoDup. }
    induction rows as [|r rows IH] using rev_ind; intros t vs Hin.
    { by apply elem_of_nil in Hin. }
    rewrite group_rows_snoc in Hin. rewrite filter_app, fmap_app.
    apply group_add_elem in Hin as [[Hne Hg]|[-> [(ws & Hg & ->)|[Hg ->]]]];
      [| | |apply Hnd].
    + destruct (IH _ _ Hg) as [-> Hn].
      rewrite filter_cons_False, filter_nil by (simpl; congruence).
      simpl. by rewrite app_nil_r.
    + destruct (IH _ _ Hg) as [-> Hn].
      rewrite filter_cons_True, filter_nil by done. simpl.
      split; [done|]. by destruct (r_values <$> _).
    + rewrite filter_cons_True, filter_nil by done. simpl.
      assert (filter (fun r0 => r_table r0 = r_table r) rows = []) as ->; [|done].
      destruct (filter _ rows) as [|r0 more] eqn:Hf; [done|].
      assert (Hr0 : r0 ∈ filter (fun r0 => r_table r0 = r_table r) rows)
        by (rewrite Hf; apply list_elem_of_here).
      apply list_elem_of_filter in Hr0 as [Ht Hr0].
      destruct Hg. rewrite <- Ht. by apply Hkeys.
  - induction rows as [|r0 rows IH] using rev_ind; intros r Hr.
    { by apply elem_of_nil in Hr. }
    rewrite group_rows_snoc. apply group_add_key_in.
    apply elem_of_app in Hr as [Hr|Hr%list_elem_of_singleton]; [|by left; subst].
    right. by apply IH.
Qed.

(** *** A flush that the store accepts *)

Lemma answer_progress (w : world) (p : nat) (f : flight) (t : string)
    (values : list rowValues) (next : string * list rowValues)
    (rest : list (string * list rowValues)) :
  w_running w = [(p, f)] ->
  fl_pending f = (t, values) :: next :: rest ->
  answer w p None
  = Some {| w_adapter := w_adapter w;
            w_running :=
              [(p, Flight (fl_rows f) (next :: rest) (fl_written f + length values))];
            w_waiting := w_waiting w; w_microtasks := w_microtasks w;
            w_settled := w_settled w; w_results := w_results w;
            w_next := w_next w |}.
Proof.
  intros Hr Hp. unfold answer. rewrite Hr. simpl. rewrite Nat.eqb_refl.
  unfold insert_answer. rewrite Hp. destruct next as [t' [|v vs]]; simpl;
    by rewrite ?Nat.eqb_refl.
Qed.

Lemma answer_resolves (w : world) (p : nat) (f : flight) (t : string)
    (values : list rowValues) :
  w_running w = [(p, f)] ->
  fl_pending f = [(t, values)] ->
  answer w p None
  = Some {| w_adapter := set_flushPromise (setConnected (w_adapter w) true) None;
            w_running := [];
            w_waiting := filter (fun q => q ≠ p) (w_waiting w);
            w_microtasks :=
              w_microtasks w + length (filter (fun q => q = p) (w_waiting w));
            w_settled := w_settled w ++ [(p, Resolved (fl_written f + length values))];
            w_results := w_results w;
            w_next := w_next w |}.
Proof.
  intros Hr Hp. unfold answer. rewrite Hr. simpl. rewrite Nat.eqb_refl.
  unfold insert_answer. rewrite Hp. by rewrite remove_running_single.
Qed.

Lemma run_cons (w : world) (ev : event) (evs : list event) :
  run w (ev :: evs)
  = match step w ev with Some w' => run w' evs | None => None end.
Proof. done. Qed.

Lemma step_answer (w : world) (p : nat) (ans : option string) :
  w_microtasks w = 0 -> step w (Answer p ans) = answer w p ans.
Proof. intros Hm. simpl. by rewrite Hm. Qed.

(** An operation whose inserts the store accepts one after the other
    resolves after the last of them, with the count of all its values. *)
Lemma run_answers_resolve (p : nat) (n : nat) :
  forall (f : flight) (w : world),
    w_running w = [(p, f)] ->
    w_microtasks w = 0 ->
    length (fl_pending f) = S n ->
    exists w',
      run w (replicate (S n) (Answer p None)) = Some w'
      /\ w_running w' = []
      /\ w_settled w'
         = w_settled w ++ [(p, Resolved (fl_written f + length (pendingValues f)))]
      /\ w_adapter w' = set_flushPromise (setConnected (w_adapter w) true) None
      /\ w_results w' = w_results w.
Proof.
  induction n as [|n IH]; intros f w Hr Hm Hl.
  - destruct (fl_pending f) as [|[t values] [|]] eqn:Hp; try done.
    change (replicate 1 (Answer p None)) with [Answer p None].
    rewrite run_cons, step_answer, (answer_resolves w p f t values Hr Hp) by done.
    eexists. split; [done|]. simpl. unfold pendingValues. rewrite Hp. simpl.
    by rewrite app_nil_r.
  - destruct (fl_pending f) as [|[t values] [|next rest]] eqn:Hp; try done.
    change (replicate (S (S n)) (Answer p None))
      with (Answer p None :: replicate (S n) (Answer p None)).
    rewrite run_cons, step_answer,
      (answer_progress w p f t values next rest Hr Hp) by done.
    match goal with
    | |- context [run ?w1 _] =>
        destruct (IH (Flight (fl_rows f) (next :: rest) (fl_written f + length values))
                    w1 eq_refl Hm) as (w' & Hrun & H1 & H2 & H3 & H4)
    end.
    { simpl. simpl in Hl. lia. }
    exists w'. split; [exact Hrun|]. split; [done|]. split; [|done].
    assert (Hsum :
      fl_written f + length values
      + length (pendingValues
                  (Flight (fl_rows f) (next :: rest) (fl_written f + length values)))
      = fl_written f + length (pendingValues f)).
    { unfold pendingValues. rewrite Hp. simpl. rewrite !length_app. lia. }
    rewrite H2. cbn [w_settled fl_written]. by rewrite Hsum.
Qed.

(** X9: [flushBuffer]: a flush that succeeds.  On a connected adapter with
    rows in its queue and no flush in flight, a call takes all the rows;
    when the store accepts its inserts, one per table among the rows, the
    operation resolves with the number of the rows it took, which its
    caller receives; the queue holds no row, the connection is marked, and
    no flush is in flight any more. *)
Theorem flush_reports_rows (w : world) (force : bool) :
  reachable w ->
  client (w_adapter w) = true ->
  flushPromise (w_adapter w) = None ->
  w_microtasks w = 0 ->
  buffer (w_adapter w) <> [] ->
  let rows := buffer (w_adapter w) in
  let p := w_next w in
  exists w',
    run w (Call force :: replicate (length (group_rows rows)) (Answer p None))
    = Some w'
    /\ w_results w' = w_results w ++ [Joined p]
    /\ w_settled w' = w_settled w ++ [(p, Resolved (length rows))]
    /\ w_running w' = []
    /\ buffer (w_adapter w') = []
    /\ flushPromise (w_adapter w') = None
    /\ connected (w_adapter w') = true.
Proof.
  intros Hreach Hc Hf Hm Hb rows p.
  apply reachable_coordinated in Hreach as [Hmark _]. rewrite Hf in Hmark.
  destruct (group_rows rows) as [|g gs] eqn:Hg.
  { by destruct (group_rows_nonempty rows Hb). }
  cbn [length]. rewrite run_cons. cbn [step].
  assert (Hcall : call w force
    = {| w_adapter := set_flushPromise (set_buffer (w_adapter w) []) (Some p);
         w_running := [(p, Flight rows (group_rows rows) 0)];
         w_waiting := w_waiting w; w_microtasks := w_microtasks w;
         w_settled := w_settled w; w_results := w_results w ++ [Joined p];
         w_next := S (w_next w) |}).
  { unfold call, flushBuffer. rewrite Hc, Hf. simpl.
    destruct (flushBuffer_start_cases (w_adapter w) (w_next w)) as [[E _]|[_ ->]];
      [done|].
    destruct (buffer (w_adapter w)) eqn:E; [done|]. simpl.
    by rewrite Hmark, app_nil_r. }
  rewrite Hcall.
  match goal with
  | |- context [run ?w1 _] =>
      destruct (run_answers_resolve p (length gs) (Flight rows (group_rows rows) 0)
                  w1 eq_refl Hm) as (w' & Hrun & H1 & H2 & H3 & H4)
  end.
  { simpl. by rewrite Hg. }
  exists w'. split; [exact Hrun|]. rewrite H2, H3, H4. simpl.
  unfold pendingValues. simpl.
  change (map snd (group_rows rows)) with ((group_rows rows).*2).
  by rewrite group_rows_length.
Qed.

(** *** Where the rows of a run are *)

Lemma sum_list_snoc (l : list nat) (n : nat) : sum_list (l ++ [n]) = sum_list l + n.
Proof. induction l as [|x l IH]; simpl; [lia|]. rewrite IH. lia. Qed.

Lemma group_rows_NoDup (rows : list row) : NoDup (group_rows rows).*1.
Proof.
  induction rows as [|r rows IH] using rev_ind; [apply NoDup_nil_2|].
  rewrite group_rows_snoc. by apply group_add_NoDup.
Qed.

(** The value added is in the group of its table, and the groups only
    grow. *)
Lemma group_add_member (t : string) (v : rowValues)
    (g : list (string * list rowValues)) :
  exists vs, (t, vs) ∈ group_add t v g /\ v ∈ vs.
Proof.
  induction g as [|[t0 ws] rest IH]; cbn [group_add].
  { exists [v]. split; apply list_elem_of_here. }
  destruct (String.eqb t0 t) eqn:E.
  - apply String.eqb_eq in E. subst t0. exists (ws ++ [v]).
    split; [apply list_elem_of_here|]. apply elem_of_app. right.
    apply list_elem_of_here.
  - destruct IH as (vs & Hin & Hv). exists vs.
    split; [by apply list_elem_of_further|done].
Qed.

Lemma group_add_keeps (t : string) (v : rowValues)
    (g : list (string * list rowValues)) (t' : string) (vs' : list rowValues) :
  (t', vs') ∈ g ->
  exists vs, (t', vs) ∈ group_add t v g /\ forall x, x ∈ vs' -> x ∈ vs.
Proof.
  induction g as [|[t0 ws] rest IH]; cbn [group_add]; intros Hin.
  { by apply elem_of_nil in Hin. }
  destruct (String.eqb t0 t) eqn:E.
  - apply elem_of_cons in Hin as [Hin|Hin].
    + injection Hin as -> ->. exists (ws ++ [v]).
      split; [apply list_elem_of_here|]. intros x Hx. apply elem_of_app. by left.
    + exists vs'. split; [by apply list_elem_of_further|done].
  - apply elem_of_cons in Hin as [Hin|Hin].
    + injection Hin as -> ->. exists ws. split; [apply list_elem_of_here|done].
    + destruct (IH Hin) as (vs & Hg & Hsub). exists vs.
      split; [by apply list_elem_of_further|done].
Qed.

(** Every row has its values in the group of its table. *)
Lemma rows_grouped (rows : list row) (r : row) :
  r ∈ rows ->
  exists vs, (r_table r, vs) ∈ group_rows rows /\ r_values r ∈ vs.
Proof.
  induction rows as [|r0 rows IH] using rev_ind; intros Hr.
  { by apply elem_of_nil in Hr. }
  rewrite group_rows_snoc.
  apply elem_of_app in Hr as [Hr|Hr%list_elem_of_singleton].
  - destruct (IH Hr) as (vs & Hin & Hv).
    destruct (group_add_keeps (r_table r0) (r_values r0) _ _ _ Hin)
      as (ws & Hg & Hsub).
    exists ws. split; [done|by apply Hsub].
  - subst r0. apply group_add_member.
Qed.

(** Every group holds the values of a row of its table. *)
Lemma group_has_row (rows : list row) (t : string) (vs : list rowValues) :
  (t, vs) ∈ group_rows rows ->
  exists r, r ∈ rows /\ r_table r = t /\ r_values r ∈ vs.
Proof.
  induction rows as [|r0 rows IH] using rev_ind; intros Hin.
  { by apply elem_of_nil in Hin. }
  rewrite group_rows_snoc in Hin.
  apply group_add_elem in Hin as [[Hne Hg]|[-> Hnew]]; [| |apply group_rows_NoDup].
  - destruct (IH Hg) as (r & Hr & Ht & Hv). exists r.
    split; [|done]. apply elem_of_app. by left.
  - exists r0. split; [apply elem_of_app; right; apply list_elem_of_here|].
    split; [done|].
    destruct Hnew as [(ws & _ & ->)|[_ ->]].
    + apply elem_of_app. right. apply list_elem_of_here.
    + apply list_elem_of_here.
Qed.

Lemma covered_more (log more : list (string * list rowValues)) (r : row) :
  covered log r -> covered (log ++ more) r.
Proof.
  intros (vs & Hin & Hv). exists vs. split; [|done]. apply elem_of_app. by left.
Qed.

Lemma progress_more (log more : list (string * list rowValues)) (f : flight) :
  progress log f -> progress (log ++ more) f.
Proof.
  intros (Hbal & done & Hd & Hlog). split; [done|]. exists done.
  split; [done|]. intros g Hg. apply elem_of_app. left. by apply Hlog.
Qed.

(** The rows that [flushBuffer] takes from the queue are those of the
    operation it starts, of which nothing is written yet. *)
Lemma flushBuffer_start_rows (a a' : adapter) (fresh : nat) (res : flushResult)
    (started : option flight) (log : list (string * list rowValues)) :
  flushBuffer_start a fresh = (res, a', started) ->
  buffer a = buffer a' ++ concat (map (fun op : nat * flight => fl_rows op.2)
                                    (started_as fresh started))
  /\ Forall (fun op : nat * flight => progress log op.2) (started_as fresh started).
Proof.
  destruct (flushBuffer_start_cases a fresh) as [[Hb ->]|[Hb ->]];
    intros [= <- <- <-]; simpl.
  - by rewrite app_nil_r.
  - rewrite app_nil_r. split; [done|]. apply Forall_singleton. split.
    + simpl. unfold pendingValues. simpl. apply group_rows_length.
    + exists []. split; [done|]. intros g Hg. by apply elem_of_nil in Hg.
Qed.

Lemma flushBuffer_rows (a a' : adapter) (force : bool) (fresh : nat)
    (res : flushResult) (started : option flight)
    (log : list (string * list rowValues)) :
  flushBuffer a force fresh = (res, a', started) ->
  buffer a = buffer a' ++ concat (map (fun op : nat * flight => fl_rows op.2)
                                    (started_as fresh started))
  /\ Forall (fun op : nat * flight => progress log op.2) (started_as fresh started).
Proof.
  unfold flushBuffer.
  destruct (negb (client a)); [intros [= <- <- <-]; simpl; by rewrite app_nil_r|].
  destruct (_ && _); [intros [= <- <- <-]; simpl; by rewrite app_nil_r|].
  destruct (flushPromise a).
  - destruct (negb force); intros [= <- <- <-]; simpl; by rewrite app_nil_r.
  - apply flushBuffer_start_rows.
Qed.

(** A call of [flushBuffer], from its entry or after the [await], moves
    rows from the queue to a new operation, or moves none. *)
Lemma start_accounted (w : world) (a' : adapter) (res : flushResult)
    (started : option flight) (m : nat) (all : list row)
    (log : list (string * list rowValues)) (rows : list row) :
  buffer (w_adapter w)
  = buffer a' ++ concat (map (fun op : nat * flight => fl_rows op.2)
                           (started_as (w_next w) started)) ->
  Forall (fun op : nat * flight => progress log op.2)
         (started_as (w_next w) started) ->
  accounted all log rows w ->
  accounted all log rows
    {| w_adapter := a';
       w_running := w_running w ++ started_as (w_next w) started;
       w_waiting := w_waiting w; w_microtasks := m;
       w_settled := w_settled w; w_results := w_results w ++ [res];
       w_next := S (w_next w) |}.
Proof.
  intros Hb Hnew (Hrun & Hperm & Hlen & Hcov).
  split; [apply Forall_app; by split|]. split; [|by split].
  rewrite Hperm, Hb. unfold rowsInFlight. simpl.
  rewrite map_app, concat_app.
  rewrite <- !app_assoc. apply Permutation_app_head.
  rewrite !app_assoc. apply Permutation_app_tail. apply Permutation_app_comm.
Qed.

Lemma call_accounted (w : world) (force : bool) (all : list row)
    (log : list (string * list rowValues)) (rows : list row) :
  accounted all log rows w -> accounted all log rows (call w force).
Proof.
  intros Hacc. unfold call.
  destruct (flushBuffer (w_adapter w) force (w_next w)) as [[res a'] started] eqn:Hf.
  apply (flushBuffer_rows _ _ _ _ _ _ log) in Hf as [Hb Hnew].
  exact (start_accounted w a' res started (w_microtasks w) all log rows Hb Hnew Hacc).
Qed.

Lemma queue_accounted (w : world) (r : row) (all : list row)
    (log : list (string * list rowValues)) (rows : list row) :
  accounted all log rows w -> accounted (all ++ [r]) log rows (queue w r).
Proof.
  intros (Hrun & Hperm & Hlen & Hcov). unfold queue, queueRow.
  match goal with
  | |- accounted _ _ _ (if ?full then call ?w1 false else _) =>
      assert (Hw1 : accounted (all ++ [r]) log rows w1);
      [|destruct full; [by apply call_accounted|exact Hw1]]
  end.
  split; [done|]. split; [|by split]. simpl.
  unfold rowsInFlight. simpl. fold (rowsInFlight w).
  rewrite Hperm. rewrite <- !app_assoc. apply Permutation_app_head.
  rewrite (Permutation_app_comm [r]). by rewrite <- !app_assoc.
Qed.

Lemma resume_accounted (w w' : world) (all : list row)
    (log : list (string * list rowValues)) (rows : list row) :
  accounted all log rows w -> resume w = Some w' -> accounted all log rows w'.
Proof.
  intros Hacc. unfold resume. destruct (w_microtasks w) as [|n]; [done|].
  destruct (flushBuffer_start (w_adapter w) (w_next w)) as [[res a'] started] eqn:Hf.
  intros [= <-]. apply (flushBuffer_start_rows _ _ _ _ _ log) in Hf as [Hb Hnew].
  exact (start_accounted w a' res started n all log rows Hb Hnew Hacc).
Qed.

(** In a coordinated world the operation that the store answers is the
    one that runs. *)
Lemma answered_runs (w : world) (p : nat) (f : flight) :
  coordinated w -> find_running p (w_running w) = Some f -> w_running w = [(p, f)].
Proof.
  intros [Hmark _] Hf.
  destruct (flushPromise (w_adapter w)) as [q|]; [|by rewrite Hmark in Hf].
  destruct Hmark as [g Hg]. rewrite Hg in Hf.
  by apply find_running_single in Hf as [-> ->].
Qed.

Lemma answer_accounted (w w' : world) (p : nat) (ans : option string)
    (all : list row) (log : list (string * list rowValues)) (rows : list row) :
  coordinated w ->
  accounted all log rows w ->
  answer w p ans = Some w' ->
  accounted all (log ++ acknowledged w (Answer p ans))
    (rows ++ resolvedBy w (Answer p ans)) w'.
Proof.
  intros Hco (Hrun & Hperm & Hlen & Hcov) Ha.
  unfold answer in Ha. unfold acknowledged, resolvedBy.
  destruct (find_running p (w_running w)) as [f|] eqn:Hf; [|done].
  pose proof (answered_runs w p f Hco Hf) as Hr.
  rewrite Hr in Hrun, Ha. rewrite Forall_singleton in Hrun.
  destruct Hrun as (Hbal & done & Hdone & Hlog). cbn [snd] in Hbal, Hdone.
  unfold rowsInFlight in Hperm. rewrite Hr in Hperm. simpl in Hperm.
  rewrite app_nil_r in Hperm.
  unfold pendingValues in Hbal.
  (* the operation resolves with the count of its rows *)
  assert (Hsettle : forall a' n more,
    n = length (fl_rows f) ->
    buffer a' = buffer (w_adapter w) ->
    (forall g, g ∈ group_rows (fl_rows f) -> g ∈ log ++ more) ->
    accounted all (log ++ more) (rows ++ fl_rows f)
      {| w_adapter := a'; w_running := remove_running p [(p, f)];
         w_waiting := filter (fun q => q ≠ p) (w_waiting w);
         w_microtasks :=
           w_microtasks w + length (filter (fun q => q = p) (w_waiting w));
         w_settled := w_settled w ++ [(p, Resolved n)];
         w_results := w_results w; w_next := w_next w |}).
  { intros a' n more -> Hb Hall. rewrite remove_running_single.
    split; [by apply Forall_nil|]. unfold rowsInFlight, rowsReported. simpl.
    rewrite map_app. cbn [map]. rewrite sum_list_snoc, length_app, Hb. simpl.
    split; [|split].
    - rewrite Hperm. apply Permutation_app_head. apply Permutation_app_comm.
    - unfold rowsReported in Hlen. lia.
    - intros r [Hr0|Hr0]%elem_of_app.
      + by apply covered_more, Hcov.
      + destruct (rows_grouped (fl_rows f) r Hr0) as (vs & Hg & Hv).
        exists vs. split; [by apply Hall|done]. }
  destruct ans as [err|].
  - unfold insert_answer in Ha. unfold insert_answer.
    injection Ha as <-. rewrite remove_running_single, !app_nil_r.
    split; [by apply Forall_nil|]. unfold rowsInFlight, rowsReported. simpl.
    rewrite map_app. cbn [map]. rewrite sum_list_snoc. simpl.
    split; [|split; [unfold rowsReported in Hlen; lia|done]].
    rewrite Hperm, <- !app_assoc.
    rewrite !app_assoc. apply Permutation_app_tail. apply Permutation_app_comm.
  - unfold insert_answer in Ha. unfold insert_answer.
    destruct (fl_pending f) as [|[t values] [|next rest]] eqn:Hp;
      simpl in Hbal; injection Ha as <-.
    + apply Hsettle; [lia|done|].
      intros g Hg. rewrite Hdone, app_nil_r in Hg.
      apply elem_of_app. left. by apply Hlog.
    + apply Hsettle; [rewrite app_nil_r in Hbal; lia|done|].
      intros g Hg. rewrite Hdone in Hg.
      apply elem_of_app in Hg as [Hg|Hg]; apply elem_of_app; [left; by apply Hlog|].
      by right.
    + rewrite app_nil_r. simpl. rewrite Nat.eqb_refl.
      split; [|split; [|split]].
      * apply Forall_singleton. split.
        -- unfold pendingValues. simpl. rewrite !length_app in *. lia.
        -- exists (done ++ [(t, values)]). simpl. split.
           ++ by rewrite <- app_assoc.
           ++ intros g [Hg|Hg]%elem_of_app; apply elem_of_app;
                [left; by apply Hlog|by right].
      * unfold rowsInFlight. simpl. by rewrite app_nil_r.
      * done.
      * intros r Hr0. by apply covered_more, Hcov.
Qed.

Lemma step_accounted (w w' : world) (ev : event) (all : list row)
    (log : list (string * list rowValues)) (rows : list row) :
  coordinated w ->
  accounted all log rows w ->
  step w ev = Some w' ->
  accounted (all ++ rowsQueued [ev]) (log ++ acknowledged w ev)
    (rows ++ resolvedBy w ev) w'.
Proof.
  intros Hco Hacc Hs. destruct ev as [r|force|p ans|]; simpl in Hs.
  - destruct (w_microtasks w =? 0); [|done]. injection Hs as <-.
    cbn [acknowledged resolvedBy]. rewrite !app_nil_r.
    exact (queue_accounted w r all log rows Hacc).
  - injection Hs as <-. unfold rowsQueued. cbn [acknowledged resolvedBy flat_map].
    rewrite !app_nil_r. exact (call_accounted w force all log rows Hacc).
  - destruct (w_microtasks w =? 0); [|done].
    unfold rowsQueued. cbn [flat_map]. rewrite app_nil_r.
    exact (answer_accounted w w' p ans all log rows Hco Hacc Hs).
  - unfold rowsQueued. cbn [acknowledged resolvedBy flat_map]. rewrite !app_nil_r.
    exact (resume_accounted w w' all log rows Hacc Hs).
Qed.

Lemma run_accounted (evs : list event) :
  forall (w w' : world) (all : list row) (log : list (string * list rowValues))
         (rows : list row),
    coordinated w ->
    accounted all log rows w ->
    run w evs = Some w' ->
    accounted (all ++ rowsQueued evs) (log ++ inserted w evs)
      (rows ++ rowsResolved w evs) w'.
Proof.
  induction evs as [|ev evs IH]; intros w w' all log rows Hco Hacc Hrun.
  { injection Hrun as <-. unfold rowsQueued. simpl. by rewrite !app_nil_r. }
  rewrite run_cons in Hrun. cbn [inserted rowsResolved].
  destruct (step w ev) as [w1|] eqn:Hs; [|done].
  pose proof (step_accounted w w1 ev all log rows Hco Hacc Hs) as Hacc1.
  pose proof (coordinated_step w w1 ev Hco Hs) as Hco1.
  pose proof (IH w1 w' _ _ _ Hco1 Hacc1 Hrun) as Hfin.
  replace (all ++ rowsQueued (ev :: evs))
    with ((all ++ rowsQueued [ev]) ++ rowsQueued evs).
  - by rewrite !app_assoc.
  - unfold rowsQueued. simpl. by rewrite app_nil_r, <- app_assoc.
Qed.

(** X10: [queueRow] and [flushBuffer]: where the rows are.  At every moment
    of a run of the event loop, the rows that the adapter held at first
    and those queued since are, each one once, in the queue, with the
    running flush operation, or with an operation that resolved: the
    adapter loses no row.  The counts that the settled operations gave
    their callers add up to the number of the rows of the resolved ones;
    the values of each of these rows were in an insert into its table
    that the store acknowledged; and of a running operation the tables
    that are no longer pending were acknowledged.  A row may be inserted
    more than once: when an insert fails after the store has
    acknowledged an insert for another table of the operation, the rows
    of that table are in the queue again, to be written once more. *)
Theorem rows_accounted (a : adapter) (evs : list event) (w : world) :
  run (initial a) evs = Some w ->
  buffer a ++ rowsQueued evs
  ≡ₚ buffer (w_adapter w) ++ rowsInFlight w ++ rowsResolved (initial a) evs
  /\ length (rowsResolved (initial a) evs) = rowsReported w
  /\ (forall r, r ∈ rowsResolved (initial a) evs ->
        covered (inserted (initial a) evs) r)
  /\ (forall p f, (p, f) ∈ w_running w ->
        exists done,
          group_rows (fl_rows f) = done ++ fl_pending f
          /\ forall g, g ∈ done -> g ∈ inserted (initial a) evs)
  /\ (forall p f error,
        (p, f) ∈ w_running w ->
        w_microtasks w = 0 ->
        fl_pending f <> group_rows (fl_rows f) ->
        exists w' r,
          step w (Answer p (Some error)) = Some w'
          /\ buffer (w_adapter w') = fl_rows f ++ buffer (w_adapter w)
          /\ r ∈ fl_rows f
          /\ covered (inserted (initial a) evs) r).
Proof.
  intros Hrun.
  assert (Hinit : accounted (buffer a) [] [] (initial a)).
  { split; [by apply Forall_nil|]. split; [|split; [done|]].
    - unfold rowsInFlight. simpl. by rewrite !app_nil_r.
    - intros r Hr. by apply elem_of_nil in Hr. }
  pose proof (run_accounted evs (initial a) w (buffer a) [] []
                (coordinated_initial a) Hinit Hrun) as (Hprog & Hperm & Hlen & Hcov).
  pose proof (coordinated_run evs (initial a) w (coordinated_initial a) Hrun) as Hco.
  cbn [app] in Hprog, Hperm, Hlen, Hcov.
  assert (Hdone : forall p f, (p, f) ∈ w_running w ->
            exists done,
              group_rows (fl_rows f) = done ++ fl_pending f
              /\ forall g, g ∈ done -> g ∈ inserted (initial a) evs).
  { intros p f Hin. rewrite Forall_forall in Hprog.
    by destruct (Hprog (p, f) Hin) as (_ & Hd). }
  split; [done|]. split; [done|]. split; [done|]. split; [done|].
  intros p f error Hin Hm Hpart.
  destruct (Hdone p f Hin) as (done & Hd & Hlog).
  destruct done as [|[t vs] done].
  { by destruct Hpart. }
  destruct (group_has_row (fl_rows f) t vs) as (r & Hr & Ht & Hv).
  { rewrite Hd. apply list_elem_of_here. }
  assert (Hone : w_running w = [(p, f)]).
  { destruct Hco as [Hmark _].
    destruct (flushPromise (w_adapter w)) as [q|].
    - destruct Hmark as [g Hg]. rewrite Hg in Hin.
      apply list_elem_of_singleton in Hin. by rewrite Hg, Hin.
    - rewrite Hmark in Hin. by apply elem_of_nil in Hin. }
  eexists _, r. cbn [step]. rewrite Hm. cbn [Nat.eqb]. unfold answer.
  rewrite Hone. cbn [find_running]. rewrite Nat.eqb_refl.
  rewrite insert_answer_failure. split; [reflexivity|].
  split; [done|]. split; [done|].
  exists vs. split; [|done]. rewrite Ht. apply Hlog, list_elem_of_here.
Qed.

Section AccountingExamples.

(** Witness: a row is queued and flushed, and the store accepts it. *)
Lemma flush_reports_rows_witness :
  exists w',
    run (initial (queuedAdapter [pointRow 1%float "2023-11-14 22:13:20.000"]))
        [Call false; Answer 0 None] = Some w'
    /\ w_settled w' = [(0, Resolved 1)]
    /\ buffer (w_adapter w') = [].
Proof.
  destruct (flush_reports_rows
              (initial (queuedAdapter [pointRow 1%float "2023-11-14 22:13:20.000"]))
              false)
    as (w' & Hrun & _ & Hs & _ & Hb & _).
  - by exists (queuedAdapter [pointRow 1%float "2023-11-14 22:13:20.000"]), [].
  - reflexivity.
  - reflexivity.
  - reflexivity.
  - discriminate.
  - exists w'. split; [exact Hrun|]. split; [exact Hs|exact Hb].
Defined.

(** Witness: the run of [flightWorld]; one row is with the running
    operation and one in the queue. *)
Lemma rows_accounted_witness :
  [pointRow 1%float "2023-11-14 22:13:20.000"]
  ++ [pointRow 2%float "2023-11-14 22:13:21.000"]
  ≡ₚ buffer (w_adapter flightWorld) ++ rowsInFlight flightWorld
     ++ rowsResolved
          (initial (queuedAdapter [pointRow 1%float "2023-11-14 22:13:20.000"]))
          [Call false; Queue (pointRow 2%float "2023-11-14 22:13:21.000"); Call true].
Proof.
  exact (proj1 (rows_accounted
           (queuedAdapter [pointRow 1%float "2023-11-14 22:13:20.000"])
           [Call false; Queue (pointRow 2%float "2023-11-14 22:13:21.000"); Call true]
           flightWorld eq_refl)).
Defined.

(** A flush of two tables whose second insert fails, and the flush that
    follows: the store acknowledges the insert into the first table
    twice. *)
Example retry_inserts_again :
  inserted
    (initial (queuedAdapter
                [pointRow 1%float "2023-11-14 22:13:20.000";
                 Row "other" "history_other" TNumber
                   (RowValues "2023-11-14 22:13:21.000" (JNum 2%float))]))
    [Call false; Answer 0 None; Answer 0 (Some "timeout");
     Call false; Answer 1 None; Answer 1 None]
  = [("history_point", [RowValues "2023-11-14 22:13:20.000" (JNum 1%float)]);
     ("history_point", [RowValues "2023-11-14 22:13:20.000" (JNum 1%float)]);
     ("history_other", [RowValues "2023-11-14 22:13:21.000" (JNum 2%float)])].
Proof. by vm_compute. Qed.

End AccountingExamples.
End AccountingFacts.

(** ** History Reconstructor: keys, reduction and answer *)

Module AnswerFacts.
Import HistoryFacts.

Section Heads.
Context {A : Type} (key : A -> string).

(** A sequence in which no two neighbours have the same key is the
    sequence of the first entries of its runs. *)
Lemma run_heads_fixed (l : list A) :
  (forall i a b, l !! i = Some a -> l !! S i = Some b -> key a <> key b) ->
  map fst (maximalRuns key l) = l.
Proof.
  induction l as [|x l IH]; intros Hadj; [done|].
  assert (Hl : map fst (maximalRuns key l) = l).
  { apply IH. intros i a b Ha Hb. by apply (Hadj (S i) a b). }
  simpl. destruct (maximalRuns key l) as [|[y ys] runs] eqn:E.
  { simpl in Hl. by subst l. }
  simpl in Hl. subst l.
  assert (Hxy : key x <> key y) by (by apply (Hadj 0 x y)).
  apply String.eqb_neq in Hxy. by rewrite Hxy.
Qed.

Lemma run_heads_adjacent (l : list A) (i : nat) (a b : A) :
  map fst (maximalRuns key l) !! i = Some a ->
  map fst (maximalRuns key l) !! S i = Some b ->
  key a <> key b.
Proof.
  change (map fst (maximalRuns key l)) with (fst <$> maximalRuns key l).
  rewrite !list_lookup_fmap. intros Ha Hb.
  destruct (maximalRuns key l !! i) as [r1|] eqn:H1; [|done].
  destruct (maximalRuns key l !! S i) as [r2|] eqn:H2; [|done].
  injection Ha as <-. injection Hb as <-.
  by apply (maximalRuns_adjacent key l i).
Qed.

Lemma run_heads_head (l : list A) : head (map fst (maximalRuns key l)) = head l.
Proof.
  destruct l as [|x l]; [done|].
  by destruct (maximalRuns_cons key x l) as (xs & runs & ->).
Qed.

End Heads.

Section Answer.
Context `{Builtins}.

(** X11: [makeComparableKey]: what a key tells.  Two values with the same key
    are both [null] or [undefined], or are of the same JavaScript type;
    two strings, and two booleans, have the same key only when they are
    equal.  So the on-change reduction never takes the string ["1"] for
    the number 1, nor an empty string for [null]. *)
Theorem makeComparableKey_separates (a b : jsval) :
  makeComparableKey a = makeComparableKey b ->
  is_nullish a = is_nullish b
  /\ (is_nullish a = false -> typeof a = typeof b)
  /\ (forall s t, a = JStr s -> b = JStr t -> s = t)
  /\ (forall x y, a = JBool x -> b = JBool y -> x = y).
Proof.
  unfold makeComparableKey.
  destruct a as [| |x|x|s|xs|fs], b as [| |y|y|t|ys|gs]; simpl;
    try discriminate; intros Hk;
    try (repeat split; intros; congruence).
  - repeat split; try congruence. intros x' y' [= <-] [= <-].
    destruct x, y; cbv in Hk; congruence.
  - repeat split; try congruence. intros s' t' [= <-] [= <-].
    cbv [String.append] in Hk. congruence.
Qed.

(** In the reduced sequence no two neighbours have the same key. *)
Lemma reduceOnChange_adjacent (entries : list historyEntry) (i : nat)
    (a b : historyEntry) :
  reduceOnChange entries !! i = Some a ->
  reduceOnChange entries !! S i = Some b ->
  makeComparableKey (h_val a) <> makeComparableKey (h_val b).
Proof.
  rewrite reduceOnChange_runs.
  apply (run_heads_adjacent (fun e => makeComparableKey (h_val e))).
Qed.

(** X12: [reduceOnChange]: a second reduction changes nothing.  In the
    reduced sequence no two neighbours have the same key; a sequence in
    which no two neighbours have the same key is left as it is; so
    reducing twice gives what reducing once gives; and the first entry is
    kept. *)
Theorem reduceOnChange_idempotent (entries : list historyEntry) :
  let key := fun e : historyEntry => makeComparableKey (h_val e) in
  (forall i a b, reduceOnChange entries !! i = Some a ->
     reduceOnChange entries !! S i = Some b -> key a <> key b)
  /\ ((forall i a b, entries !! i = Some a -> entries !! S i = Some b ->
         key a <> key b) ->
      reduceOnChange entries = entries)
  /\ reduceOnChange (reduceOnChange entries) = reduceOnChange entries
  /\ head (reduceOnChange entries) = head entries.
Proof.
  intros key.
  assert (Hadj : forall i a b, reduceOnChange entries !! i = Some a ->
            reduceOnChange entries !! S i = Some b -> key a <> key b)
    by apply reduceOnChange_adjacent.
  assert (Hfix : forall l,
            (forall i a b, l !! i = Some a -> l !! S i = Some b -> key a <> key b) ->
            reduceOnChange l = l).
  { intros l Hl. rewrite reduceOnChange_runs. by apply run_heads_fixed. }
  split; [done|]. split; [apply Hfix|]. split; [by apply Hfix|].
  rewrite reduceOnChange_runs. apply run_heads_head.
Qed.

Lemma filter_sublist {B : Type} (f : B -> bool) (l : list B) :
  sublist (List.filter f l) l.
Proof.
  induction l as [|x l IH]; simpl; [constructor|].
  destruct (f x); by constructor.
Qed.

Lemma reduceOnChange_sublist (entries : list historyEntry) :
  sublist (reduceOnChange entries) entries.
Proof.
  rewrite reduceOnChange_runs.
  rewrite <- (maximalRuns_flatten (fun e => makeComparableKey (h_val e)) entries) at 2.
  apply run_heads_sublist.
Qed.

(** X13: [handleGetHistory]: the samples of the answer.  They are rows of the
    answer of the store, mapped, in the order of the store; unless the
    request sets [ignoreNull] to [false], none of them has the value
    [null]; with the aggregate [onchange], no two neighbours have the
    same key; and with [ignoreNull] set to [false] and no aggregate,
    every row of the store is answered. *)
Theorem historyData_answer (rows : list storeRow) (id : string)
    (o : historyOptions) (aggregate : jsval) (storageType : vtype) :
  let data :=
    map (fun row => mapRowToHistory (sr_now row) (sr_ts row) (sr_value row) id
                      (truthy (o_addId o)) storageType) rows in
  let answer := historyData rows id o aggregate storageType in
  sublist answer data
  /\ (strict_eq (o_ignoreNull o) (JBool false) = false ->
      Forall (fun e => h_val e <> JNull) answer)
  /\ (strict_eq aggregate (JStr "onchange") = true ->
      forall i a b, answer !! i = Some a -> answer !! S i = Some b ->
        makeComparableKey (h_val a) <> makeComparableKey (h_val b))
  /\ (strict_eq (o_ignoreNull o) (JBool false) = true ->
      strict_eq aggregate (JStr "onchange") = false ->
      answer = data).
Proof.
  intros data answer. subst answer. unfold historyData. fold data.
  set (filtered := if strict_eq (o_ignoreNull o) (JBool false) then data
                   else List.filter (fun item => negb (strict_eq (h_val item) JNull))
                          data).
  assert (Hf : sublist filtered data).
  { subst filtered. destruct (strict_eq _ _); [done|apply filter_sublist]. }
  assert (Hnull : strict_eq (o_ignoreNull o) (JBool false) = false ->
                  Forall (fun e => h_val e <> JNull) filtered).
  { intros E. subst filtered. rewrite E. apply Forall_forall. intros e He.
    apply list_elem_of_In, filter_In in He as [_ He].
    intros Hv. rewrite Hv in He. done. }
  destruct (strict_eq aggregate (JStr "onchange")) eqn:Ea.
  - split; [by etrans; [apply reduceOnChange_sublist|]|].
    split; [|split; [|done]].
    + intros E. apply Forall_forall. intros e He.
      pose proof (Hnull E) as Hall. rewrite Forall_forall in Hall. apply Hall.
      by apply (elem_of_sublist _ _ _ He), reduceOnChange_sublist.
    + intros _. apply reduceOnChange_adjacent.
  - split; [done|]. split; [done|]. split; [done|].
    intros E _. subst filtered. by rewrite E.
Qed.

End Answer.

Section AnswerExamples.
#[local] Existing Instance Reference.ref_builtins.

(** Witness: [null] and [undefined] have one key. *)
Lemma makeComparableKey_separates_witness :
  makeComparableKey JNull = makeComparableKey JUndefined
  /\ is_nullish JNull = is_nullish JUndefined.
Proof.
  split; [reflexivity|].
  exact (proj1 (makeComparableKey_separates JNull JUndefined eq_refl)).
Defined.

End AnswerExamples.
End AnswerFacts.

(** ** Table names, quoted identifiers and the table cache *)

Module TableCacheFacts.
Import TableNameFacts RowFacts.

(** *** Strings that the sanitizers leave as they are *)

Lemma is_word_not_space (c : ascii) : is_word c = true -> Ascii.is_space c = false.
Proof.
  destruct c as [[] [] [] [] [] [] [] []]; vm_compute; congruence.
Qed.

Lemma is_underscore_eq (c : ascii) : is_underscore c = true <-> c = "_"%char.
Proof. apply Ascii.eqb_eq. Qed.

Lemma drop_while_id (P : ascii -> bool) (l : list ascii) :
  (forall c, head l = Some c -> P c = false) -> drop_while P l = l.
Proof.
  destruct l as [|c l]; [done|]. intros Hh. simpl. by rewrite (Hh c).
Qed.

Lemma drop_while_end_id (P : ascii -> bool) (l : list ascii) :
  (forall c, last l = Some c -> P c = false) -> drop_while_end P l = l.
Proof.
  induction l as [|c l IH]; [done|]. intros Hl. simpl.
  destruct l as [|d l].
  - simpl. by rewrite (Hl c).
  - rewrite IH; [done|]. intros x Hx. by apply Hl.
Qed.

Lemma drop_while_end_last (P : ascii -> bool) (l : list ascii) (c : ascii) :
  last (drop_while_end P l) = Some c -> P c = false.
Proof.
  induction l as [|x l IH]; [done|]. simpl.
  destruct (drop_while_end P l) as [|y r] eqn:E.
  - destruct (P x) eqn:Hx; [done|]. simpl. by intros [= <-].
  - intros Hl. by apply IH.
Qed.

Lemma replace_runs_id (P : ascii -> bool) (b : bool) (l : list ascii) :
  Forall (fun c => P c = false) l -> replace_runs P b l = l.
Proof.
  revert b. induction l as [|c l IH]; intros b Hl; [done|].
  apply Forall_cons in Hl as [Hc Hl]. simpl. rewrite Hc. by rewrite IH.
Qed.

Lemma head_elem (l : list ascii) (c : ascii) : head l = Some c -> c ∈ l.
Proof. destruct l; [done|]. intros [= ->]. apply list_elem_of_here. Qed.

Lemma last_elem (l : list ascii) (c : ascii) : last l = Some c -> c ∈ l.
Proof.
  induction l as [|x l IH]; [done|]. destruct l as [|y l].
  - intros [= ->]. apply list_elem_of_here.
  - intros Hl. apply list_elem_of_further. by apply IH.
Qed.

(** A name of permitted characters that neither begins nor ends with an
    underscore passes the steps of [sanitizeTablePrefix] unchanged. *)
Lemma sanitize_steps_fixed (l : list ascii) :
  word_chars l ->
  (forall c, head l = Some c -> is_underscore c = false) ->
  (forall c, last l = Some c -> is_underscore c = false) ->
  strip_trailing (strip_leading
    (replace_runs (fun c => negb (is_word c)) false (trim l))) = l.
Proof.
  intros Hw Hh Hl. unfold word_chars in Hw. rewrite Forall_forall in Hw.
  unfold trim. rewrite (drop_while_id Ascii.is_space l).
  2: { intros c Hc. apply is_word_not_space, Hw. by apply head_elem. }
  rewrite drop_while_end_id.
  2: { intros c Hc. apply is_word_not_space, Hw. by apply last_elem. }
  rewrite replace_runs_id.
  2: { apply Forall_forall. intros c Hc. by rewrite (Hw c Hc). }
  unfold strip_leading, strip_trailing.
  rewrite drop_while_id by done. by apply drop_while_end_id.
Qed.

(** X14: [sanitizeTablePrefix]: a sanitized prefix is sanitized to itself.
    The prefix is made of letters, digits and underscores, is not empty,
    and neither begins nor ends with an underscore. *)
Theorem sanitizeTablePrefix_idempotent (name : string) :
  sanitizeTablePrefix (sanitizeTablePrefix name) = sanitizeTablePrefix name
  /\ word_chars (chars_of (sanitizeTablePrefix name))
  /\ (exists c r, chars_of (sanitizeTablePrefix name) = c :: r
                  /\ is_underscore c = false)
  /\ (forall c, last (chars_of (sanitizeTablePrefix name)) = Some c ->
        is_underscore c = false).
Proof.
  destruct (sanitizeTablePrefix_spec name) as [Hw Hhead].
  assert (Hlast : forall c, last (chars_of (sanitizeTablePrefix name)) = Some c ->
                    is_underscore c = false).
  { unfold sanitizeTablePrefix.
    destruct (String.eqb name ""); [by intros c [= <-]|].
    destruct (strip_trailing _) as [|c r] eqn:E; [by intros c [= <-]|].
    cbn [length Nat.eqb]. rewrite chars_of_string_of, <- E.
    intros x. apply drop_while_end_last. }
  split; [|done].
  destruct Hhead as (c & r & Hc & Hu).
  unfold sanitizeTablePrefix at 1.
  assert (String.eqb (sanitizeTablePrefix name) "" = false) as ->.
  { apply String.eqb_neq. intros E. by rewrite E in Hc. }
  rewrite sanitize_steps_fixed; [| done | by rewrite Hc; intros x [= <-] | done].
  rewrite Hc. cbn [length Nat.eqb]. rewrite <- Hc.
  apply String.string_of_list_ascii_of_string.
Qed.

(** *** The sanitized identifier *)

Lemma no_underscore_pairs_prefix (l1 l2 : list ascii) :
  l1 `prefix_of` l2 ->
  (forall i, l2 !! i = Some "_"%char -> l2 !! S i <> Some "_"%char) ->
  forall i, l1 !! i = Some "_"%char -> l1 !! S i <> Some "_"%char.
Proof.
  intros [k ->] Hl i Hi Hs. apply (Hl i); by apply lookup_app_l_Some.
Qed.

Lemma no_underscore_pairs_suffix (l1 l2 : list ascii) :
  l1 `suffix_of` l2 ->
  (forall i, l2 !! i = Some "_"%char -> l2 !! S i <> Some "_"%char) ->
  forall i, l1 !! i = Some "_"%char -> l1 !! S i <> Some "_"%char.
Proof.
  intros [k ->] Hl i Hi Hs. apply (Hl (length k + i)).
  - by rewrite lookup_app_r, Nat.add_comm, Nat.add_sub by lia.
  - replace (S (length k + i)) with (length k + S i) by lia.
    by rewrite lookup_app_r, Nat.add_comm, Nat.add_sub by lia.
Qed.

(** The runs of underscores collapsed: no two underscores in a row, and
    no underscore first when a run is being replaced. *)
Lemma collapse_no_pairs (l : list ascii) :
  forall b,
    (forall i, replace_runs is_underscore b l !! i = Some "_"%char ->
       replace_runs is_underscore b l !! S i <> Some "_"%char)
    /\ (b = true -> head (replace_runs is_underscore b l) <> Some "_"%char).
Proof.
  induction l as [|c l IH]; intros b; [done|]. simpl.
  destruct (is_underscore c) eqn:Hc.
  - destruct b; [apply IH|].
    destruct (IH true) as [Hp Hh]. split; [|done].
    intros [|i]; simpl.
    + intros _. specialize (Hh eq_refl).
      by destruct (replace_runs is_underscore true l).
    + apply Hp.
  - destruct (IH false) as [Hp _]. split.
    + intros [|i]; simpl; [|apply Hp].
      intros [= ->]. done.
    + intros _ [= ->]. done.
Qed.

(** X15: [sanitizeDatapointIdentifier]: the sanitized identifier.  It is made
    of letters, digits and underscores, has between 1 and 48 characters,
    begins with a letter, and has no two underscores in a row. *)
Theorem sanitizeDatapointIdentifier_shape (id : string) :
  let s := sanitizeDatapointIdentifier id in
  word_chars s
  /\ 1 <= length s <= 48
  /\ (exists c r, s = c :: r /\ is_digit c = false /\ is_underscore c = false)
  /\ (forall i, s !! i = Some "_"%char -> s !! S i <> Some "_"%char).
Proof.
  intros s. destruct (sanitizeDatapointIdentifier_spec id) as (Hw & (c & r & Hs & Hd) & Hlen).
  fold s in Hw, Hs, Hlen.
  split; [done|]. split; [rewrite Hs in *; simpl in *; lia|].
  subst s. unfold sanitizeDatapointIdentifier in *.
  set (core := strip_trailing (strip_leading _)) in *.
  assert (Hcore : (forall i, core !! i = Some "_"%char -> core !! S i <> Some "_"%char)
                  /\ (forall x, head core = Some x -> is_underscore x = false)).
  { subst core. split.
    - apply (no_underscore_pairs_prefix _ _ (drop_while_end_prefix _ _)).
      apply (no_underscore_pairs_suffix _ _ (drop_while_suffix _ _)).
      apply collapse_no_pairs.
    - intros x Hx. unfold strip_trailing, strip_leading in Hx.
      destruct (drop_while_end is_underscore _) as [|y t] eqn:E; [done|].
      injection Hx as ->.
      destruct (prefix_head _ _ x t (drop_while_end_prefix _ _) E) as [t' Ht'].
      by apply drop_while_head in Ht'. }
  destruct Hcore as [Hpairs Hhead].
  set (s1 := if (length core =? 0)%nat then chars_of "state" else core) in *.
  assert (H1 : (forall i, s1 !! i = Some "_"%char -> s1 !! S i <> Some "_"%char)
               /\ (forall x, head s1 = Some x -> is_underscore x = false)).
  { subst s1. destruct core as [|x t]; [|done]. simpl. split.
    - intros i Hi. by do 6 (destruct i as [|i]; [done|]).
    - by intros x [= <-]. }
  destruct H1 as [Hp1 Hh1].
  set (s2 := match s1 with
             | x :: _ => if is_digit x then chars_of "s_" ++ s1 else s1
             | [] => s1
             end) in *.
  assert (H2 : (forall i, s2 !! i = Some "_"%char -> s2 !! S i <> Some "_"%char)
               /\ (forall x, head s2 = Some x -> is_underscore x = false)).
  { subst s2. destruct s1 as [|x t]; [done|].
    destruct (is_digit x) eqn:Hx; [|done]. split.
    - intros [|[|i]]; simpl; [done| |apply Hp1].
      intros _ [= ->]. done.
    - by intros y [= <-]. }
  destruct H2 as [Hp2 Hh2].
  assert (Hfinal : (if (48 <? length s2)%nat then slice0 48 s2 else s2) `prefix_of` s2).
  { destruct (48 <? length s2)%nat; [apply take_prefix|done]. }
  split.
  - exists c, r. split; [done|]. split; [done|].
    destruct (prefix_head _ _ c r Hfinal Hs) as [r' Hr'].
    apply Hh2. by rewrite Hr'.
  - by apply (no_underscore_pairs_prefix _ _ Hfinal).
Qed.

(** *** Quoted identifiers *)

Lemma escape_backquote_inj (l1 l2 : list ascii) :
  flat_map escape_backquote l1 = flat_map escape_backquote l2 -> l1 = l2.
Proof.
  revert l2. induction l1 as [|c1 l1 IH]; intros [|c2 l2]; simpl.
  - done.
  - unfold escape_backquote. by destruct (Ascii.eqb c2 backquote).
  - unfold escape_backquote. by destruct (Ascii.eqb c1 backquote).
  - unfold escape_backquote.
    destruct (Ascii.eqb c1 backquote) eqn:E1, (Ascii.eqb c2 backquote) eqn:E2; simpl.
    + apply Ascii.eqb_eq in E1, E2. subst. intros [= Heq]. f_equal. by apply IH.
    + apply Ascii.eqb_neq in E2. intros [= Heq _]. by destruct E2.
    + apply Ascii.eqb_neq in E1. intros [= Heq _]. by destruct E1.
    + intros [= -> Heq]. f_equal. by apply IH.
Qed.

Lemma escape_backquote_word (l : list ascii) :
  word_chars l -> flat_map escape_backquote l = l.
Proof.
  induction 1 as [|c l Hc _ IH]; [done|]. simpl. rewrite IH.
  unfold escape_backquote. destruct (Ascii.eqb c backquote) eqn:E; [|done].
  apply Ascii.eqb_eq in E. subst c. by vm_compute in Hc.
Qed.

Lemma string_of_app (l1 l2 : list ascii) :
  string_of (l1 ++ l2) = string_of l1 +:+ string_of l2.
Proof. induction l1 as [|c l1 IH]; [done|]. simpl. by rewrite IH. Qed.

Lemma string_of_chars_of (s : string) : string_of (chars_of s) = s.
Proof. apply String.string_of_list_ascii_of_string. Qed.

Lemma chars_of_inj (s t : string) : chars_of s = chars_of t -> s = t.
Proof.
  intros Heq. by rewrite <- (string_of_chars_of s), <- (string_of_chars_of t), Heq.
Qed.

(** A generated table name is made of permitted characters. *)
Lemma generateTableName_word (raw : string) (cache : gmap string tableInfo)
    (id name : string) :
  generateTableName (sanitizeTablePrefix raw) cache id = Some name ->
  word_chars (chars_of name).
Proof.
  destruct (sanitizeTablePrefix_spec raw) as [Hw (c & r & Hc & Hu)].
  unfold generateTableName. intros Hloop.
  apply generate_loop_result in Hloop as [_ [[-> _]|[_ (k & _ & ->)]]];
    rewrite chars_of_string_of.
  - apply (normalizeLength_spec _ id c r Hc Hw).
  - apply (suffixed_word _ id c r Hc Hw Hu).
Qed.

(** X16: [quoteIdent]: quoted identifiers.  Two identifiers are quoted alike
    only when they are the same; an identifier of letters, digits and
    underscores is quoted by the backquotes around it alone, and so is
    every table name that [generateTableName] gives under a sanitized
    prefix. *)
Theorem quoteIdent_faithful :
  (forall a b, quoteIdent a = quoteIdent b -> a = b)
  /\ (forall name, word_chars (chars_of name) ->
        quoteIdent name = "`" +:+ name +:+ "`")
  /\ (forall raw cache id name,
        generateTableName (sanitizeTablePrefix raw) cache id = Some name ->
        quoteIdent name = "`" +:+ name +:+ "`").
Proof.
  assert (Hword : forall name, word_chars (chars_of name) ->
                    quoteIdent name = "`" +:+ name +:+ "`").
  { intros name Hw. unfold quoteIdent. rewrite (escape_backquote_word _ Hw).
    change (backquote :: chars_of name ++ [backquote])
      with ([backquote] ++ chars_of name ++ [backquote]).
    by rewrite !string_of_app, string_of_chars_of. }
  split; [|split; [done|]].
  - intros a b Heq. unfold quoteIdent in Heq.
    apply string_of_inj in Heq. injection Heq as Heq.
    apply app_inv_tail in Heq. by apply chars_of_inj, escape_backquote_inj.
  - intros raw cache id name Hg. apply Hword. by apply (generateTableName_word raw cache id).
Qed.

(** *** The registry table *)

(** X17: [generateTableName]: the name of the registry table is not kept
    apart.  The generator avoids only the tables of other identifiers:
    an identifier that is sanitized to [registry] is given the table
    [<prefix>_registry], which is the registry table of
    [connectToClickHouse], as long as no other identifier holds it (and
    the prefix leaves room for it). *)
Theorem registry_table_not_reserved (raw id : string)
    (cache : gmap string tableInfo) :
  let tablePrefix := (connectNames raw).1.1 in
  sanitizeDatapointIdentifier id = chars_of "registry" ->
  length (chars_of tablePrefix) <= 53 ->
  isTableNameInUse cache (registryTable tablePrefix) id = false ->
  (connectNames raw).1.2 = registryTable tablePrefix
  /\ generateTableName tablePrefix cache id = Some (registryTable tablePrefix).
Proof.
  intros tablePrefix Hid Hlen Hfree. split; [done|].
  unfold generateTableName. cbn [generate_loop].
  assert (Hname : string_of (normalizeLength (baseName tablePrefix id))
                  = registryTable tablePrefix).
  { unfold normalizeLength, baseName, maxIdentifierLength. rewrite Hid.
    assert ((length (chars_of tablePrefix ++ "_"%char :: chars_of "registry") <=? 62)%nat
            = true) as ->.
    { apply Nat.leb_le. rewrite length_app. simpl. lia. }
    unfold registryTable. by rewrite string_of_app, string_of_chars_of. }
  by rewrite Hname, Hfree.
Qed.

(** *** The table cache *)

Section Cache.
Context `{Builtins}.





End Cache.

Section CacheExamples.
#[local] Existing Instance Reference.ref_builtins.

(** Witness: the identifier [registry] under the prefix [history]. *)
Lemma registry_table_not_reserved_witness :
  generateTableName "history" ∅ "registry" = Some "history_registry"
  /\ (connectNames "history").1.2 = "history_registry".
Proof.
  destruct (registry_table_not_reserved "history" "registry" ∅ eq_refl
              ltac:(vm_compute; lia) eq_refl) as [Hr Hg].
  split; [exact Hg|exact Hr].
Defined.


End CacheExamples.
End TableCacheFacts.

(** ** Settings *)

Module ConfigFacts.

(** *** Numbers that are not NaN *)

Lemma not_nan_cases (x : float) :
  isNaN x = false ->
  (exists s, Prim2SF x = S754_zero s)
  \/ (exists s, Prim2SF x = S754_infinity s)
  \/ (exists s m e, Prim2SF x = S754_finite s m e).
Proof.
  unfold isNaN, PrimFloat.is_nan. rewrite FloatAxioms.eqb_spec.
  destruct (Prim2SF x) as [s|s| |s m e]; simpl; intros Hn;
    [by eauto|by eauto|done|by eauto 6].
Qed.

Lemma lt_le (a b : float) : num_lt a b = true -> num_le a b = true.
Proof.
  unfold num_lt, num_le.
  rewrite FloatAxioms.ltb_spec, FloatAxioms.leb_spec. unfold SFltb, SFleb.
  by destruct (SFcompare _ _) as [[]|].
Qed.

(** A number that is neither below nor above zero, and not NaN, is a
    zero. *)
Lemma between_zero (x : float) :
  isNaN x = false -> num_lt x 0%float = false -> num_lt 0%float x = false ->
  num_le 0%float x = true.
Proof.
  intros Hn. unfold num_lt, num_le.
  rewrite !FloatAxioms.ltb_spec, FloatAxioms.leb_spec.
  change (Prim2SF 0%float) with (S754_zero false).
  destruct (not_nan_cases x Hn) as [[s ->]|[[s ->]|(s & m & e & ->)]];
    unfold SFltb, SFleb; simpl; by destruct s.
Qed.

(** [Math.max(x, 0)] is not below zero, so not NaN, when [x] is not
    NaN. *)
Lemma Math_max_zero (x : float) :
  isNaN x = false -> num_ge (Math_max x 0%float) 0%float = true.
Proof.
  intros Hn. unfold Math_max, num_ge. rewrite Hn.
  change (isNaN 0%float) with false. cbn [orb].
  destruct (num_lt x 0%float) eqn:E1; [reflexivity|].
  destruct (num_lt 0%float x) eqn:E2; [by apply lt_le|].
  destruct (_ && _); [reflexivity|]. by apply between_zero.
Qed.

Lemma truthy_number (x : float) : truthy (JNum x) = true -> isNaN x = false.
Proof.
  simpl. unfold isNaN. destruct (PrimFloat.is_nan x); [|done].
  by rewrite orb_true_r.
Qed.

Lemma lower_ascii_idempotent (c : ascii) : lower_ascii (lower_ascii c) = lower_ascii c.
Proof. by destruct c as [[] [] [] [] [] [] [] []]. Qed.

Lemma toLowerCase_idempotent (s : string) : toLowerCase (toLowerCase s) = toLowerCase s.
Proof.
  induction s as [|c s IH]; [done|]. simpl. by rewrite lower_ascii_idempotent, IH.
Qed.

Section Settings.
Context `{Builtins}.

(** [parseNumber] gives no NaN unless the default is one. *)
Lemma parseNumber_number (value : jsval) (defaultValue : float) :
  isNaN defaultValue = false -> isNaN (parseNumber value defaultValue) = false.
Proof.
  intros Hd. unfold parseNumber. destruct value; try done.
  - by destruct (isNaN x) eqn:E.
  - destruct (negb (String.eqb s "")); [|done].
    by destruct (isNaN (toNumber (JStr s))) eqn:E.
Qed.

Lemma threshold_number (x : jsval) (d : option float) (n : float) :
  threshold x d = Some n -> isNaN n = false.
Proof.
  unfold threshold. destruct (if _ && _ then _ else _) as [m|]; [|done].
  destruct (isNaN m) eqn:E; [done|]. by intros [= <-].
Qed.

(** X19: [normalizeStateConfig]: the normalized settings.  The spacing, the
    re-log interval and the minimum delta are numbers not below zero (so
    never NaN, whatever the object holds); a threshold is a number that
    is not NaN, or absent; the rounding is a number not below zero, or
    absent; the storage type is in lower case; and the object without
    settings gives the defaults, those of an ephemeral entry. *)
Theorem normalizeStateConfig_ranges (parseInt : jsval -> float)
    (custom : customConfig) :
  let normalized := normalizeStateConfig parseInt custom in
  num_ge (blockTime normalized) 0%float = true
  /\ num_ge (changesRelogInterval normalized) 0%float = true
  /\ num_ge (changesMinDelta normalized) 0%float = true
  /\ (forall bound, ignoreBelowNumber normalized = Some bound -> isNaN bound = false)
  /\ (forall bound, ignoreAboveNumber normalized = Some bound -> isNaN bound = false)
  /\ (forall digits, cfg_round normalized = Some digits ->
        num_ge digits 0%float = true)
  /\ toLowerCase (cfg_storageType normalized) = cfg_storageType normalized
  /\ normalizeStateConfig parseInt noSettings = defaults
  /\ (forall id, e_config (ephemeralEntry id) = defaults).
Proof.
  intros normalized. subst normalized. simpl.
  split; [by apply Math_max_zero, parseNumber_number|].
  split; [by apply Math_max_zero, parseNumber_number|].
  split; [by apply Math_max_zero, parseNumber_number|].
  split; [apply threshold_number|]. split; [apply threshold_number|].
  split.
  { intros digits. destruct (_ && _); [|done]. intros [= <-].
    apply Math_max_zero.
    change (isNaN (if truthy (JNum (parseInt (c_round custom)))
                   then parseInt (c_round custom) else 0%float) = false).
    destruct (truthy (JNum (parseInt (c_round custom)))) eqn:E; [|done].
    by apply truthy_number. }
  split; [apply toLowerCase_idempotent|]. split; [|done].
  by vm_compute.
Qed.

Section AdapterConfig.
Variable String_trim : string -> string.

Lemma trimmedOr_nonempty (v : jsval) (d : string) :
  d <> "" -> trimmedOr String_trim v d <> "".
Proof.
  intros Hd. unfold trimmedOr.
  destruct (String.eqb _ "") eqn:E; [done|]. by apply String.eqb_neq.
Qed.

Lemma positiveOr_positive (v : jsval) (current : float) :
  num_gt current 0%float = true ->
  num_gt (positiveOr v current) 0%float = true.
Proof.
  intros Hc. unfold positiveOr. by destruct (num_gt (toNumber _) 0%float) eqn:E.
Qed.

(** What [parseAdapterConfig] makes of a numeric setting. *)
Lemma positiveOr_taken (v : jsval) (current : float) :
  num_gt current 0%float = true ->
  let n := toNumber (orElse v (JNum current)) in
  (num_gt n 0%float = true -> positiveOr v current = n)
  /\ (num_gt n 0%float = false -> positiveOr v current = current)
  /\ (is_nullish v = true -> positiveOr v current = current)
  /\ num_gt (positiveOr v current) 0%float = true.
Proof.
  intros Hc n. subst n. split; [|split; [|split]].
  - intros E. unfold positiveOr. by rewrite E.
  - intros E. unfold positiveOr. by rewrite E.
  - intros Hv. unfold positiveOr, orElse. rewrite Hv. simpl. by rewrite Hc.
  - by apply positiveOr_positive.
Qed.

(** X20: [parseAdapterConfig]: the runtime options stay usable.  For each
    of the port, the flush interval, the batch size and the connect
    timeout, the runtime option becomes the number that [Number] reads
    from the setting (from the value in use when the setting is absent)
    when this number is above zero, and keeps the value in use
    otherwise: for a setting that is not a number, or not above zero.
    So the four are above zero when they were before, as those of the
    constructor are; an absent setting changes nothing; the host, the
    user, the database and the table prefix are not empty; and the
    configuration written back holds the four numbers in use, as
    strings. *)
Theorem parseAdapterConfig_positive (cfg : adapterConfig) (ro : runtimeOptions) :
  num_gt (ro_port ro) 0%float = true ->
  num_gt (ro_flushInterval ro) 0%float = true ->
  num_gt (ro_batchSize ro) 0%float = true ->
  num_gt (ro_connectTimeout ro) 0%float = true ->
  let parsed := parseAdapterConfig String_trim cfg ro in
  let taken (setting : jsval) (before after : float) :=
    let n := toNumber (orElse setting (JNum before)) in
    (num_gt n 0%float = true -> after = n)
    /\ (num_gt n 0%float = false -> after = before)
    /\ (is_nullish setting = true -> after = before)
    /\ num_gt after 0%float = true in
  taken (ac_port cfg) (ro_port ro) (ro_port parsed.2)
  /\ taken (ac_flushInterval cfg) (ro_flushInterval ro) (ro_flushInterval parsed.2)
  /\ taken (ac_batchSize cfg) (ro_batchSize ro) (ro_batchSize parsed.2)
  /\ taken (ac_connectTimeout cfg) (ro_connectTimeout ro)
       (ro_connectTimeout parsed.2)
  /\ (ro_host parsed.2 <> "" /\ ro_username parsed.2 <> ""
      /\ ro_database parsed.2 <> "" /\ ro_table parsed.2 <> "")
  /\ (ac_port parsed.1 = JStr (toString (JNum (ro_port parsed.2)))
      /\ ac_batchSize parsed.1 = JStr (toString (JNum (ro_batchSize parsed.2)))
      /\ ac_flushInterval parsed.1 = JStr (toString (JNum (ro_flushInterval parsed.2)))
      /\ ac_connectTimeout parsed.1
         = JStr (toString (JNum (ro_connectTimeout parsed.2))))
  /\ (num_gt (ro_port initialOptions) 0%float = true
      /\ num_gt (ro_flushInterval initialOptions) 0%float = true
      /\ num_gt (ro_batchSize initialOptions) 0%float = true
      /\ num_gt (ro_connectTimeout initialOptions) 0%float = true).
Proof.
  intros Hp Hf Hb Hc parsed taken. subst parsed taken. cbn [parseAdapterConfig fst snd
    ro_port ro_flushInterval ro_batchSize ro_connectTimeout ro_host ro_username
    ro_database ro_table ac_port ac_batchSize ac_flushInterval ac_connectTimeout].
  cbv zeta.
  split; [by apply positiveOr_taken|]. split; [by apply positiveOr_taken|].
  split; [by apply positiveOr_taken|]. split; [by apply positiveOr_taken|].
  split; [by repeat split; apply trimmedOr_nonempty|].
  split; [done|]. by vm_compute.
Qed.

End AdapterConfig.
End Settings.

Section SettingsExamples.
#[local] Existing Instance Reference.ref_builtins.

(** Witness: a batch size of ["0"] keeps the 500 of the constructor, a
    port of ["9000"] is taken, and the flush interval, which is not
    given, stays. *)
Lemma parseAdapterConfig_positive_witness :
  ro_batchSize
    (parseAdapterConfig (fun s => s)
       (AdapterConfig JUndefined JUndefined JUndefined JUndefined JUndefined
          JUndefined (JStr "9000") JUndefined (JStr "0") JUndefined)
       initialOptions).2
  = 500%float
  /\ ro_port
       (parseAdapterConfig (fun s => s)
          (AdapterConfig JUndefined JUndefined JUndefined JUndefined JUndefined
             JUndefined (JStr "9000") JUndefined (JStr "0") JUndefined)
          initialOptions).2
     = 9000%float
  /\ ro_flushInterval
       (parseAdapterConfig (fun s => s)
          (AdapterConfig JUndefined JUndefined JUndefined JUndefined JUndefined
             JUndefined (JStr "9000") JUndefined (JStr "0") JUndefined)
          initialOptions).2
     = 5000%float.
Proof.
  destruct (parseAdapterConfig_positive (fun s => s)
              (AdapterConfig JUndefined JUndefined JUndefined JUndefined JUndefined
                 JUndefined (JStr "9000") JUndefined (JStr "0") JUndefined)
              initialOptions eq_refl eq_refl eq_refl eq_refl)
    as ((Hport & _) & (_ & _ & Hflush & _) & (_ & Hbatch & _) & _).
  split; [exact (Hbatch eq_refl)|]. split; [exact (Hport eq_refl)|].
  exact (Hflush eq_refl).
Defined.

End SettingsExamples.
End ConfigFacts.

(** ** Requests: deletions, history queries and timestamps *)

Module RequestFacts.
Import ConfigFacts.

Section Deletions.
Variable Math_trunc : float -> float.
Variable Date_getTime : jsval -> float.

(** X21: [handleDelete], [handleDeleteRange] and [executeDelete]: what is
    deleted.  A request for one timestamp deletes the rows of this
    millisecond, or, when the timestamp is [null] or does not parse,
    every row of the table; a list of timestamps is handled one by one in
    this way; a range whose start does not parse deletes every row,
    whatever its end; and a range whose end alone does not parse deletes
    the rows of the start. *)
Theorem delete_statements (id : jsval) :
  truthy id = true ->
  (forall ts,
     strict_eq ts JUndefined = false ->
     (forall items, ts <> JArr items) ->
     handleDelete Math_trunc Date_getTime id ts
     = Ok [match normalizeTs Math_trunc Date_getTime ts with
           | Some t => DeleteBetween t t
           | None => DeleteAll
           end])
  /\ (forall items,
        handleDelete Math_trunc Date_getTime id (JArr items)
        = Ok (map (fun single =>
                     match normalizeTs Math_trunc Date_getTime single with
                     | Some t => DeleteBetween t t
                     | None => DeleteAll
                     end) items))
  /\ normalizeTs Math_trunc Date_getTime JNull = None
  /\ (forall start finish,
        strict_eq start JUndefined = false ->
        strict_eq finish JUndefined = false ->
        handleDeleteRange Math_trunc Date_getTime id start finish
        = Ok (match normalizeTs Math_trunc Date_getTime start,
                    normalizeTs Math_trunc Date_getTime finish with
              | None, _ => DeleteAll
              | Some s, None => DeleteAt s
              | Some s, Some f => DeleteBetween s f
              end))
  /\ handleDeleteAll Math_trunc Date_getTime id = Ok DeleteAll.
Proof.
  intros Hid. split; [|split; [|split; [done|split]]].
  - intros ts Hu Harr. unfold handleDelete. rewrite Hid, Hu. simpl.
    assert (Hd : deleteFor Math_trunc Date_getTime ts ts
                 = match normalizeTs Math_trunc Date_getTime ts with
                   | Some t => DeleteBetween t t
                   | None => DeleteAll
                   end).
    { unfold deleteFor. by destruct (normalizeTs Math_trunc Date_getTime ts). }
    rewrite <- Hd. destruct ts; try done. by destruct (Harr items).
  - intros items. unfold handleDelete. rewrite Hid. simpl. f_equal.
    apply map_ext. intros single. unfold deleteFor.
    by destruct (normalizeTs Math_trunc Date_getTime single).
  - intros start finish Hs Hf. unfold handleDeleteRange. rewrite Hid, Hs, Hf. simpl.
    unfold deleteFor.
    by destruct (normalizeTs Math_trunc Date_getTime start),
         (normalizeTs Math_trunc Date_getTime finish).
  - unfold handleDeleteAll. by rewrite Hid.
Qed.

End Deletions.

(** A number that is neither NaN, nor zero, nor above zero is below
    zero. *)
Lemma below_zero (x : float) :
  isNaN x = false -> PrimFloat.is_zero x = false -> num_gt x 0%float = false ->
  num_lt x 0%float = true.
Proof.
  intros Hn. unfold num_gt, num_lt, PrimFloat.is_zero.
  rewrite !FloatAxioms.ltb_spec, FloatAxioms.eqb_spec.
  change (Prim2SF 0%float) with (S754_zero false).
  change (Prim2SF PrimFloat.zero) with (S754_zero false).
  destruct (not_nan_cases x Hn) as [[s ->]|[[s ->]|(s & m & e & ->)]];
    unfold SFltb, SFeqb; simpl; by destruct s.
Qed.

(** A number below zero is not above it. *)
Lemma below_not_above (x : float) :
  num_lt x 0%float = true -> num_gt x 0%float = false.
Proof.
  unfold num_gt, num_lt. rewrite !FloatAxioms.ltb_spec.
  change (Prim2SF 0%float) with (S754_zero false).
  by destruct (Prim2SF x) as [[]|[]| |[] m e].
Qed.

Lemma truthy_nonzero (x : float) :
  truthy (JNum x) = true -> isNaN x = false /\ PrimFloat.is_zero x = false.
Proof.
  simpl. unfold isNaN.
  by destruct (PrimFloat.is_zero x), (PrimFloat.is_nan x).
Qed.

Section Queries.
Context `{Builtins}.
Variable parseInt : jsval -> float.
Variable Date_getTime : jsval -> float.

(** X22: [handleGetHistory]: the limit of the query.  The limit is
    [options.limit] when [parseInt] reads it as a number other than zero
    (and not NaN), whatever [options.count] holds; otherwise
    [options.count] when [parseInt] reads it so; and 2000 when neither
    is.  It is never NaN nor zero, so it is above or below zero: the
    query carries it when it is above zero, and carries no limit when it
    is below zero. *)
Theorem history_limit (o : historyOptions) :
  let limit := historyLimit parseInt o in
  let query := queryOf parseInt Date_getTime o in
  (truthy (JNum (parseInt (o_limit o))) = true -> limit = parseInt (o_limit o))
  /\ (truthy (JNum (parseInt (o_limit o))) = false ->
      truthy (JNum (parseInt (o_count o))) = true ->
      limit = parseInt (o_count o))
  /\ (truthy (JNum (parseInt (o_limit o))) = false ->
      truthy (JNum (parseInt (o_count o))) = false ->
      limit = 2000%float /\ q_limit query = Some 2000%float)
  /\ isNaN limit = false
  /\ PrimFloat.is_zero limit = false
  /\ (num_gt limit 0%float = true \/ num_lt limit 0%float = true)
  /\ (num_gt limit 0%float = true -> q_limit query = Some limit)
  /\ (num_lt limit 0%float = true -> q_limit query = None).
Proof.
  intros limit query.
  assert (Hl : isNaN limit = false /\ PrimFloat.is_zero limit = false).
  { subst limit. unfold historyLimit.
    destruct (truthy (JNum (parseInt (o_limit o)))) eqn:E1; [by apply truthy_nonzero|].
    destruct (truthy (JNum (parseInt (o_count o)))) eqn:E2; [by apply truthy_nonzero|].
    done. }
  destruct Hl as [Hn Hz].
  assert (Hq : q_limit query
               = if num_gt limit 0%float then Some limit else None) by done.
  split; [intros E1; subst limit; unfold historyLimit; by rewrite E1|].
  split; [intros E1 E2; subst limit; unfold historyLimit; by rewrite E1, E2|].
  split.
  { intros E1 E2.
    assert (Hd : limit = 2000%float)
      by (subst limit; unfold historyLimit; by rewrite E1, E2).
    split; [done|]. by rewrite Hq, Hd. }
  split; [done|]. split; [done|]. split.
  { destruct (num_gt limit 0%float) eqn:E; [by left|].
    right. by apply below_zero. }
  split; [intros E; by rewrite Hq, E|].
  intros E. rewrite Hq. by rewrite (below_not_above limit E).
Qed.

(** The first occurrence of a character replaced. *)
Lemma replace_first_app (c : ascii) (by_ l1 l2 : list ascii) :
  Forall (fun x => Ascii.eqb x c = false) l1 ->
  replace_first c by_ (l1 ++ c :: l2) = l1 ++ by_ ++ l2.
Proof.
  induction 1 as [|x l1 Hx _ IH]; simpl.
  - by rewrite Ascii.eqb_refl.
  - by rewrite Hx, IH.
Qed.

(** X23: [formatDateTime]: the timestamp of a row.  For a time value that is
    a valid date, whose ISO form is a date, the letter [T], a time and
    the letter [Z], the timestamp is the date, a space and the time; for
    any other time value the function throws, as [toISOString] does. *)
Theorem formatDateTime_shape (ts : float) (date time : list ascii) :
  chars_of (Date_toISOString ts) = date ++ "T"%char :: time ++ ["Z"%char] ->
  Forall (fun x => Ascii.eqb x "T"%char = false) date ->
  Forall (fun x => Ascii.eqb x "Z"%char = false) (date ++ time) ->
  (Date_valid ts = true ->
   formatDateTime ts = Ok (string_of (date ++ " "%char :: time)))
  /\ (Date_valid ts = false -> formatDateTime ts = Throw "Invalid time value").
Proof.
  intros Hiso HT HZ. unfold formatDateTime. split; intros ->; [|done].
  rewrite Hiso. rewrite (replace_first_app "T"%char [" "%char] date _ HT).
  simpl. apply Forall_app in HZ as [HZd HZt].
  change (date ++ " "%char :: time ++ ["Z"%char])
    with (date ++ [" "%char] ++ time ++ ["Z"%char]).
  rewrite !app_assoc.
  rewrite (replace_first_app "Z"%char [] _ []).
  - by rewrite !app_nil_r, <- app_assoc.
  - apply Forall_app. split; [|done]. apply Forall_app. split; [done|].
    by repeat constructor.
Qed.

End Queries.

Section RequestExamples.
#[local] Existing Instance Reference.ref_builtins.

(** Witness: a delete request whose timestamp is the text [yesterday],
    which no date parser reads, deletes every row. *)
Lemma delete_statements_witness :
  handleDelete (fun x => x) (fun _ => PrimFloat.nan) (JStr "point") (JStr "yesterday")
  = Ok [DeleteAll].
Proof.
  exact (proj1 (delete_statements (fun x => x) (fun _ => PrimFloat.nan) (JStr "point")
                  eq_refl) (JStr "yesterday") eq_refl ltac:(discriminate)).
Defined.

(** Witness: the time value 1700000000000. *)
Lemma formatDateTime_shape_witness :
  formatDateTime 1700000000000%float = Ok "2023-11-14 22:13:20.000".
Proof.
  refine (proj1 (formatDateTime_shape 1700000000000%float
                   (chars_of "2023-11-14") (chars_of "22:13:20.000") eq_refl _ _)
            eq_refl); by repeat constructor.
Defined.

End RequestExamples.
End RequestFacts.

(** ** The tracked points and their subscriptions *)

Module TrackingFacts.

Lemma covering_observed (t : tracker) (id : string) (e : entry) :
  covering t -> t_tracked t !! id = Some e -> ephemeral e = false -> observed t id.
Proof.
  unfold covering, observed. destruct (t_subscribeAll t).
  - by left.
  - intros Hc Hid He. right. by apply (Hc id e).
Qed.

(** Setting an entry that is tracked already, or an ephemeral one, and
    subscribing more, keeps the cover. *)
Lemma covering_insert (t : tracker) (id : string) (e : entry) (more : gset string) :
  covering t ->
  (t_subscribeAll t = false -> ephemeral e = false -> id ∈ more ∪ t_subscribed t) ->
  covering (Tracker (<[id := e]> (t_tracked t)) (t_subscribeAll t)
              (more ∪ t_subscribed t)).
Proof.
  unfold covering. simpl. destruct (t_subscribeAll t).
  - intros Hs _. set_solver.
  - intros Hc Hid id' e' Hl He'.
    destruct (decide (id' = id)) as [->|Hne].
    + rewrite lookup_insert_eq in Hl. injection Hl as <-. by apply Hid.
    + rewrite lookup_insert_ne in Hl by done.
      apply elem_of_union_r. by apply (Hc id' e').
Qed.

Lemma covering_all (tracked : gmap string entry) (subscribed : gset string) :
  covering (Tracker tracked true ({[ "*" ]} ∪ subscribed)).
Proof. unfold covering. simpl. set_solver. Qed.

Lemma addTrackedDatapoint_covering (t : tracker) (id : string)
    (normalized : config) (hash : string) (current : option sample) :
  covering t -> covering (addTrackedDatapoint t id normalized hash current).
Proof.
  intros Hc. unfold addTrackedDatapoint. cbv zeta.
  cbn [t_subscribeAll t_tracked t_subscribed].
  set (entry := trackedEntry id normalized hash).
  set (m := <[id := entry]> (t_tracked t)).
  unfold covering in Hc.
  destruct (t_subscribeAll t) eqn:Hall; cbn [negb andb].
  - by destruct current.
  - destruct (size m <? SUBSCRIBE_THRESHOLD)%nat eqn:Hs.
    + unfold subscribeForeignStates.
      assert (Hown : forall e0 id' e',
                (<[id := e0]> m : gmap string Policy.entry) !! id' = Some e' ->
                ephemeral e' = false ->
                id' ∈ ({[ id ]} ∪ t_subscribed t : gset string)).
      { intros e0 id' e' Hl He'.
        destruct (decide (id' = id)) as [->|Hne]; [set_solver|].
        subst m. rewrite !lookup_insert_ne in Hl by done.
        apply elem_of_union_r. by apply (Hc id' e'). }
      destruct current as [state|]; unfold covering;
        cbn [t_subscribeAll t_tracked t_subscribed].
      * apply Hown.
      * intros id' e' Hl. apply (Hown entry). subst m. by rewrite insert_insert_eq.
    + apply Nat.ltb_ge in Hs.
      assert ((SUBSCRIBE_THRESHOLD <=? size m)%nat = true) as ->
        by (by apply Nat.leb_le).
      unfold subscribeForeignStates.
      destruct current; unfold covering;
        cbn [t_subscribeAll t_tracked t_subscribed]; set_solver.
Qed.

Lemma createEphemeralEntry_covering (t : tracker) (id : string) :
  covering t -> covering (createEphemeralEntry t id).
Proof.
  intros Hc. unfold createEphemeralEntry. cbv zeta.
  cbn [t_subscribeAll t_tracked t_subscribed].
  destruct (negb (t_subscribeAll t) && _).
  - unfold subscribeForeignStates. simpl. by apply covering_insert.
  - pose proof (covering_insert t id (ephemeralEntry id) ∅ Hc) as Hi.
    rewrite union_empty_l_L in Hi. by apply Hi.
Qed.

Lemma removeTrackedDatapoint_covering (t : tracker) (id : string) :
  covering t -> covering (removeTrackedDatapoint t id).
Proof.
  intros Hc. unfold removeTrackedDatapoint.
  destruct (t_tracked t !! id) as [e|] eqn:Hid; [|done]. simpl.
  unfold covering in *. destruct (t_subscribeAll t) eqn:Hall; simpl.
  - done.
  - intros id' e' Hl He'.
    destruct (decide (id' = id)) as [->|Hne].
    + by rewrite lookup_delete_eq in Hl.
    + rewrite lookup_delete_ne in Hl by done.
      apply elem_of_difference. split; [by apply (Hc id' e')|set_solver].
Qed.

Lemma onObjectChange_covering (t : tracker) (id : string)
    (custom : option (config * string)) (current : option sample) :
  covering t -> covering (onObjectChange t id custom current).
Proof.
  intros Hc. unfold onObjectChange.
  destruct custom as [[normalized hash]|];
    [|by apply removeTrackedDatapoint_covering].
  destruct (t_tracked t !! id) as [e|].
  - case_bool_decide; [done|].
    by apply addTrackedDatapoint_covering, removeTrackedDatapoint_covering.
  - by apply addTrackedDatapoint_covering, removeTrackedDatapoint_covering.
Qed.

Lemma subscribe_each_covering (ids : list string) :
  forall t,
    t_subscribeAll t = false ->
    t_subscribeAll (fold_left subscribeForeignStates ids t) = false
    /\ t_tracked (fold_left subscribeForeignStates ids t) = t_tracked t
    /\ forall id, id ∈ ids \/ id ∈ t_subscribed t ->
                  id ∈ t_subscribed (fold_left subscribeForeignStates ids t).
Proof.
  induction ids as [|x ids IH]; intros t Hall; simpl.
  { split; [done|]. split; [done|]. intros id [Hin|Hin]; [|done].
    by apply elem_of_nil in Hin. }
  destruct (IH (subscribeForeignStates t x) Hall) as (H1 & H2 & H3).
  split; [done|]. split; [done|]. intros id Hid. apply H3.
  cbn [subscribeForeignStates t_subscribed].
  destruct Hid as [Hin|Hin].
  - apply elem_of_cons in Hin as [->|Hin]; [|by left].
    right. by apply elem_of_union_l, elem_of_singleton.
  - right. by apply elem_of_union_r.
Qed.

Lemma initializeTrackedDatapoints_covering (t : tracker) (rows : list customRow) :
  covering t -> covering (initializeTrackedDatapoints t rows).
Proof.
  intros Hc. unfold initializeTrackedDatapoints. cbv zeta.
  assert (Hfold : forall l t0, covering t0 ->
    covering (fold_left (fun t1 row =>
                addTrackedDatapoint t1 (cr_id row) (cr_config row) (cr_hash row)
                  (cr_current row)) l t0)).
  { induction l as [|row l IH]; intros t0 H0; [done|].
    simpl. by apply IH, addTrackedDatapoint_covering. }
  match goal with
  | |- context [fold_left ?f rows ?t0] =>
      assert (H1 : covering (fold_left f rows t0));
      [apply Hfold|set (t1 := fold_left f rows t0) in *]
  end.
  { unfold covering in *. simpl. destruct (t_subscribeAll t); [done|].
    intros id e Hl. by rewrite lookup_empty in Hl. }
  destruct (t_subscribeAll t1) eqn:Hall; cbn [negb].
  - by rewrite andb_false_r.
  - rewrite andb_true_r. destruct (SUBSCRIBE_THRESHOLD <=? size (t_tracked t1))%nat.
    + unfold subscribeForeignStates. cbn [t_tracked t_subscribeAll t_subscribed].
      apply covering_all.
    + destruct (subscribe_each_covering (map fst (map_to_list (t_tracked t1))) t1 Hall)
        as (H2 & H3 & H4).
      unfold covering. rewrite H2, H3. intros id e Hl _. apply H4. left.
      apply (list_elem_of_fmap_2 fst _ (id, e)). by apply elem_of_map_to_list.
Qed.

Lemma applyChange_covering (t : tracker) (c : change) :
  covering t -> covering (applyChange t c).
Proof.
  intros Hc. destruct c; simpl.
  - by apply addTrackedDatapoint_covering.
  - by apply createEphemeralEntry_covering.
  - by apply removeTrackedDatapoint_covering.
  - by apply onObjectChange_covering.
  - by apply initializeTrackedDatapoints_covering.
Qed.

(** X24: The tracked points are observed.  After any sequence of the
    adapter's changes to its tracked points (points enabled, created
    for a single write, disabled, objects changed, the points loaded
    anew), every tracked point that is not ephemeral is covered by a
    pattern subscribed at the host: by ["*"] once the adapter has
    subscribed to all states, which it does when 20 points are tracked
    as a point is enabled, and by its own identifier before. *)
Theorem tracked_points_observed (changes : list change) :
  let t := fold_left applyChange changes emptyTracker in
  covering t
  /\ (forall id e, t_tracked t !! id = Some e -> ephemeral e = false ->
        observed t id)
  /\ (forall id normalized hash current,
        SUBSCRIBE_THRESHOLD
        <= size (t_tracked (addTrackedDatapoint t id normalized hash current)) ->
        t_subscribeAll (addTrackedDatapoint t id normalized hash current) = true).
Proof.
  intros t.
  assert (Hgen : forall l t0, covering t0 -> covering (fold_left applyChange l t0)).
  { induction l as [|c l IH]; intros t0 H0; [done|].
    simpl. by apply IH, applyChange_covering. }
  assert (Hc : covering t).
  { apply Hgen. unfold covering. simpl. intros id e Hl. by rewrite lookup_empty in Hl. }
  split; [done|]. split; [intros id e; by apply covering_observed|].
  intros id normalized hash current. unfold addTrackedDatapoint. cbv zeta.
  cbn [t_subscribeAll t_tracked t_subscribed].
  destruct (t_subscribeAll t) eqn:Hall; cbn [negb andb].
  { by destruct current. }
  destruct (size _ <? SUBSCRIBE_THRESHOLD)%nat eqn:Hs.
  - apply Nat.ltb_lt in Hs. intros Hsize. exfalso.
    destruct current; cbn [t_tracked subscribeForeignStates] in Hsize;
      rewrite ?insert_insert_eq in Hsize;
      rewrite map_size_insert in Hs, Hsize; lia.
  - apply Nat.ltb_ge in Hs. apply Nat.leb_le in Hs. rewrite Hs.
    by destruct current.
Qed.

End TrackingFacts.

(** ** The write path: tables kept, spacing and the re-log timer *)

Module WritePathFacts.
Import NormalizerFacts ValueFacts PipelineFacts RowFacts TableCacheFacts.

Section WritePath.
Context `{Builtins}.

Lemma ensureEntryForId_tables (h : host) (a : adapter) (id : string) :
  tableCache (ensureEntryForId h a id).2 = tableCache a.
Proof. unfold ensureEntryForId. by destruct (tracked a !! id). Qed.

(** What [pushHistory] does to the table cache: nothing, or what its
    call of [ensureTableFor] does. *)
Lemma pushHistory_queue_tables (h : host) (a : adapter) (id : string)
    (state : rawState) (timerRelog allowCreate : bool) :
  let a' := (pushHistory_queue h a id state timerRelog allowCreate).2 in
  tableCache a' = tableCache a
  \/ exists a0 a1 t info,
       tableCache a0 = tableCache a
       /\ ensureTableFor h a0 id t = Ok (info, a1)
       /\ tableCache a' = tableCache a1.
Proof.
  intros a'. subst a'. unfold pushHistory_queue.
  destruct (pushHistory_prepare h a id state allowCreate) as [[o a1]|p] eqn:Hp.
  - simpl. unfold pushHistory_prepare in Hp.
    match type of Hp with
    | match ?f with _ => _ end = _ =>
        assert (Hf : forall e0 a0, f = Some (e0, a0) -> tableCache a0 = tableCache a);
        [|destruct f as [[e0 a0]|]; [specialize (Hf e0 a0 eq_refl)|]]
    end.
    { intros e0 a0. destruct (tracked a !! id); [by intros [= _ <-]|].
      destruct allowCreate; [|done]. intros [= Hf].
      rewrite <- (ensureEntryForId_tables h a id). by rewrite Hf. }
    2: { left. by injection Hp as _ <-. }
    cbv zeta in Hp.
    destruct (strict_eq _ JUndefined); [left; by injection Hp as _ <-|].
    destruct (prepareValue _ _) as [c0|]; [|left; by injection Hp as _ <-].
    destruct (ensureTableFor _ _ _ _) as [[info a2]|] eqn:Ht;
      [|left; by injection Hp as _ <-].
    right. eexists _, a2, _, info. split; [|split; [exact Ht|]]; [done|].
    repeat case_match; by simplify_eq.
  - destruct (pushHistory_prepare_inr _ _ _ _ _ _ Hp)
      as (e0 & a0 & c0 & Hfound & _ & _ & _ & _ & Ht & _).
    right. eexists _, (p_adapter p), _, (p_table p).
    split; [|split; [exact Ht|]].
    + simpl. destruct Hfound as [[_ ->]|(_ & _ & He)]; [done|].
      rewrite <- (ensureEntryForId_tables h a id). by rewrite He.
    + unfold pushHistory_decide. destruct (shouldSkipValue _ _ _ _) as [skip e'].
      destruct skip; [done|]. by destruct (buildRow _ _ _ _).
Qed.

(** X25: [pushHistory]: the tables are kept.  Whatever becomes of a sample
    in a call of [pushHistory] that no other call overlaps, the table
    registered for an identifier stays registered for it, unchanged, and
    no other identifier than the one of the sample gets a table. *)
Theorem pushHistory_keeps_tables (h : host) (a : adapter) (id : string)
    (state : rawState) (timerRelog allowCreate : bool) :
  let a' := (pushHistory_queue h a id state timerRelog allowCreate).2 in
  (forall j info, tableCache a !! j = Some info -> tableCache a' !! j = Some info)
  /\ (forall j, j <> id -> tableCache a' !! j = tableCache a !! j).
Proof.
  intros a'.
  destruct (pushHistory_queue_tables h a id state timerRelog allowCreate)
    as [Heq|(a0 & a1 & t & info & H0 & Ht & H1)]; fold a' in Heq || fold a' in H1.
  { rewrite Heq. by repeat split. }
  rewrite H1. split.
  - intros j x Hj. rewrite <- H0 in Hj.
    apply ensureTableFor_ok in Ht as (Hnew & _ & _ & _ & [[_ ->]|(Hmiss & _ & _ & ->)]);
      [done|].
    simpl. destruct (decide (j = id)) as [->|Hne]; [congruence|].
    by rewrite lookup_insert_ne.
  - intros j Hj. rewrite <- H0.
    apply ensureTableFor_ok in Ht as (_ & _ & _ & _ & [[_ ->]|(_ & _ & _ & ->)]);
      [done|].
    simpl. by rewrite lookup_insert_ne.
Qed.

(** X26: [pushHistory]: the spacing of the stored samples.  While the block
    time of a point runs, that is up to the time of its last stored
    sample plus the block time, no sample that is not a re-log queues a
    row, whatever its value, and the queue is left as it is. *)
Theorem block_time_spacing (h : host) (a : adapter) (id : string)
    (state : rawState) (allowCreate : bool) (e : entry) (stored : storedState) :
  tracked a !! id = Some e ->
  lastStoredState e = Some stored ->
  num_gt (blockTime (e_config e)) 0%float = true ->
  num_le (s_ts (cloneState h state))
    (PrimFloat.add (ls_ts stored) (blockTime (e_config e))) = true ->
  let result := pushHistory_queue h a id state false allowCreate in
  (forall r c st full, result.1 <> Queued r c st full)
  /\ buffer result.2 = buffer a.
Proof.
  intros Hid Hst Hbt Hts result. subst result. unfold pushHistory_queue.
  pose proof (pushHistory_prepare_buffer h a id state allowCreate) as Hb.
  destruct (pushHistory_prepare h a id state allowCreate) as [[o a1]|p] eqn:Hp.
  { by apply pushHistory_prepare_inl in Hp. }
  destruct (pushHistory_prepare_inr _ _ _ _ _ _ Hp)
    as (e0 & a0 & c0 & Hfound & _ & Hs & He & _).
  destruct Hfound as [[Hid' _]|[Hid' _]]; [|congruence].
  assert (e0 = e) as -> by congruence.
  assert (Hblock : blockTimeActive (p_entry p) (p_state p) false = true).
  { unfold blockTimeActive. rewrite He, Hs.
    change (lastStoredState (set_lastState e (Some (cloneState h state))))
      with (lastStoredState e).
    change (e_config (set_lastState e (Some (cloneState h state))))
      with (e_config e).
    by rewrite Hst, Hbt, Hts. }
  unfold pushHistory_decide, shouldSkipValue. rewrite Hblock. simpl.
  by split.
Qed.

(** Without rounding, a number that [prepareValue] gives is finite. *)
Lemma prepareValue_finite (v : jsval) (s : settings) (c : converted) (x : float) :
  prepareValue v s = Ok c ->
  round s = None ->
  cv_value c = JNum x ->
  isFinite x = true.
Proof.
  intros Hc Hr Hx. unfold prepareValue in Hc. rewrite Hr in Hc.
  destruct (is_nullish v) eqn:Hn; [by injection Hc as <-|].
  cbv zeta in Hc. unfold toRoundedNumber, autoDetect, toRoundedNumber in Hc.
  pose proof (stringify_cases v) as Hsv.
  repeat case_match; simplify_eq/=; try done;
    try (by destruct Hsv as [[t Ht]|Ht]; congruence);
    by match goal with
       | E : negb (isFinite _) = false |- _ => apply negb_false_iff in E
       end.
Qed.

(** The conversion of a converted value.  Under automatic detection and
    without rounding, [pushHistory] converts the value of a converted
    sample, for a table of the type of that sample, to the same
    converted sample. *)
Lemma prepareValue_again (v : jsval) (s : settings) (c : converted)
    (storage : string) :
  prepareValue v s = Ok c ->
  round s = None ->
  cv_value c <> JUndefined ->
  storage = "auto" ->
  exists c0,
    prepareValue (cv_value c) (Settings storage None) = Ok c0
    /\ (if negb (vtype_eqb (cv_type c) (cv_type c0))
        then prepareValue (cv_value c) (Settings (type_name (cv_type c)) None)
        else Ok c0) = Ok c.
Proof.
  intros Hc Hr Hu ->.
  pose proof (prepareValue_finite v s c) as Hfin.
  destruct (prepareValue_shape v s c Hc) as (Hk & Hs & _).
  destruct c as [t value key]. simpl in *. subst key.
  destruct t.
  - destruct Hs as [x ->]. specialize (Hfin x Hc Hr eq_refl).
    exists (Converted TNumber (JNum x) (JNum x)).
    unfold prepareValue. simpl. unfold toRoundedNumber. by rewrite Hfin.
  - destruct Hs as [u ->]. by exists (Converted TString (JStr u) (JStr u)).
  - destruct Hs as [b ->]. by exists (Converted TBoolean (JBool b) (JBool b)).
  - destruct Hs as [[u ->]| ->]; [|done].
    by exists (Converted TString (JStr u) (JStr u)).
  - destruct Hs as [-> _]. by exists (Converted TNull JNull JNull).
Qed.

(** X27: [pushHistory]: the re-log of a stored sample.  A point with
    automatic type detection and no rounding has a sample queued and
    stored, with a value other than [undefined].  Then the entry holds
    the re-log delay of the settings; the state that the re-log timer
    hands to [pushHistory] carries the stored value and the current time;
    and for it [pushHistory] queues a row for the same table with the same
    written value, whatever the spacing, zero and change-only filters
    say, as long as the current time is a valid date. *)
Theorem relog_writes_again (h h' : host) (a a1 : adapter) (id : string)
    (state : rawState) (timerRelog allowCreate : bool)
    (e0 : entry) (r : row) (c : converted) (st : sample) (full : bool) :
  tracked a !! id = Some e0 ->
  cfg_storageType (e_config e0) = "auto" ->
  cfg_round (e_config e0) = None ->
  pushHistory_queue h a id state timerRelog allowCreate = (Queued r c st full, a1) ->
  cv_value c <> JUndefined ->
  Date_valid (now h') = true ->
  let a2 := pushHistory_store a1 id c st in
  exists e2 raw r' st' full' a3,
    tracked a2 !! id = Some e2
    /\ relogTimeout e2
       = (if num_gt (changesRelogInterval (e_config e0)) 0%float
          then Some (PrimFloat.mul (changesRelogInterval (e_config e0)) 1000%float)
          else None)
    /\ relogState h' e2 = Some raw
    /\ raw_val raw = cv_value c
    /\ pushHistory_queue h' a2 id raw true true = (Queued r' c st' full', a3)
    /\ s_ts st' = now h'
    /\ r_table r' = r_table r
    /\ r_type r' = r_type r
    /\ rv_value (r_values r') = rv_value (r_values r)
    /\ buffer a3 = buffer a2 ++ [r'].
Proof.
  intros Hid Hauto Hround Hq Hu Hnow a2.
  destruct (pushHistory_queued _ _ _ _ _ _ _ _ _ _ _ Hq)
    as (p & Hp & -> & -> & Hskip & Hrow & Ha1 & _).
  destruct (pushHistory_prepare_inr _ _ _ _ _ _ Hp)
    as (e & a0 & c0 & Hfound & _ & Hst & He & Hc0 & Ht & Hagain & Hty).
  destruct Hfound as [[Hid' ->]|[Hid' _]]; [|congruence].
  assert (e = e0) as -> by congruence.
  apply ensureTableFor_ok in Ht as (Hcache & _).
  assert (Htr1 : tracked a1 !! id = Some (p_entry p)).
  { rewrite Ha1. simpl. apply lookup_insert_eq. }
  assert (Hcache1 : tableCache a1 !! id = Some (p_table p)) by (by rewrite Ha1).
  set (e2 := storeCommit (p_entry p) (p_converted p) (p_state p)).
  assert (Ha2 : tracked a2 !! id = Some e2
                /\ tableCache a2 !! id = Some (p_table p)).
  { subst a2. unfold pushHistory_store. rewrite Htr1. simpl.
    by rewrite lookup_insert_eq. }
  destruct Ha2 as [Htr2 Hcache2].
  assert (Hcfg : e_config e2 = e_config e0) by (by subst e2; rewrite He).
  assert (Hprep : exists v s, prepareValue v s = Ok (p_converted p) /\ round s = None).
  { destruct Hagain as [[_ ->]|[_ Hc1]]; eauto. }
  destruct Hprep as (v & s & Hs & Hrs).
  destruct (prepareValue_again v s (p_converted p) "auto" Hs Hrs Hu eq_refl)
    as (c1 & Hc1 & Hsame).
  (* the state of the timer *)
  set (raw := {| raw_val := cv_value (p_converted p);
                 raw_ts := JNum (now h');
                 raw_lc := if truthy (JNum (s_lc (p_state p)))
                           then JNum (s_lc (p_state p)) else JNum (now h');
                 raw_ack := s_ack (p_state p);
                 raw_q := s_q (p_state p);
                 raw_from := s_from (p_state p) |}).
  assert (Hts : s_ts (cloneState h' raw) = now h').
  { simpl. by destruct (negb (isNaN (now h'))). }
  assert (Hvalid : Date_valid (s_ts (cloneState h' raw)) = true) by (by rewrite Hts).
  destruct (buildRow_valid id (p_table p) (p_converted p) (cloneState h' raw) Hvalid)
    as [r' Hr'].
  set (e3 := set_lastState e2 (Some (cloneState h' raw))).
  set (a3 := set_tracked a2 (<[id := e3]> (tracked a2))).
  (* the range clamp passed the sample before *)
  assert (Hclamp : belowThreshold e3 (p_converted p) = false
                   /\ aboveThreshold e3 (p_converted p) = false).
  { assert (Hb : belowThreshold e3 (p_converted p)
                 = belowThreshold (p_entry p) (p_converted p))
      by (unfold belowThreshold; subst e3 e2; by simpl).
    assert (Ha : aboveThreshold e3 (p_converted p)
                 = aboveThreshold (p_entry p) (p_converted p))
      by (unfold aboveThreshold; subst e3 e2; by simpl).
    rewrite Hb, Ha. unfold shouldSkipValue in Hskip.
    destruct (blockTimeActive _ _ _); [done|].
    destruct (ignoreZeroHit _ _ _); [done|].
    destruct (belowThreshold _ _); [done|].
    by destruct (aboveThreshold _ _). }
  destruct Hclamp as [Hbelow Habove].
  exists e2, raw, r', (cloneState h' raw).
  exists (batchSize a3 <=? length (buffer a3 ++ [r']))%nat.
  exists (set_buffer (set_tracked a3 (<[id := e3]> (tracked a3))) (buffer a3 ++ [r'])).
  split; [done|]. split; [by subst e2; simpl; rewrite He|].
  split; [done|]. split; [done|].
  split.
  { unfold pushHistory_queue, pushHistory_prepare. rewrite Htr2. cbv zeta.
    change (s_val (cloneState h' raw)) with (cv_value (p_converted p)).
    assert (Hne : strict_eq (cv_value (p_converted p)) JUndefined = false)
      by (by destruct (cv_value (p_converted p))).
    rewrite Hne. fold e3. fold a3.
    assert (Hset : settings_of (e_config e2) = Settings "auto" None).
    { unfold settings_of. by rewrite Hcfg, Hauto, Hround. }
    rewrite Hset, Hc1.
    assert (Ht3 : ensureTableFor h' a3 id (cv_type c1) = Ok (p_table p, a3)).
    { unfold ensureTableFor, ensureTableFor_begin.
      change (tableCache a3) with (tableCache a2). by rewrite Hcache2. }
    rewrite Ht3.
    assert (Hwith : with_storageType (e_config e2) (type_name (ti_type (p_table p)))
                    = Settings (type_name (cv_type (p_converted p))) None).
    { unfold with_storageType. by rewrite Hcfg, Hround, Hty. }
    rewrite Hwith, <- Hty, Hsame, vtype_eqb_refl. simpl.
    unfold pushHistory_decide. simpl.
    assert (Hpass : shouldSkipValue e3 (p_converted p) (cloneState h' raw) true
                    = (false, e3)).
    { unfold shouldSkipValue, blockTimeActive, ignoreZeroHit.
      rewrite Hbelow, Habove. simpl. by destruct (lastStoredState e3). }
    rewrite Hpass, Hr'. done. }
  split; [done|].
  unfold buildRow in Hr', Hrow.
  destruct (formatDateTime (s_ts (cloneState h' raw))); [|done].
  destruct (formatDateTime (s_ts (p_state p))); [|done].
  injection Hr' as <-. injection Hrow as <-. by simpl.
Qed.

End WritePath.

Section WritePathExamples.
#[local] Existing Instance Reference.ref_builtins.

(** Witness: a block time of five seconds, a number stored at the time
    1000, and another number two seconds later. *)
Lemma block_time_spacing_witness :
  buffer (pushHistory_queue quietHost (pointAdapter (relogEntry 5000%float)) "point"
            (rawSample (JNum 11%float) (JNum 3000%float)) false false).2
  = [].
Proof.
  exact (proj2 (block_time_spacing quietHost (pointAdapter (relogEntry 5000%float))
                  "point" (rawSample (JNum 11%float) (JNum 3000%float)) false
                  (relogEntry 5000%float) _ eq_refl eq_refl eq_refl eq_refl)).
Defined.

(** Witness: the number 12 is stored for a point with a re-log interval
    of 60 seconds. *)
Lemma relog_writes_again_witness :
  exists r full a1,
    pushHistory_queue quietHost (pointAdapter (relogEntry 0%float)) "point"
      (rawSample (JNum 12%float) (JNum 62000%float)) false false
    = (Queued r (numberValue 12%float)
         (cloneState quietHost (rawSample (JNum 12%float) (JNum 62000%float)))
         full, a1)
    /\ exists e2 raw r' st' full' a3,
         tracked (pushHistory_store a1 "point" (numberValue 12%float)
                    (cloneState quietHost
                       (rawSample (JNum 12%float) (JNum 62000%float)))) !! "point"
         = Some e2
         /\ relogTimeout e2 = Some 60000%float
         /\ relogState quietHost e2 = Some raw
         /\ pushHistory_queue quietHost
              (pushHistory_store a1 "point" (numberValue 12%float)
                 (cloneState quietHost
                    (rawSample (JNum 12%float) (JNum 62000%float))))
              "point" raw true true
            = (Queued r' (numberValue 12%float) st' full', a3)
         /\ rv_value (r_values r') = rv_value (r_values r).
Proof.
  eexists _, _, _. split; [reflexivity|].
  destruct (relog_writes_again quietHost quietHost
              (pointAdapter (relogEntry 0%float)) _ "point"
              (rawSample (JNum 12%float) (JNum 62000%float)) false false
              (relogEntry 0%float) _ _ _ _ eq_refl eq_refl eq_refl eq_refl)
    as (e2 & raw & r' & st' & full' & a3 & H1 & H2 & H3 & _ & H5 & _ & _ & _ & H9 & _).
  - discriminate.
  - reflexivity.
  - exists e2, raw, r', st', full', a3. repeat split; assumption.
Defined.

End WritePathExamples.
End WritePathFacts.
